(** * Crux toolkit: a shallow embedding of the result-emission path

    The development follows the C and C++ sources file by file.  Part I
    holds the embedding (one module per source file), Part II the facts
    proved about it (one module of facts per source file).

    Conventions.
    - C [int] values are integers of [Z]; the loops below never leave the
      range of [int] on the inputs the callers build, and overflow (which
      is undefined in C) is not modelled.
    - A C array or a [std::vector] is a [list]; a pointer that may be
      [NULL] is an [option].
    - [float] and [double] are the IEEE 754 binary32 and binary64 formats
      of [SpecFloat], with round-to-nearest-even. *)

From Stdlib Require Import ZArith QArith Lia List Bool String Ascii.
From Stdlib Require Import Floats.SpecFloat DecimalString DecimalPos DecimalZ.
From stdpp Require Import base list strings sorting.

Local Open Scope Z_scope.

(* ===================================================================== *)
(** * Part I.  The embedding                                              *)
(* ===================================================================== *)

(** ** IEEE 754 values of C *)

Module CFloat.

Definition prec32 : Z := 24.
Definition emax32 : Z := 128.
Definition prec64 : Z := 53.
Definition emax64 : Z := 1024.

(** [(double) x] for a [float] x: exact. *)
Definition to_double (x : spec_float) : spec_float :=
  match x with
  | S754_finite s m e => binary_round prec64 emax64 s m e
  | _ => x
  end.

(** [(float) x] for a [double] x: rounded to nearest, ties to even. *)
Definition to_float (x : spec_float) : spec_float :=
  match x with
  | S754_finite s m e => binary_round prec32 emax32 s m e
  | _ => x
  end.

(** An integer constant converted to [float], resp. [double]. *)
Definition float_of_Z (z : Z) : spec_float :=
  binary_normalize prec32 emax32 z 0 false.
Definition double_of_Z (z : Z) : spec_float :=
  binary_normalize prec64 emax64 z 0 false.

Definition pos_infinity : spec_float := S754_infinity false.
Definition neg_infinity : spec_float := S754_infinity true.
Definition zero : spec_float := S754_zero false.

End CFloat.

(** ** Diagnostics ([carp]) and decimal formatting *)

Module Carp.

Inductive level :=
| CARP_FATAL | CARP_ERROR | CARP_WARNING | CARP_INFO
| CARP_DETAILED_INFO | CARP_DEBUG | CARP_DETAILED_DEBUG.

Record entry := Entry { lvl : level; text : string }.

(** The diagnostics printed so far, oldest first. *)
Definition log := list entry.

Definition carp (l : level) (msg : string) (lg : log) : log :=
  lg ++ [Entry l msg].

(** Modelled from the spec: [carp.h] is not among the sources.  The
    spec calls a [carp(CARP_FATAL, ...)] a fatal error that terminates
    the run: the call does not return, and nothing after it runs.  A
    computation that may end so yields an [outcome]. *)
Inductive outcome (A : Type) :=
| Done (a : A)
| Fatal (msg : string).
Arguments Done {A} a.
Arguments Fatal {A} msg.

Definition bind {A B} (m : outcome A) (k : A -> outcome B) : outcome B :=
  match m with
  | Done a => k a
  | Fatal msg => Fatal msg
  end.

Definition is_fatal {A} (m : outcome A) : bool :=
  match m with Fatal _ => true | Done _ => false end.

(** [%d] of an [int]. *)
Definition fmt_int (z : Z) : string :=
  DecimalString.NilZero.string_of_int (Z.to_int z).

End Carp.

(** ** src/c/cuda/crux_cuda_test.c *)

Module CruxCudaTest.

Definition MAX_XCORR_OFFSET : Z := 75.
Definition NUM : Z := 15.

Section Kernel.
(** The kernel is written once over the type [V] of array cells.
    [sub_scaled acc x] is the statement
    [acc -= x / (MAX_XCORR_OFFSET * 2.0)];
    [garbage] is what a cell outside the list reads as (the loops
    never read one when the arrays hold [n] cells). *)
Context {V : Type}.
Variable garbage : V.
Variable sub_scaled : V -> V -> V.

Definition cell (a : list V) (i : Z) : V := nth (Z.to_nat i) a garbage.

Definition store (a : list V) (i : Z) (v : V) : list V :=
  <[Z.to_nat i := v]> a.

(** One turn of the inner [for]: the [continue] guard, then the
    update of [ans[idx]]. *)
Definition inner_body (inp : list V) (n idx : Z)
    (ans : list V) (sub_idx : Z) : list V :=
  if (sub_idx <=? 0) || (sub_idx >=? n) then ans
  else store ans idx (sub_scaled (cell ans idx) (cell inp sub_idx)).

(** One turn of the outer [for]. *)
Definition outer_body (inp : list V) (n max_offset : Z)
    (ans : list V) (idx : Z) : list V :=
  foldl (inner_body inp n idx)
        (store ans idx (cell inp idx))
        (seqZ (idx - max_offset) (2 * max_offset + 1)).

Definition do_cross_correlation_obs
    (inp ans : list V) (n max_offset : Z) : list V :=
  foldl (outer_body inp n max_offset) ans (seqZ 0 n).

(** The bins of the window of [idx] that pass the guard, in the order
    the loop visits them. *)
Definition window (n max_offset idx : Z) : list Z :=
  filter (fun j => 0 < j < n) (seqZ (idx - max_offset) (2 * max_offset + 1)).

(** What the subtractions of one bin amount to: one after the other,
    from the intensity of the bin, over its window. *)
Definition value (inp : list V) (n max_offset idx : Z) : V :=
  foldl sub_scaled (cell inp idx) (cell inp <$> window n max_offset idx).
End Kernel.

(** The cells as the C program has them: [float] cells, the quotient
    and the difference taken in [double] (the divisor is the [double]
    constant [MAX_XCORR_OFFSET * 2.0]), the result stored as [float]. *)
Definition divisor : spec_float :=
  SFmul CFloat.prec64 CFloat.emax64
    (CFloat.double_of_Z MAX_XCORR_OFFSET) (CFloat.double_of_Z 2).

Definition sub_scaled_float (acc x : spec_float) : spec_float :=
  CFloat.to_float
    (SFsub CFloat.prec64 CFloat.emax64 (CFloat.to_double acc)
       (SFdiv CFloat.prec64 CFloat.emax64 (CFloat.to_double x) divisor)).

Definition do_cross_correlation_obs_float :=
  do_cross_correlation_obs (V := spec_float) S754_nan sub_scaled_float.

(** The same kernel over the rationals: the arithmetic without
    rounding. *)
Definition sub_scaled_Q (acc x : Q) : Q :=
  (acc - x / (inject_Z MAX_XCORR_OFFSET * 2))%Q.

Definition do_cross_correlation_obs_Q :=
  do_cross_correlation_obs (V := Q) 0%Q sub_scaled_Q.

Definition Qsum (l : list Q) : Q := foldr Qplus 0%Q l.

(** A spectrum of [n] bins, all zero but for the given peaks. *)
Definition spectrum {V} (zero : V) (n : Z) (peaks : list (Z * V)) : list V :=
  foldl (fun a p => <[Z.to_nat (fst p) := snd p]> a)
        (replicate (Z.to_nat n) zero) peaks.

Definition three_peaks_float : list spec_float :=
  spectrum CFloat.zero 100
    [(10, CFloat.float_of_Z 100); (50, CFloat.float_of_Z 100);
     (90, CFloat.float_of_Z 100)].

Definition three_peaks_Q : list Q :=
  spectrum 0%Q 100 [(10, 100%Q); (50, 100%Q); (90, 100%Q)].

(** The transform as the specification words it, to compare with the
  kernel: the intensity at [i] minus the average of the intensities of
  the window around [i], bin [i] left out and bins outside the array
  skipped. *)
Definition spec_neighbours (n max_offset i : Z) : list Z :=
filter (fun j => j <> i) (window n max_offset i).

Definition spec_window_average (inp : list Q) (n max_offset i : Z) : Q :=
(cell 0 inp i
 - Qsum (cell 0 inp <$> spec_neighbours n max_offset i)
   / inject_Z (Z.of_nat (length (spec_neighbours n max_offset i))))%Q.

(** [h_max], over the cells [V] with [less a b] for [a < b].  The index
    runs from -1, which stands for no element yet; the value returned is
    read at the final index, which lies outside the array when the loop
    has not run. *)
Section Maximum.
Context {V : Type}.
Variable garbage : V.
Variable less : V -> V -> bool.

Definition h_max_body (a : list V) (best_index i : Z) : Z :=
  if (best_index =? -1) || less (cell garbage a best_index) (cell garbage a i)
  then i else best_index.

Definition h_max_index (a : list V) (n : Z) : Z :=
  foldl (h_max_body a) (-1) (seqZ 0 n).

(** [a[i]] with the index checked: [None] is a read outside the array. *)
Definition element (a : list V) (i : Z) : option V :=
  if 0 <=? i then a !! Z.to_nat i else None.

Definition h_max (a : list V) (n : Z) : option V :=
  element a (h_max_index a n).
End Maximum.

Definition h_max_float : list spec_float -> Z -> option spec_float :=
  h_max S754_nan SFltb.

End CruxCudaTest.


(** ** src/c/hit_collection.c *)

Module HitCollection.

Definition TRUE : bool := true.
Definition FALSE : bool := false.

(** What a store through an array index does: C defines it only for an
    index inside the array. *)
Inductive access (A : Type) :=
| InBounds (a : A)
| OutOfBounds (index : Z).
Arguments InBounds {A} a.
Arguments OutOfBounds {A} index.

Definition array_store {X} (a : list X) (i : Z) (x : X) : access (list X) :=
  if (0 <=? i) && (i <? Z.of_nat (length a))
  then InBounds (<[Z.to_nat i := x]> a)
  else OutOfBounds i.

Section WithCapacity.
(** [hit_collection.h] is not among the sources: the capacity macro
    and the type of hits are parameters. *)
Variable _MAX_NUMBER_HITS : Z.
Variable HIT_T : Type.

(** [hits] holds pointers, [None] being [NULL]. *)
Record hit_collection := HitCollection {
  hits : list (option HIT_T);
  hit_total : Z
}.

(** The layout of the struct: an array of [_MAX_NUMBER_HITS] cells. *)
Definition well_formed (hc : hit_collection) : Prop :=
  Z.of_nat (length (hits hc)) = _MAX_NUMBER_HITS /\ 0 <= hit_total hc.

(** [mycalloc] zeroes the struct. *)
Definition allocate_hit_collection : hit_collection :=
  HitCollection (replicate (Z.to_nat _MAX_NUMBER_HITS) None) 0.

Definition hit_collection_add_hit (hc : hit_collection) (hit : HIT_T)
    : access (hit_collection * bool) :=
  match array_store (hits hc) (hit_total hc) (Some hit) with
  | InBounds hs => InBounds (HitCollection hs (hit_total hc + 1), TRUE)
  | OutOfBounds i => OutOfBounds i
  end.

(** Adding the hits of a list one after the other. *)
Fixpoint add_hits (hc : hit_collection) (l : list HIT_T)
    : access hit_collection :=
  match l with
  | [] => InBounds hc
  | h :: l' =>
      match hit_collection_add_hit hc h with
      | InBounds (hc', _) => add_hits hc' l'
      | OutOfBounds i => OutOfBounds i
      end
  end.
End WithCapacity.

Arguments hits {HIT_T} _.
Arguments hit_total {HIT_T} _.
Arguments HitCollection {HIT_T} _ _.

(** The rest of the file: the iterator, printing and freeing. *)

(** [a[i]] read through an index. *)
Definition array_load {X} (a : list X) (i : Z) : access X :=
  if (0 <=? i) && (i <? Z.of_nat (length a))
  then match a !! Z.to_nat i with
       | Some x => InBounds x
       | None => OutOfBounds i
       end
  else OutOfBounds i.

Section Iterator.
Variable HIT_T : Type.

(** The struct [hit_iterator]; its members [hit_collection] and
    [hit_total] are named [iterated] and [iterator_hit_total] here.  The
    iterator points to the collection; no function of this file changes
    a collection while an iterator on it is in use, so the iterator
    carries the collection itself. *)
Record hit_iterator := HitIterator {
  iterated : hit_collection HIT_T;
  hit_idx : Z;
  iterator_hit_total : Z
}.

(** Modelled from the spec: [die], like a fatal [carp], ends the run. *)
Definition new_hit_iterator (hit_collection : option (hit_collection HIT_T))
    : Carp.outcome hit_iterator :=
  match hit_collection with
  | None => Carp.Fatal "Null hit collection passed to hit iterator"
  | Some c => Carp.Done (HitIterator c 0 (hit_total c))
  end.

Definition hit_iterator_has_next (it : hit_iterator) : bool :=
  hit_idx it <? iterator_hit_total it.

Definition hit_iterator_next (it : hit_iterator)
    : access (option HIT_T * hit_iterator) :=
  match array_load (hits (iterated it)) (hit_idx it) with
  | InBounds h =>
      InBounds (h, HitIterator (iterated it) (hit_idx it + 1)
                               (iterator_hit_total it))
  | OutOfBounds i => OutOfBounds i
  end.

(** The turns of a loop [while (hit_iterator_has_next(it))] whose body
    calls [hit_iterator_next] once: [hit_idx] moves up by one a turn
    until it reaches [hit_total]. *)
Definition turns_left (it : hit_iterator) : nat :=
  Z.to_nat (iterator_hit_total it - hit_idx it).

(** The loop of [print_hit_collection], unrolled [turns] times; [output]
    is the hits handed to [print_hit] so far. *)
Fixpoint print_hits (turns : nat) (it : hit_iterator)
    (output : list (option HIT_T)) : access (list (option HIT_T)) :=
  match turns with
  | O => InBounds output
  | S k =>
      match hit_iterator_next it with
      | InBounds (hit, it') => print_hits k it' (output ++ [hit])
      | OutOfBounds i => OutOfBounds i
      end
  end.

Definition print_hit_collection (output : list (option HIT_T))
    (hit_collection : option (hit_collection HIT_T))
    : Carp.outcome (access (list (option HIT_T) * bool)) :=
  match new_hit_iterator hit_collection with
  | Carp.Fatal msg => Carp.Fatal msg
  | Carp.Done it =>
      Carp.Done
        match print_hits (turns_left it) it output with
        | InBounds out => InBounds (out, TRUE)
        | OutOfBounds i => OutOfBounds i
        end
  end.

(** The loop of [free_hit_collection], unrolled [turns] times: one turn
    for each unit of [hit_total].  [freed] is the hits handed to
    [free_hit] so far. *)
Fixpoint free_hits (turns : nat) (hc : hit_collection HIT_T)
    (freed : list (option HIT_T))
    : access (list (option HIT_T) * hit_collection HIT_T) :=
  match turns with
  | O => InBounds (freed, hc)
  | S k =>
      let total := hit_total hc - 1 in
      match array_load (hits hc) total with
      | OutOfBounds i => OutOfBounds i
      | InBounds hit =>
          match array_store (hits hc) total None with
          | OutOfBounds i => OutOfBounds i
          | InBounds hs => free_hits k (HitCollection hs total) (freed ++ [hit])
          end
      end
  end.

(** [free_hit_collection] up to its last statement, which frees the
    struct itself: the hits freed, in order, and the struct as it is
    then. *)
Definition free_hit_collection (hc : hit_collection HIT_T)
    : access (list (option HIT_T) * hit_collection HIT_T) :=
  free_hits (Z.to_nat (hit_total hc)) hc [].
End Iterator.

Arguments HitIterator {HIT_T} _ _ _.
Arguments iterated {HIT_T} _.
Arguments hit_idx {HIT_T} _.
Arguments iterator_hit_total {HIT_T} _.

End HitCollection.

(** ** src/c/DelimitedFileReader.cpp *)

Module DelimitedFileReader.

Definition FLOAT_T : Type := spec_float.

(** The files that can be opened for reading, each as its lines. *)
Definition file_system : Type := string -> option (list string).

(** The members of the class.  [file_ptr_] is the stream: the lines not
    yet read, or [None] when the file could not be opened. *)
Record reader := Reader {
  file_name_ : string;
  has_header_ : bool;
  num_rows_valid_ : bool;
  column_names_ : list string;
  data_ : list string;
  current_row_ : Z;
  current_data_string_ : string;
  next_data_string_ : string;
  has_next_ : bool;
  has_current_ : bool;
  column_mismatch_warned_ : bool;
  file_ptr_ : option (list string)
}.

Definition tab : ascii := "009"%char.

(** [getline(stream, str) != NULL]: the stream after the call, the
    string after the call (emptied when nothing is left to read) and
    whether a line was read. *)
Definition getline (stream : option (list string))
    : option (list string) * string * bool :=
  match stream with
  | Some (l :: rest) => (Some rest, l, true)
  | _ => (stream, EmptyString, false)
  end.

(** [while (data_.size() < column_names_.size()) data_.push_back(std::string())],
    the loop unrolled [missing] times. *)
Fixpoint push_back_empty (missing : nat) (data : list string) : list string :=
  match missing with
  | O => data
  | S k => push_back_empty k (data ++ [EmptyString])
  end.

Definition warn_column_count (size row header : Z) : string :=
  ("Column count " ++ Carp.fmt_int size ++ " for line " ++ Carp.fmt_int row
   ++ " is less than header " ++ Carp.fmt_int header)%string.

Definition warn_suppressing : string :=
  "Suppressing warnings, other mismatches may exist!"%string.

(** The three warnings printed at a row shorter than the header. *)
Definition mismatch_warnings (size row header : Z) (line : string)
    : list Carp.entry :=
  [ Carp.Entry Carp.CARP_WARNING (warn_column_count size row header);
    Carp.Entry Carp.CARP_WARNING line;
    Carp.Entry Carp.CARP_WARNING warn_suppressing ].

(** A log that grew by nothing, or by the three warnings of one row. *)
Definition at_most_one_report (before after : Carp.log) : Prop :=
  after = before
  \/ exists size row header line,
       after = before ++ mismatch_warnings size row header line.

Section WithTokenizer.
(** [DelimitedFile.h] is not among the sources.  [tokenize str tokens d]
    is the content of the vector [tokens] after
    [DelimitedFile::tokenize(str, tokens, d)]. *)
Variable tokenize : string -> list string -> ascii -> list string.

Definition next (r : reader) (lg : Carp.log) : reader * Carp.log :=
  if has_next_ r then
    let current_row := current_row_ r + 1 in
    let current_data_string := next_data_string_ r in
    let data := tokenize (next_data_string_ r) (data_ r) tab in
    let ncols := length (column_names_ r) in
    let short := (length data <? ncols)%nat in
    let warn := short && negb (column_mismatch_warned_ r) in
    let lg' :=
      if warn
      then lg ++ mismatch_warnings (Z.of_nat (length data)) current_row
                   (Z.of_nat ncols) current_data_string
      else lg in
    let warned := if warn then true else column_mismatch_warned_ r in
    let data' :=
      if short then push_back_empty (ncols - length data) data else data in
    let '(stream, line, more) := getline (file_ptr_ r) in
    (Reader (file_name_ r) (has_header_ r) (num_rows_valid_ r)
            (column_names_ r) data' current_row current_data_string
            line more true warned stream,
     lg')
  else
    (Reader (file_name_ r) (has_header_ r) (num_rows_valid_ r)
            (column_names_ r) (data_ r) (current_row_ r)
            (current_data_string_ r) (next_data_string_ r)
            (has_next_ r) false (column_mismatch_warned_ r) (file_ptr_ r),
     lg).

Definition loadData (fs : file_system) (file_name : string) (hasHeader : bool)
    (r : reader) (lg : Carp.log) : reader * Carp.log :=
  let stream0 := fs file_name in
  (* the members as they are once the assignments at the top are done *)
  let start names line more stream :=
    Reader file_name hasHeader false names (data_ r) 0
           (current_data_string_ r) line more (has_current_ r) false stream in
  match stream0 with
  | None =>
      (start [] (next_data_string_ r) (has_next_ r) None,
       Carp.carp Carp.CARP_ERROR
         ("Opening " ++ file_name ++ " or reading failed")%string lg)
  | Some _ =>
      let '(stream1, line1, more1) := getline stream0 in
      if hasHeader then
        if more1 then
          let names := tokenize line1 [] tab in
          let '(stream2, line2, more2) := getline stream1 in
          let r2 := start names line2 more2 stream2 in
          if more2 then next r2 lg else (r2, lg)
        else
          (start [] line1 more1 stream1,
           Carp.carp Carp.CARP_WARNING "No data/headers found!"%string lg)
      else
        let r1 := start [] line1 more1 stream1 in
        if more1 then next r1 lg else (r1, lg)
  end.

Definition reset (fs : file_system) (r : reader) (lg : Carp.log)
    : reader * Carp.log :=
  loadData fs (file_name_ r) (has_header_ r) r lg.

Definition hasNext (r : reader) : bool := has_next_ r || has_current_ r.

(** [k] calls of [next()] in a row. *)
Fixpoint next_times (k : nat) (st : reader * Carp.log) : reader * Carp.log :=
  match k with
  | O => st
  | S k' => next_times k' (next (fst st) (snd st))
  end.
End WithTokenizer.

(** [data_.at(col_idx)]: [None] stands for the [std::out_of_range] that
    [at] throws. *)
Definition getString (r : reader) (col_idx : nat) : option string :=
  data_ r !! col_idx.

Section WithParser.
(** [from_string v s] is the content of the variable passed first to
    [DelimitedFile::from_string<TValue>] after the call, [v] being its
    content before; [getValue] discards the boolean the call returns.
    [type_ans] is what the local of that name, which [getValue] declares
    without an initialiser, holds before the call. *)
Context {TValue : Type}.
Variable from_string : TValue -> string -> TValue.
Variable type_ans : TValue.

Definition getValue (r : reader) (col_idx : nat) : option TValue :=
  match getString r col_idx with
  | None => None
  | Some string_ans => Some (from_string type_ans string_ans)
  end.
End WithParser.

Section Numeric.
Variable from_string : spec_float -> string -> spec_float.
Variable type_ans : spec_float.

Definition getFloat (r : reader) (col_idx : nat) : option FLOAT_T :=
  match getString r col_idx with
  | None => None
  | Some string_ans =>
      if String.eqb string_ans "Inf" then Some CFloat.pos_infinity
      else if String.eqb string_ans "-Inf" then Some (SFopp CFloat.pos_infinity)
      else getValue from_string type_ans r col_idx
  end.

Definition getDouble (r : reader) (col_idx : nat) : option spec_float :=
  match getString r col_idx with
  | None => None
  | Some string_ans =>
      if String.eqb string_ans EmptyString then Some CFloat.zero
      else if String.eqb string_ans "Inf" then Some CFloat.pos_infinity
      else if String.eqb string_ans "-Inf" then Some (SFopp CFloat.pos_infinity)
      else getValue from_string type_ans r col_idx
  end.
End Numeric.

(** A parser to run the getters with.  It reads a whole number when the
    cell holds digits only; on any other cell, the empty one among them,
    the extraction fails and the variable keeps what it held. *)
Definition digits_only (s : string) : bool :=
  forallb (fun c => (48 <=? Z.of_N (N_of_ascii c)) && (Z.of_N (N_of_ascii c) <=? 57))
          (list_ascii_of_string s)
  && negb (String.eqb s EmptyString).

Definition number_of_digits (s : string) : Z :=
  foldl (fun n c => 10 * n + (Z.of_N (N_of_ascii c) - 48)) 0
        (list_ascii_of_string s).

Definition from_string_digits (value : spec_float) (s : string) : spec_float :=
  if digits_only s then CFloat.double_of_Z (number_of_digits s) else value.

(** A reader as the default constructor leaves it, and a reader placed on
    a row of cells. *)
Definition blank : reader :=
  Reader EmptyString false false [] [] 0 EmptyString EmptyString
         false false false None.

Definition on_row (names cells : list string) : reader :=
  Reader EmptyString true false names cells 1 EmptyString EmptyString
         false true false None.

(** A tokenizer to run the reader with: the cells between the
    delimiters, an empty string having no cell. *)
Fixpoint split_on (d : ascii) (s : string) (cur : string) : list string :=
  match s with
  | EmptyString => [cur]
  | String c s' =>
      if Ascii.eqb c d then cur :: split_on d s' EmptyString
      else split_on d s' (cur ++ String c EmptyString)%string
  end.

Definition split_tokenize (s : string) (tokens : list string) (d : ascii)
    : list string :=
  match s with
  | EmptyString => []
  | _ => split_on d s EmptyString
  end.

(** The look-ups by column name, the row as a whole, and the count of
    rows. *)

(** The loop of [findColumn] from column [col_idx] on. *)
Fixpoint findColumn_from (names : list string) (column_name : string)
    (col_idx : Z) : Z :=
  match names with
  | [] => -1
  | name :: rest =>
      if String.eqb name column_name then col_idx
      else findColumn_from rest column_name (col_idx + 1)
  end.

Definition findColumn (r : reader) (column_name : string) : Z :=
  findColumn_from (column_names_ r) column_name 0.

Definition numCols (r : reader) : Z := Z.of_nat (length (column_names_ r)).

Definition cannot_find_column (column_name : string) : string :=
  ("Cannot find column " ++ column_name)%string.

(** [getString(const char* column_name)] *)
Definition getString_named (r : reader) (column_name : string)
    : Carp.outcome (option string) :=
  let col_idx := findColumn r column_name in
  if col_idx =? -1 then Carp.Fatal (cannot_find_column column_name)
  else Carp.Done (getString r (Z.to_nat col_idx)).

(** [getString()], the current row as read. *)
Definition getString_current (r : reader) : Carp.outcome string :=
  if negb (has_current_ r) then Carp.Fatal "End of file!"
  else Carp.Done (current_data_string_ r).

Section NumericNamed.
Variable from_string : spec_float -> string -> spec_float.
Variable type_ans : spec_float.

(** [getFloat(const char* column_name)] and
    [getDouble(const char* column_name)] *)
Definition getFloat_named (r : reader) (column_name : string)
    : Carp.outcome (option FLOAT_T) :=
  let col_idx := findColumn r column_name in
  if col_idx =? -1 then Carp.Fatal (cannot_find_column column_name)
  else Carp.Done (getFloat from_string type_ans r (Z.to_nat col_idx)).

Definition getDouble_named (r : reader) (column_name : string)
    : Carp.outcome (option spec_float) :=
  let col_idx := findColumn r column_name in
  if col_idx =? -1 then Carp.Fatal (cannot_find_column column_name)
  else Carp.Done (getDouble from_string type_ans r (Z.to_nat col_idx)).
End NumericNamed.

(** [numRows].  The member [num_rows_] is kept beside the reader; it is
    an [unsigned int], as the value returned is, so that counting and
    the decrement for the header are taken modulo 2^32.  The lines are
    counted on a stream of its own, opened on [file_name_]. *)
Definition UINT_MODULUS : Z := 2 ^ 32.

(** The counting loop: one more for every line [getline] reads. *)
Fixpoint count_lines (lines : list string) (num_rows : Z) : Z :=
  match lines with
  | [] => num_rows
  | _ :: rest => count_lines rest ((num_rows + 1) mod UINT_MODULUS)
  end.

Definition with_num_rows_valid (valid : bool) (r : reader) : reader :=
  Reader (file_name_ r) (has_header_ r) valid (column_names_ r) (data_ r)
         (current_row_ r) (current_data_string_ r) (next_data_string_ r)
         (has_next_ r) (has_current_ r) (column_mismatch_warned_ r)
         (file_ptr_ r).

Definition numRows (fs : file_system) (st : reader * Z) : Z * (reader * Z) :=
  let '(r, num_rows_) := st in
  if negb (num_rows_valid_ r) then
    let counted := count_lines (default [] (fs (file_name_ r))) 0 in
    let num_rows :=
      if has_header_ r then (counted - 1) mod UINT_MODULUS else counted in
    (num_rows, (with_num_rows_valid true r, num_rows))
  else (num_rows_, (r, num_rows_)).

(** Where a reader stands in a file: on the row [current], numbered
    [row], with the rows [pending] still to come (the first of them
    already read ahead), or past the last row. *)
Definition positioned (r : reader) (current : string) (row : Z)
    (pending : list string) : Prop :=
  has_current_ r = true
  /\ current_data_string_ r = current
  /\ current_row_ r = row
  /\ match pending with
     | ahead :: rest =>
         has_next_ r = true /\ next_data_string_ r = ahead
         /\ file_ptr_ r = Some rest
     | [] => has_next_ r = false
     end.

Definition finished (r : reader) : Prop :=
  has_next_ r = false /\ has_current_ r = false.

(** The header as text. *)

Definition newline : ascii := "010"%char.

(** [column_names_.at(col_idx)]: [None] stands for the
    [std::out_of_range] that [at] throws. *)
Definition getColumnName (r : reader) (col_idx : Z) : option string :=
  column_names_ r !! Z.to_nat col_idx.

(** [oss << before << getColumnName(col_idx) << after], [oss] being
    [None] once the exception has been thrown. *)
Definition put_column_name (r : reader) (before after : string)
    (oss : option string) (col_idx : Z) : option string :=
  match oss, getColumnName r col_idx with
  | Some s, Some name => Some (s ++ before ++ name ++ after)%string
  | _, _ => None
  end.

Definition getAvailableColumnsString (r : reader) : option string :=
  foldl (put_column_name r "  " (String newline EmptyString))
        (Some ("Available columns:" ++ String newline EmptyString)%string)
        (seqZ 0 (numCols r)).

Definition getHeaderString (r : reader) : option string :=
  if numCols r =? 0 then Some EmptyString
  else
    foldl (put_column_name r (String tab EmptyString) EmptyString)
          (put_column_name r EmptyString EmptyString (Some EmptyString) 0)
          (seqZ 1 (numCols r - 1)).


End DelimitedFileReader.

(** ** The parameter store ([parameter.h], not among the sources) *)

Module Params.

(** The look-ups the sources call, by parameter name. *)
Record parameters := Parameters {
  get_string_parameter : string -> string;
  get_boolean_parameter : string -> bool;
  get_int_parameter : string -> Z
}.

End Params.

(** ** src/app/PrintProcessedSpectra.cpp *)

Module PrintProcessedSpectra.

(** What [main] does to the world outside, in order.  [Initialize] is the
    call of [CruxApplication::initialize], whose body is not among the
    sources; [ProcessSpectra] is the loop over the spectra with the
    header line before it and the closing of the files after it. *)
Inductive action :=
| Initialize (argv : list string)
| CreateOutputDirectory (output_dir : string) (overwrite : bool)
| CreateFileInPath (name output_dir : string) (overwrite : bool)
| ProcessSpectra (input_ms2_name stop_after output_ms2_name : string).

(** [needsOutputDirectory()], which the class answers for
    [CruxApplication]. *)
Definition needsOutputDirectory : bool := true.

(** The calls by which [main] itself creates the output directory and
    the output file. *)
Definition creation_call (a : action) : bool :=
  match a with
  | CreateOutputDirectory _ _ | CreateFileInPath _ _ _ => true
  | _ => false
  end.

(** Whether an action of the run creates an output directory or an
    output file.  The two calls do.  The body of
    [CruxApplication::initialize] is not among the sources: whether it
    creates the output directory of an application is the parameter
    [initialize_creates], a function of what the application answers to
    [needsOutputDirectory()]. *)
Definition creates_output (initialize_creates : bool -> bool) (a : action)
    : bool :=
  match a with
  | Initialize _ => initialize_creates needsOutputDirectory
  | CreateOutputDirectory _ _ | CreateFileInPath _ _ _ => true
  | ProcessSpectra _ _ _ => false
  end.

Definition invalid_stop_after_message (stop_after : string) : string :=
  ("Invalid value '" ++ stop_after ++ "' for stop-after. Must be discretize, "
   ++ "remove-precursor, square-root, remove-grass, ten-bin, or xcorr.")%string.

(** [a != b] on [std::string]. *)
Definition string_neq (a b : string) : bool := negb (String.eqb a b).

Section WithCollaborators.
Variable prefix_fileroot_to_name : string -> string.
(** Whether [SpectrumCollectionFactory::create] returns a collection. *)
Variable spectra_readable : string -> bool.

Definition main (p : Params.parameters) (argv : list string)
    : list action * Carp.outcome Z :=
  let t0 := [Initialize argv] in
  let input_ms2_name := Params.get_string_parameter p "ms2 file" in
  let output_ms2_name :=
    prefix_fileroot_to_name (Params.get_string_parameter p "output file") in
  let output_dir := Params.get_string_parameter p "output-dir" in
  let overwrite := Params.get_boolean_parameter p "overwrite" in
  let stop_after := Params.get_string_parameter p "stop-after" in
  if string_neq stop_after "discretize"
     && string_neq stop_after "remove-precursor"
     && string_neq stop_after "square-root"
     && string_neq stop_after "remove-grass"
     && string_neq stop_after "ten-bin"
     && string_neq stop_after "xcorr"
  then (t0, Carp.Fatal (invalid_stop_after_message stop_after))
  else
    let t1 := t0 ++ [CreateOutputDirectory output_dir overwrite;
                     CreateFileInPath output_ms2_name output_dir overwrite] in
    if negb (spectra_readable input_ms2_name)
    then (t1, Carp.Fatal
                ("Could not read spectra from " ++ input_ms2_name ++ ".")%string)
    else (t1 ++ [ProcessSpectra input_ms2_name stop_after output_ms2_name],
          Carp.Done 0).
End WithCollaborators.

(** The stages the documentation of [stop-after] lists. *)
Definition stages : list string :=
  ["discretize"; "remove-precursor"; "square-root"; "remove-grass";
   "ten-bin"; "xcorr"]%string.

Definition with_stop_after (v : string) : Params.parameters :=
  Params.Parameters
    (fun name => if String.eqb name "stop-after" then v else name)
    (fun _ => false) (fun _ => 0).

End PrintProcessedSpectra.

(** ** src/c/OutputFiles.cpp *)

Module OutputFiles.

(** [objects.h] is not among the sources: the commands the sources name,
    and one more for every other command. *)
Inductive COMMAND_T :=
| SEARCH_COMMAND | SEQUEST_COMMAND | PERCOLATOR_COMMAND | QRANKER_COMMAND
| SPECTRAL_COUNTS_COMMAND | PROCESS_SPEC_COMMAND | MISC_COMMAND.

Definition command_eqb (a b : COMMAND_T) : bool :=
  match a, b with
  | SEARCH_COMMAND, SEARCH_COMMAND | SEQUEST_COMMAND, SEQUEST_COMMAND
  | PERCOLATOR_COMMAND, PERCOLATOR_COMMAND | QRANKER_COMMAND, QRANKER_COMMAND
  | SPECTRAL_COUNTS_COMMAND, SPECTRAL_COUNTS_COMMAND
  | PROCESS_SPEC_COMMAND, PROCESS_SPEC_COMMAND
  | MISC_COMMAND, MISC_COMMAND => true
  | _, _ => false
  end.

(** [makeTargetDecoyList] on its own: it reads [num_files_] and fills
    [target_decoy_list_], an array of [num_files_] empty strings when
    allocated. *)
Definition makeTargetDecoyList (num_files_ : Z) : list string :=
  let fresh := replicate (Z.to_nat num_files_) EmptyString in
  let with_target := <[0%nat := "target"%string]> fresh in
  if num_files_ =? 2 then <[1%nat := "decoy"%string]> with_target
  else
    foldl (fun l file_idx =>
             <[Z.to_nat file_idx := ("decoy-" ++ Carp.fmt_int file_idx)%string]> l)
          with_target (seqZ 1 (num_files_ - 1)).

Definition ends_with_slash (s : string) : bool :=
  match rev (list_ascii_of_string s) with
  | c :: _ => Ascii.eqb c "/"%char
  | [] => false
  end.

Section WithCollections.
(** The collaborators that stay abstract: match collections, spectra and
    score types, and the file stem of a command. *)
Variable MATCH_COLLECTION_T : Type.
Variable Spectrum : Type.
Variable SCORER_TYPE_T : Type.
Variable command_type_to_file_string_ptr : COMMAND_T -> string.

(** What the printers, which are not among the sources, are called to
    put into a file: one record per call, with the arguments of the
    call. *)
Inductive written :=
| TabHeader (command : COMMAND_T) (is_decoy : bool)
| SqtHeader (tag : string) (num_proteins : Z)
| XmlHeader
| XmlFooter
| TabMatches (top_match : Z) (matches : option MATCH_COLLECTION_T)
    (spectrum : Spectrum) (rank_type : SCORER_TYPE_T)
| TabMultiSpectra (matches : option MATCH_COLLECTION_T) (as_decoy_file : bool)
| SqtMatches (top_match : Z) (matches : option MATCH_COLLECTION_T)
    (spectrum : option Spectrum)
| XmlMatches (top_match : Z) (matches : option MATCH_COLLECTION_T)
    (spectrum : option Spectrum) (rank_type : SCORER_TYPE_T) (index : Z).

(** An open output file: where it is, and what was put into it so far. *)
Record file := File {
  directory : option string;
  filename : string;
  content : list written
}.

Definition put (w : written) (f : file) : file :=
  File (directory f) (filename f) (content f ++ [w]).

Definition put_all (w : written) (files : list file) : list file :=
  put w <$> files.

(** [print(array[file_idx], ...)] *)
Definition put_at (w : written) (file_idx : Z) (files : list file) : list file :=
  alter (put w) (Z.to_nat file_idx) files.

(** The members of the class; [index] is the [static int] of
    [printMatchesXml], and a file array that is [NULL] is [None]. *)
Record output_files := OutputFilesState {
  matches_per_spec_ : Z;
  command_ : COMMAND_T;
  num_files_ : Z;
  target_decoy_list_ : list string;
  delim_file_array_ : option (list file);
  sqt_file_array_ : option (list file);
  xml_file_array_ : option (list file);
  feature_file_ : option file;
  index : Z;
  diagnostics : Carp.log
}.

Definition makeFileName (fileroot : option string) (command : COMMAND_T)
    (target_decoy : option string) (extension : string)
    (directory : option string) : string :=
  let basename := command_type_to_file_string_ptr command in
  let s0 :=
    match directory with
    | Some d => if ends_with_slash d then d else (d ++ "/")%string
    | None => EmptyString
    end in
  let s1 :=
    match fileroot with
    | Some r => (s0 ++ r ++ ".")%string
    | None => s0
    end in
  let s2 := (s1 ++ basename ++ ".")%string in
  let s3 :=
    match target_decoy with
    | Some t => if String.eqb t EmptyString then s2 else (s2 ++ t ++ ".")%string
    | None => s2
    end in
  (s3 ++ extension)%string.

(** [createFiles] for [FILE*] arrays.  The file is reported as opened:
    [create_file_in_path] is not among the sources. *)
Definition createFiles_FILE (num_files_ : Z) (target_decoy_list_ : list string)
    (output_dir : string) (fileroot : option string) (command : COMMAND_T)
    (extension : string) : option (list file) :=
  if num_files_ =? 0 then None
  else Some
    ((fun file_idx =>
        File (Some output_dir)
             (makeFileName fileroot command
                (Some (nth (Z.to_nat file_idx) target_decoy_list_ EmptyString))
                extension None)
             [])
     <$> seqZ 0 num_files_).

(** [createFiles] for [MatchFileWriter*] arrays. *)
Definition createFiles_writer (num_files_ : Z) (target_decoy_list_ : list string)
    (output_dir : string) (fileroot : option string) (command : COMMAND_T)
    (extension : string) : option (list file) :=
  if num_files_ =? 0 then None
  else Some
    ((fun file_idx =>
        File None
             (makeFileName fileroot command
                (Some (nth (Z.to_nat file_idx) target_decoy_list_ EmptyString))
                extension (Some output_dir))
             [])
     <$> seqZ 0 num_files_).

(** The constructor. *)
Definition OutputFiles (program_name : COMMAND_T) (p : Params.parameters)
    : output_files :=
  let matches_per_spec := Params.get_int_parameter p "top-match" in
  let output_directory := Params.get_string_parameter p "output-dir" in
  let fileroot :=
    let s := Params.get_string_parameter p "fileroot" in
    if String.eqb s "__NULL_STR" then None else Some s in
  let num_decoy_files := Params.get_int_parameter p "num-decoy-files" in
  let num_files :=
    if negb (command_eqb program_name SEARCH_COMMAND)
       && negb (command_eqb program_name SEQUEST_COMMAND)
    then 1
    else num_decoy_files + 1 in
  let target_decoy_list := makeTargetDecoyList num_files in
  let overwrite := Params.get_boolean_parameter p "overwrite" in
  let lg :=
    Carp.carp Carp.CARP_DEBUG
      ("OutputFiles is opening " ++ Carp.fmt_int num_files ++ " files ("
       ++ Carp.fmt_int num_decoy_files ++ " decoys) in '" ++ output_directory
       ++ "' with root '" ++ default "(null)" fileroot ++ "'. Overwrite: "
       ++ (if overwrite then "1" else "0") ++ ".")%string [] in
  let delim :=
    createFiles_writer num_files target_decoy_list output_directory fileroot
      program_name "txt" in
  let xml :=
    if negb (command_eqb program_name SPECTRAL_COUNTS_COMMAND)
    then createFiles_FILE num_files target_decoy_list output_directory fileroot
           program_name "pep.xml"
    else None in
  let sqt :=
    if command_eqb program_name SEQUEST_COMMAND
    then createFiles_FILE num_files target_decoy_list output_directory fileroot
           program_name "sqt"
    else None in
  let feature :=
    if (command_eqb program_name PERCOLATOR_COMMAND
        || command_eqb program_name QRANKER_COMMAND)
       && Params.get_boolean_parameter p "feature-file"
    then Some (File (Some output_directory)
                    (makeFileName fileroot program_name None "features.txt" None)
                    [])
    else None in
  OutputFilesState matches_per_spec program_name num_files target_decoy_list
                   delim sqt xml feature 1 lg.

(** [writeHeaders(int num_proteins)], for the search commands. *)
Definition writeHeaders_body (num_proteins : Z) (o : output_files)
    (file_idx : Z) : output_files :=
  let tag := if file_idx =? 0 then "target"%string else "decoy"%string in
  let is_decoy := negb (file_idx =? 0) in
  OutputFilesState (matches_per_spec_ o) (command_ o) (num_files_ o)
    (target_decoy_list_ o)
    (put_at (TabHeader (command_ o) is_decoy) file_idx <$> delim_file_array_ o)
    (put_at (SqtHeader tag num_proteins) file_idx <$> sqt_file_array_ o)
    (put_at XmlHeader file_idx <$> xml_file_array_ o)
    (feature_file_ o) (index o) (diagnostics o).

Definition writeHeaders (num_proteins : Z) (o : output_files) : output_files :=
  foldl (writeHeaders_body num_proteins) o (seqZ 0 (num_files_ o)).

(** [writeFooters]. *)
Definition writeFooters (o : output_files) : output_files :=
  match xml_file_array_ o with
  | Some xml =>
      OutputFilesState (matches_per_spec_ o) (command_ o) (num_files_ o)
        (target_decoy_list_ o) (delim_file_array_ o) (sqt_file_array_ o)
        (Some (foldl (fun files file_idx => put_at XmlFooter file_idx files)
                     xml (seqZ 0 (num_files_ o))))
        (feature_file_ o) (index o) (diagnostics o)
  | None => o
  end.

(** The loop shared by the three printers: file [file_idx] receives
    [cur_matches], which then moves on to the decoy collection of the
    same index when the vector has one. *)
Definition fan_out (record_of : option MATCH_COLLECTION_T -> written)
    (decoy_matches_array : list (option MATCH_COLLECTION_T))
    (st : list file * option MATCH_COLLECTION_T) (file_idx : Z)
    : list file * option MATCH_COLLECTION_T :=
  let files := put_at (record_of (snd st)) file_idx (fst st) in
  match decoy_matches_array !! Z.to_nat file_idx with
  | Some d => (files, d)
  | None => (files, snd st)
  end.

Definition with_log (lg : Carp.log) (o : output_files) : output_files :=
  OutputFilesState (matches_per_spec_ o) (command_ o) (num_files_ o)
    (target_decoy_list_ o) (delim_file_array_ o) (sqt_file_array_ o)
    (xml_file_array_ o) (feature_file_ o) (index o) lg.

Definition printMatchesTab (target_matches : option MATCH_COLLECTION_T)
    (decoy_matches_array : list (option MATCH_COLLECTION_T))
    (rank_type : SCORER_TYPE_T) (spectrum : option Spectrum)
    (o : output_files) : output_files :=
  let lg := Carp.carp Carp.CARP_DETAILED_DEBUG
              "Writing tab delimited results." (diagnostics o) in
  match delim_file_array_ o with
  | None => with_log lg o
  | Some delim =>
      match spectrum with
      | Some sp =>
          let step (st : list file * option MATCH_COLLECTION_T * Carp.log)
                   (file_idx : Z) :=
            let '(files, cur, l) := st in
            let '(files', cur') :=
              fan_out (fun m => TabMatches (matches_per_spec_ o) m sp rank_type)
                      decoy_matches_array (files, cur) file_idx in
            (files', cur',
             Carp.carp Carp.CARP_DETAILED_DEBUG
               ("done writing file index " ++ Carp.fmt_int file_idx)%string l) in
          let '(files, _, lg') :=
            foldl step (delim, target_matches, lg) (seqZ 0 (num_files_ o)) in
          OutputFilesState (matches_per_spec_ o) (command_ o) (num_files_ o)
            (target_decoy_list_ o) (Some files) (sqt_file_array_ o)
            (xml_file_array_ o) (feature_file_ o) (index o) lg'
      | None =>
          let files0 := put_at (TabMultiSpectra target_matches false) 0 delim in
          let files1 :=
            if 1 <? num_files_ o
            then put_at (TabMultiSpectra target_matches true) 1 files0
            else files0 in
          OutputFilesState (matches_per_spec_ o) (command_ o) (num_files_ o)
            (target_decoy_list_ o) (Some files1) (sqt_file_array_ o)
            (xml_file_array_ o) (feature_file_ o) (index o) lg
      end
  end.

Definition printMatchesSqt (target_matches : option MATCH_COLLECTION_T)
    (decoy_matches_array : list (option MATCH_COLLECTION_T))
    (spectrum : option Spectrum) (o : output_files) : output_files :=
  match sqt_file_array_ o with
  | None => o
  | Some sqt =>
      let '(files, _) :=
        foldl (fan_out (fun m => SqtMatches (matches_per_spec_ o) m spectrum)
                       decoy_matches_array)
              (sqt, target_matches) (seqZ 0 (num_files_ o)) in
      OutputFilesState (matches_per_spec_ o) (command_ o) (num_files_ o)
        (target_decoy_list_ o) (delim_file_array_ o) (Some files)
        (xml_file_array_ o) (feature_file_ o) (index o) (diagnostics o)
  end.

Definition printMatchesXml (target_matches : option MATCH_COLLECTION_T)
    (decoy_matches_array : list (option MATCH_COLLECTION_T))
    (spectrum : option Spectrum) (rank_type : SCORER_TYPE_T)
    (o : output_files) : output_files :=
  match xml_file_array_ o with
  | None => o
  | Some xml =>
      let '(files, _) :=
        foldl (fan_out (fun m => XmlMatches (matches_per_spec_ o) m spectrum
                                   rank_type (index o))
                       decoy_matches_array)
              (xml, target_matches) (seqZ 0 (num_files_ o)) in
      OutputFilesState (matches_per_spec_ o) (command_ o) (num_files_ o)
        (target_decoy_list_ o) (delim_file_array_ o) (sqt_file_array_ o)
        (Some files) (feature_file_ o) (index o + 1) (diagnostics o)
  end.

Definition channel_mismatch_message (given expected : Z) : string :=
  ("WriteMatches was given " ++ Carp.fmt_int given
   ++ " decoy collections but was expecting " ++ Carp.fmt_int expected ++ ".")%string.

(** [writeMatches] with four arguments. *)
Definition writeMatches (target_matches : option MATCH_COLLECTION_T)
    (decoy_matches_array : list (option MATCH_COLLECTION_T))
    (rank_type : SCORER_TYPE_T) (spectrum : option Spectrum)
    (o : output_files) : Carp.outcome output_files :=
  match target_matches with
  | None => Carp.Done o
  | Some _ =>
      let size := Z.of_nat (length decoy_matches_array) in
      if negb (size =? num_files_ o - 1)
      then Carp.Fatal (channel_mismatch_message size (num_files_ o - 1))
      else
        Carp.Done
          (printMatchesXml target_matches decoy_matches_array spectrum rank_type
             (printMatchesSqt target_matches decoy_matches_array spectrum
                (printMatchesTab target_matches decoy_matches_array rank_type
                   spectrum o)))
  end.

(** How many footers a file holds, and the footers in each file of the
    XML array. *)
Definition is_footer (w : written) : bool :=
  match w with XmlFooter => true | _ => false end.

Definition footers (f : file) : nat :=
  length (filter (fun w => is_footer w = true) (content f)).

Definition xml_footers (o : output_files) : list nat :=
  match xml_file_array_ o with
  | Some xml => footers <$> xml
  | None => []
  end.

(** The invariant of the constructor: every array that exists has
    [num_files_] files. *)
Definition arrays_sized (o : output_files) : Prop :=
  0 <= num_files_ o /\
  (forall a, delim_file_array_ o = Some a -> Z.of_nat (length a) = num_files_ o) /\
  (forall a, sqt_file_array_ o = Some a -> Z.of_nat (length a) = num_files_ o) /\
  (forall a, xml_file_array_ o = Some a -> Z.of_nat (length a) = num_files_ o).

End WithCollections.

Arguments XmlFooter {MATCH_COLLECTION_T Spectrum SCORER_TYPE_T}.
Arguments XmlHeader {MATCH_COLLECTION_T Spectrum SCORER_TYPE_T}.
Arguments File {MATCH_COLLECTION_T Spectrum SCORER_TYPE_T} _ _ _.
Arguments content {MATCH_COLLECTION_T Spectrum SCORER_TYPE_T} _.
Arguments filename {MATCH_COLLECTION_T Spectrum SCORER_TYPE_T} _.
Arguments OutputFilesState {MATCH_COLLECTION_T Spectrum SCORER_TYPE_T}.
Arguments matches_per_spec_ {MATCH_COLLECTION_T Spectrum SCORER_TYPE_T} _.
Arguments command_ {MATCH_COLLECTION_T Spectrum SCORER_TYPE_T} _.
Arguments num_files_ {MATCH_COLLECTION_T Spectrum SCORER_TYPE_T} _.
Arguments target_decoy_list_ {MATCH_COLLECTION_T Spectrum SCORER_TYPE_T} _.
Arguments delim_file_array_ {MATCH_COLLECTION_T Spectrum SCORER_TYPE_T} _.
Arguments sqt_file_array_ {MATCH_COLLECTION_T Spectrum SCORER_TYPE_T} _.
Arguments xml_file_array_ {MATCH_COLLECTION_T Spectrum SCORER_TYPE_T} _.
Arguments feature_file_ {MATCH_COLLECTION_T Spectrum SCORER_TYPE_T} _.
Arguments index {MATCH_COLLECTION_T Spectrum SCORER_TYPE_T} _.
Arguments diagnostics {MATCH_COLLECTION_T Spectrum SCORER_TYPE_T} _.
Arguments put {MATCH_COLLECTION_T Spectrum SCORER_TYPE_T} _ _.
Arguments put_at {MATCH_COLLECTION_T Spectrum SCORER_TYPE_T} _ _ _.
Arguments put_all {MATCH_COLLECTION_T Spectrum SCORER_TYPE_T} _ _.
Arguments writeFooters {MATCH_COLLECTION_T Spectrum SCORER_TYPE_T} _.
Arguments writeHeaders {MATCH_COLLECTION_T Spectrum SCORER_TYPE_T} _ _.
Arguments writeMatches {MATCH_COLLECTION_T Spectrum SCORER_TYPE_T} _ _ _ _ _.
Arguments footers {MATCH_COLLECTION_T Spectrum SCORER_TYPE_T} _.
Arguments xml_footers {MATCH_COLLECTION_T Spectrum SCORER_TYPE_T} _.
Arguments arrays_sized {MATCH_COLLECTION_T Spectrum SCORER_TYPE_T} _.

(** A run of the given command with [num-decoy-files] set, the other
    parameters at fixed values; collections, spectra and score types
    are numbered. *)
Definition with_decoy_files (k : Z) : Params.parameters :=
  Params.Parameters
    (fun name => if String.eqb name "fileroot" then "__NULL_STR"
                 else "crux-output")%string
    (fun _ => false)
    (fun name => if String.eqb name "num-decoy-files" then k else 5).

Definition file_stem (command : COMMAND_T) : string :=
  match command with
  | SEARCH_COMMAND => "search"
  | SEQUEST_COMMAND => "sequest"
  | PERCOLATOR_COMMAND => "percolator"
  | QRANKER_COMMAND => "qranker"
  | SPECTRAL_COUNTS_COMMAND => "spectral-counts"
  | PROCESS_SPEC_COMMAND => "processed-spectra"
  | MISC_COMMAND => "crux"
  end%string.

Definition run_of (command : COMMAND_T) (k : Z) : output_files nat nat nat :=
  OutputFiles nat nat nat file_stem command (with_decoy_files k).

(** The members that no printer changes. *)
Definition same_settings {MATCH_COLLECTION_T Spectrum SCORER_TYPE_T : Type}
    (o o' : output_files MATCH_COLLECTION_T Spectrum SCORER_TYPE_T) : Prop :=
  matches_per_spec_ o' = matches_per_spec_ o
  /\ command_ o' = command_ o
  /\ num_files_ o' = num_files_ o
  /\ target_decoy_list_ o' = target_decoy_list_ o
  /\ feature_file_ o' = feature_file_ o.


(** *** The feature file

    What [writeFeatureHeader] and [writeMatchFeatures] print to the
    feature file, as text; [None] stands for a read outside the array
    handed in.  [fmt_4f] is [%.4f] of [printf]. *)

Definition newline : ascii := "010"%char.
Definition tab : ascii := "009"%char.

(** How often a character occurs in a text. *)
Fixpoint occurrences (c : ascii) (s : string) : nat :=
  match s with
  | EmptyString => 0%nat
  | String x s' => ((if Ascii.eqb x c then 1 else 0) + occurrences c s')%nat
  end.

Definition ends_with_newline (s : string) : bool :=
  match rev (list_ascii_of_string s) with
  | c :: _ => Ascii.eqb c newline
  | [] => false
  end.

Section FeatureFile.
Context {MATCH_COLLECTION_T Spectrum SCORER_TYPE_T : Type}.
Variable fmt_4f : spec_float -> string.

(** [fprintf(feature_file_, before "%s" after, array[idx])] *)
Definition print_cell {A : Type} (fmt : A -> string) (array : list A)
    (before after : string) (printed : option string) (idx : Z)
    : option string :=
  match printed, array !! Z.to_nat idx with
  | Some s, Some x => Some (s ++ before ++ fmt x ++ after)%string
  | _, _ => None
  end.

Definition writeFeatureHeader (feature_names : option (list string))
    (num_names : Z)
    (o : output_files MATCH_COLLECTION_T Spectrum SCORER_TYPE_T)
    : option string :=
  match feature_names, feature_file_ o with
  | Some names, Some _ =>
      if num_names =? 0 then Some EmptyString
      else
        match foldl (print_cell id names (String tab EmptyString) EmptyString)
                    (Some ("scan" ++ String tab "label")%string)
                    (seqZ 0 num_names) with
        | Some s => Some (s ++ String newline EmptyString)%string
        | None => None
        end
  | _, _ => Some EmptyString
  end.

(** [first_scan] is the first scan of the spectrum of the match and
    [null_peptide] what [get_match_null_peptide] returns for it. *)
Definition writeMatchFeatures (first_scan : Z) (null_peptide : bool)
    (features : list spec_float) (num_features : Z)
    (o : output_files MATCH_COLLECTION_T Spectrum SCORER_TYPE_T)
    : option string :=
  match feature_file_ o with
  | None => Some EmptyString
  | Some _ =>
      let scan := (Carp.fmt_int first_scan ++ String tab EmptyString)%string in
      let label :=
        if negb null_peptide then ("1" ++ String tab EmptyString)%string
        else ("-1" ++ String tab EmptyString)%string in
      foldl (fun printed feature_idx =>
               if feature_idx <? num_features - 1
               then print_cell fmt_4f features EmptyString
                      (String tab EmptyString) printed feature_idx
               else print_cell fmt_4f features EmptyString
                      (String newline EmptyString) printed feature_idx)
            (Some (scan ++ label)%string) (seqZ 0 num_features)
  end.
End FeatureFile.


(** *** A run of calls of [writeMatches]

    One call of [writeMatches] with a target collection, and calls in a
    row, a fatal error ending the run. *)

Section Calls.
Context {MATCH_COLLECTION_T Spectrum SCORER_TYPE_T : Type}.

Record call := Call {
  call_target : MATCH_COLLECTION_T;
  call_decoys : list (option MATCH_COLLECTION_T);
  call_rank : SCORER_TYPE_T;
  call_spectrum : option Spectrum
}.

(** The collection of a call that belongs in file [file_idx]. *)
Definition collection_for (file_idx : nat) (c : call)
    : option MATCH_COLLECTION_T :=
  default None ((Some (call_target c) :: call_decoys c) !! file_idx).

Fixpoint writeMatches_calls (calls : list call)
    (o : output_files MATCH_COLLECTION_T Spectrum SCORER_TYPE_T)
    : Carp.outcome (output_files MATCH_COLLECTION_T Spectrum SCORER_TYPE_T) :=
  match calls with
  | [] => Carp.Done o
  | c :: rest =>
      Carp.bind
        (writeMatches (Some (call_target c)) (call_decoys c) (call_rank c)
           (call_spectrum c) o)
        (writeMatches_calls rest)
  end.
End Calls.


End OutputFiles.

(** ** src/c/match.h *)

Module Match.

(** The score types that have a comparator declared in [match.h]. *)
Inductive SCORER_TYPE_T :=
| SP | XCORR | LOGP_BONF_WEIBULL_XCORR
| PERCOLATOR_SCORE | PERCOLATOR_QVALUE
| QRANKER_SCORE | QRANKER_QVALUE
| DECOY_XCORR_QVALUE | DECOY_PVALUE_QVALUE.

(** A score that is a number: neither an infinity nor a NaN. *)
Definition is_number (x : spec_float) : bool :=
  match x with
  | S754_zero _ | S754_finite _ _ _ => true
  | S754_infinity _ | S754_nan => false
  end.

Section Comparators.
(** [match.c], which holds the bodies of the comparators, is not among
    the sources: the comparators are taken from their declarations in
    [match.h], in the words that document them there.  [MATCH_T] is
    opaque in [match.h]; [get_match_score] is declared there, and
    [first_scan] is the first scan of the spectrum [get_match_spectrum]
    returns.  [prec] and [emax] are the format of [FLOAT_T].  What
    [int] a difference of two scores becomes is not documented:
    [int_of_difference] is a parameter. *)
Variables prec emax : Z.
Variable MATCH_T : Type.
Variable get_match_score : MATCH_T -> SCORER_TYPE_T -> spec_float.
Variable first_scan : MATCH_T -> Z.
Variable int_of_difference : spec_float -> Z.

(** "compare two matches, used for qsort; returns the difference between
    xcorr score in match_a and match_b", and the same for the other
    score types. *)
Definition compare_match (t : SCORER_TYPE_T) (match_a match_b : MATCH_T) : Z :=
  int_of_difference
    (SFsub prec emax (get_match_score match_a t) (get_match_score match_b t)).

Definition compare_match_sp := compare_match SP.
Definition compare_match_xcorr := compare_match XCORR.
Definition compare_match_p_value := compare_match LOGP_BONF_WEIBULL_XCORR.
Definition compare_match_qranker_qvalue := compare_match QRANKER_QVALUE.
Definition compare_match_percolator_score := compare_match PERCOLATOR_SCORE.
Definition compare_match_qranker_score := compare_match QRANKER_SCORE.

(** "Compare two matches by spectrum scan number and xcorr, used for
    qsort; returns -1 if match a spectrum number is less than that of
    match b or if scan number is same, if score of match a is less than
    match b.  1 if scan number and score are equal, else 0", and the
    same for the other score types. *)
Definition compare_match_spectrum (t : SCORER_TYPE_T)
    (match_a match_b : MATCH_T) : Z :=
  if (first_scan match_a <? first_scan match_b)
     || ((first_scan match_a =? first_scan match_b)
         && SFltb (get_match_score match_a t) (get_match_score match_b t))
  then -1
  else if (first_scan match_a =? first_scan match_b)
          && SFeqb (get_match_score match_a t) (get_match_score match_b t)
  then 1
  else 0.

Definition compare_match_spectrum_sp := compare_match_spectrum SP.
Definition compare_match_spectrum_xcorr := compare_match_spectrum XCORR.
Definition compare_match_spectrum_percolator_qvalue :=
  compare_match_spectrum PERCOLATOR_QVALUE.
Definition compare_match_spectrum_qranker_qvalue :=
  compare_match_spectrum QRANKER_QVALUE.
Definition compare_match_spectrum_percolator_score :=
  compare_match_spectrum PERCOLATOR_SCORE.
Definition compare_match_spectrum_qranker_score :=
  compare_match_spectrum QRANKER_SCORE.

(** [match_a] may stand before [match_b] in an array that [qsort_match]
    has sorted with the comparator of [t]. *)
Definition before (t : SCORER_TYPE_T) (match_a match_b : MATCH_T) : Prop :=
  compare_match t match_a match_b <= 0.

(** [out] is what sorting the array [l] with the comparator of [t] may
    leave: the same matches, each pair of neighbours in order. *)
Definition sorted_from (t : SCORER_TYPE_T) (l out : list MATCH_T) : Prop :=
  out ≡ₚ l /\ Sorted (before t) out.
End Comparators.

(** A conversion to run the comparators with: the sign of the
    difference, which is what [qsort] reads of the result. *)
Definition sign_of_difference (difference : spec_float) : Z :=
  if SFltb difference CFloat.zero then -1
  else if SFltb CFloat.zero difference then 1
  else 0.

(** Matches to run the comparators with: the scan number of the
    spectrum, a whole number as the score under every score type, and
    the peptide sequence. *)
Record example_match := ExampleMatch {
  example_scan : Z;
  example_points : Z;
  example_sequence : string
}.

Definition example_score (m : example_match) (t : SCORER_TYPE_T) : spec_float :=
  CFloat.float_of_Z (example_points m).

End Match.

(** ** src/c/mpsm/RetentionPredictor.cpp *)

Module RetentionPredictor.

(** *** [calcMaxDiff] *)

(** [fabs(current_diff) > fabs(max_diff)], and the assignment it
    guards. *)
Definition larger_magnitude (max_diff current_diff : spec_float) : spec_float :=
  if SFltb (SFabs max_diff) (SFabs current_diff) then current_diff else max_diff.

Section CalcMaxDiff.
(** The format of [FLOAT_T]: binary32, and binary64 in a build with
    doubles.  [Match] is not among the sources and [predictRTime] is
    virtual: both are parameters. *)
Variables prec emax : Z.
Variable Match : Type.
Variable predictRTime : Match -> spec_float.

(** [rtimes[idx]] *)
Definition rtime (rtimes : list spec_float) (idx : Z) : spec_float :=
  default S754_nan (rtimes !! Z.to_nat idx).

(** [double current_diff = rtimes[idx2] - rtimes[idx1]]: the difference
    is taken in [FLOAT_T] and widened. *)
Definition diff (rtimes : list spec_float) (idx1 idx2 : Z) : spec_float :=
  CFloat.to_double (SFsub prec emax (rtime rtimes idx2) (rtime rtimes idx1)).

Definition inner_loop (rtimes : list spec_float) (max_diff : spec_float)
    (idx1 : Z) : spec_float :=
  let size := Z.of_nat (length rtimes) in
  foldl (fun max_diff idx2 => larger_magnitude max_diff (diff rtimes idx1 idx2))
        max_diff (seqZ (idx1 + 1) (size - (idx1 + 1))).

(** An [MPSM_Match] is the list of its matches. *)
Definition calcMaxDiff (mpsm_match : list Match) : spec_float :=
  let numMatches := Z.of_nat (length mpsm_match) in
  if numMatches <=? 1 then CFloat.zero
  else
    let rtimes := predictRTime <$> mpsm_match in
    foldl (inner_loop rtimes) CFloat.zero
          (seqZ 0 (Z.of_nat (length rtimes) - 1)).

(** The pairs of indices in the order the two loops visit them. *)
Definition pairs (size : Z) : list (Z * Z) :=
  idx1 ← seqZ 0 (size - 1);
  (fun idx2 => (idx1, idx2)) <$> seqZ (idx1 + 1) (size - (idx1 + 1)).
End CalcMaxDiff.

(** *** The predictor of the program *)

(** [objects.h] is not among the sources: the types the sources name,
    and one more for every other value. *)
Inductive RTP_TYPE_T :=
| RTP_KROKHIN | RTP_PALMBALD | RTP_AKLAMMER | RTP_INVALID | RTP_OTHER.

(** The classes of predictors the sources create. *)
Inductive predictor_class :=
| KrokhinRetentionPredictor | PalmbaldRetentionPredictor
| AKlammerStaticRetentionPredictor | NullRetentionPredictor.

(** What the static member [predictor_] holds: [NULL], the address of
    an object of the given class, or the address of an object that has
    been deleted (the pointer is not cleared by [delete]). *)
Inductive pointer :=
| NULL
| Live (c : predictor_class)
| Deleted (c : predictor_class).

(** [if (predictor_)] *)
Definition is_null (p : pointer) : bool :=
  match p with NULL => true | _ => false end.

(** A step of the program either goes on in a state or deletes an
    object a second time, after which the behaviour is undefined. *)
Inductive step (A : Type) :=
| Goes (a : A)
| DoubleDelete.
Arguments Goes {A} a.
Arguments DoubleDelete {A}.

Definition state : Type := pointer * Carp.log.

Definition createRetentionPredictor (rtp_type : RTP_TYPE_T) (st : state)
    : step state :=
  let '(predictor_, lg) := st in
  match predictor_ with
  | Live c => Goes (Deleted c, lg)
  | Deleted _ => DoubleDelete
  | NULL =>
      match rtp_type with
      | RTP_KROKHIN =>
          Goes (Live KrokhinRetentionPredictor,
                Carp.carp Carp.CARP_DEBUG "creating krokhin retention predictor" lg)
      | RTP_PALMBALD =>
          Goes (Live PalmbaldRetentionPredictor,
                Carp.carp Carp.CARP_DEBUG "creating palmbald retention predictor" lg)
      | RTP_AKLAMMER =>
          Goes (Live AKlammerStaticRetentionPredictor,
                Carp.carp Carp.CARP_DEBUG "creating aklammer retention predictor" lg)
      | RTP_INVALID | RTP_OTHER =>
          Goes (Live NullRetentionPredictor,
                Carp.carp Carp.CARP_WARNING
                  "Invalid retention time predictor: returning null" lg)
      end
  end.

(** [getStaticRetentionPredictor]: the pointer returned, and the state
    after the call. *)
Definition getStaticRetentionPredictor (rtp_type : RTP_TYPE_T) (st : state)
    : step (pointer * state) :=
  let '(predictor_, lg) := st in
  if is_null predictor_ then
    match createRetentionPredictor rtp_type
            (predictor_, Carp.carp Carp.CARP_WARNING
                           "Retention predictor not created!" lg) with
    | Goes st' => Goes (fst st', st')
    | DoubleDelete => DoubleDelete
    end
  else Goes (predictor_, st).

(** [k] calls of [createRetentionPredictor] in a row. *)
Fixpoint create_times (rtp_type : RTP_TYPE_T) (k : nat) (st : state)
    : step state :=
  match k with
  | O => Goes st
  | S k' =>
      match createRetentionPredictor rtp_type st with
      | Goes st' => create_times rtp_type k' st'
      | DoubleDelete => DoubleDelete
      end
  end.

(** The class the parameter [rtime-predictor] selects. *)
Definition class_of (rtp_type : RTP_TYPE_T) : predictor_class :=
  match rtp_type with
  | RTP_KROKHIN => KrokhinRetentionPredictor
  | RTP_PALMBALD => PalmbaldRetentionPredictor
  | RTP_AKLAMMER => AKlammerStaticRetentionPredictor
  | RTP_INVALID | RTP_OTHER => NullRetentionPredictor
  end.

End RetentionPredictor.

(* ===================================================================== *)
(** * Part II.  Facts                                                     *)
(* ===================================================================== *)

(** ** The cross-correlation kernel *)

Module CruxCudaTestFacts.
Import CruxCudaTest.

Section Kernel.
Context {V : Type}.
Variable garbage : V.
Variable sub_scaled : V -> V -> V.

Local Abbreviation cell := (cell garbage).
Local Abbreviation inner_body := (inner_body garbage sub_scaled).
Local Abbreviation outer_body := (outer_body garbage sub_scaled).
Local Abbreviation value := (value garbage sub_scaled).

Lemma cell_store_eq (a : list V) (i : Z) (v : V) :
  0 <= i < Z.of_nat (length a) -> cell (store a i v) i = v.
Proof.
  intros Hi. unfold CruxCudaTest.cell, store.
  apply nth_lookup_Some. apply list_lookup_insert_eq. lia.
Qed.

Lemma cell_store_ne (a : list V) (i j : Z) (v : V) :
  0 <= i -> 0 <= j -> i <> j -> cell (store a i v) j = cell a j.
Proof.
  intros Hi Hj Hne. unfold CruxCudaTest.cell, store.
  rewrite !nth_lookup. rewrite list_lookup_insert_ne; [done | lia].
Qed.

Lemma store_cell_same (a : list V) (i : Z) :
  0 <= i < Z.of_nat (length a) -> store a i (cell a i) = a.
Proof.
  intros Hi. unfold CruxCudaTest.cell, store.
  apply list_insert_id.
  destruct (lookup_lt_is_Some_2 a (Z.to_nat i)) as [x Hx]; [lia | ].
  by rewrite (nth_lookup_Some _ _ garbage _ Hx).
Qed.

Lemma store_store (a : list V) (i : Z) (v w : V) :
  store (store a i v) i w = store a i w.
Proof. unfold store. apply list_insert_insert_eq. Qed.

Lemma length_store (a : list V) (i : Z) (v : V) :
  length (store a i v) = length a.
Proof. unfold store. apply length_insert. Qed.

(** The inner loop changes [ans[idx]] only, by the bins that pass the
    guard, in the order visited. *)
Lemma inner_loop_spec (inp : list V) (n idx : Z) (l : list Z) :
  forall ans,
    0 <= idx < Z.of_nat (length ans) ->
    foldl (inner_body inp n idx) ans l
    = store ans idx
        (foldl sub_scaled (cell ans idx)
           (cell inp <$> filter (fun j => 0 < j < n) l)).
Proof.
  induction l as [ | j l IH]; intros ans Hidx.
  - cbn. symmetry. by apply store_cell_same.
  - cbn [foldl]. unfold CruxCudaTest.inner_body at 2.
    destruct ((j <=? 0) || (j >=? n)) eqn:Hguard.
    + rewrite filter_cons_False by lia. by apply IH.
    + rewrite filter_cons_True by lia. cbn [fmap list_fmap foldl].
      rewrite IH by (rewrite length_store; lia).
      rewrite store_store. by rewrite cell_store_eq.
Qed.

Lemma outer_body_spec (inp : list V) (n max_offset : Z) (ans : list V) (idx : Z) :
  0 <= idx < Z.of_nat (length ans) ->
  outer_body inp n max_offset ans idx
  = store ans idx (value inp n max_offset idx).
Proof.
  intros Hidx. unfold CruxCudaTest.outer_body.
  rewrite inner_loop_spec by (rewrite length_store; lia).
  rewrite store_store. by rewrite cell_store_eq.
Qed.

Lemma outer_loop_length (inp : list V) (n max_offset : Z) (l : list Z) :
  forall ans,
    (forall j, j ∈ l -> 0 <= j < Z.of_nat (length ans)) ->
    length (foldl (outer_body inp n max_offset) ans l) = length ans.
Proof.
  induction l as [ | j l IH]; intros ans Hl; [done | ].
  cbn [foldl]. rewrite outer_body_spec by (apply Hl; left).
  rewrite IH; [apply length_store | ].
  intros k Hk. rewrite length_store. apply Hl. by right.
Qed.

Lemma outer_loop_other (inp : list V) (n max_offset : Z) (l : list Z) (i : Z) :
  forall ans,
    (forall j, j ∈ l -> 0 <= j < Z.of_nat (length ans)) ->
    0 <= i -> i ∉ l ->
    cell (foldl (outer_body inp n max_offset) ans l) i = cell ans i.
Proof.
  induction l as [ | j l IH]; intros ans Hl Hi Hnot; [done | ].
  cbn [foldl]. rewrite outer_body_spec by (apply Hl; left).
  rewrite IH.
  - apply cell_store_ne; [ | done | ].
    + apply Hl. left.
    + intros ->. apply Hnot. left.
  - intros k Hk. rewrite length_store. apply Hl. by right.
  - done.
  - intros Hin. apply Hnot. by right.
Qed.

Lemma outer_loop_visited (inp : list V) (n max_offset : Z) (l : list Z) (i : Z) :
  forall ans,
    (forall j, j ∈ l -> 0 <= j < Z.of_nat (length ans)) ->
    NoDup l -> i ∈ l ->
    cell (foldl (outer_body inp n max_offset) ans l) i
    = value inp n max_offset i.
Proof.
  induction l as [ | j l IH]; intros ans Hl Hnd Hin.
  - by apply elem_of_nil in Hin.
  - cbn [foldl]. rewrite outer_body_spec by (apply Hl; left).
    apply NoDup_cons in Hnd as [Hj Hnd].
    assert (Hl' : forall k, k ∈ l ->
              0 <= k < Z.of_nat (length (store ans j (value inp n max_offset j)))).
    { intros k Hk. rewrite length_store. apply Hl. by right. }
    apply elem_of_cons in Hin as [-> | Hin].
    + rewrite outer_loop_other; [ | done | apply Hl; left | done].
      apply cell_store_eq. apply Hl. left.
    + by apply IH.
Qed.

(** The kernel, cell by cell. *)
Lemma kernel_cell (inp ans : list V) (n max_offset idx : Z) :
  Z.of_nat (length ans) = n -> 0 <= idx < n ->
  cell (do_cross_correlation_obs garbage sub_scaled inp ans n max_offset) idx
  = value inp n max_offset idx.
Proof.
  intros Hlen Hidx. unfold do_cross_correlation_obs.
  apply outer_loop_visited.
  - intros j Hj. apply elem_of_seqZ in Hj. lia.
  - apply NoDup_seqZ.
  - apply elem_of_seqZ. lia.
Qed.

Lemma kernel_length (inp ans : list V) (n max_offset : Z) :
  Z.of_nat (length ans) = n ->
  length (do_cross_correlation_obs garbage sub_scaled inp ans n max_offset)
  = length ans.
Proof.
  intros Hlen. unfold do_cross_correlation_obs. apply outer_loop_length.
  intros j Hj. apply elem_of_seqZ in Hj. lia.
Qed.
End Kernel.

Lemma elem_of_window (n max_offset idx j : Z) :
  j ∈ window n max_offset idx
  <-> idx - max_offset <= j <= idx + max_offset /\ 0 < j < n.
Proof.
  unfold window. rewrite list_elem_of_filter, elem_of_seqZ. lia.
Qed.

(** Without rounding, the successive subtractions are one subtraction
    of the sum of the window over the fixed divisor. *)
Lemma foldl_sub_scaled_Q (l : list Q) :
  forall x : Q,
    (foldl sub_scaled_Q x l
     == x - Qsum l / inject_Z (2 * MAX_XCORR_OFFSET))%Q.
Proof.
  induction l as [ | a l IH]; intros x; cbn [foldl Qsum foldr].
  - unfold MAX_XCORR_OFFSET. field. discriminate.
  - rewrite IH. unfold sub_scaled_Q, MAX_XCORR_OFFSET. cbn [Qsum].
    change (inject_Z (2 * 75)) with (150 # 1). change (inject_Z 75) with (75 # 1).
    change (foldr Qplus 0%Q l) with (Qsum l). generalize (Qsum l). intros q.
    field.
Qed.

(** C1, as the kernel has it.  For every intensity array, every bin
    [idx] of it and every [max_offset], [do_cross_correlation_obs] leaves
    at [idx] the intensity at [idx] minus the sum of the intensities of
    the window [idx - max_offset .. idx + max_offset] divided by the
    fixed constant [2 * MAX_XCORR_OFFSET] = 150, where the window holds
    every bin [j] with [0 < j < n], bin [idx] itself among them; in
    [float] the quotients are subtracted one by one, each difference
    rounded.  For peaks of 100 at bins 10, 50 and 90 and
    [max_offset = 2] the value at bin 10 is 100 - 100/150 = 298/3, in
    [float] 13019819 * 2^-17. *)
Theorem cross_correlation_subtracts_window_sum
    (inp ans : list Q) (inp_f ans_f : list spec_float) (n max_offset idx : Z) :
  Z.of_nat (length inp) = n -> Z.of_nat (length ans) = n ->
  Z.of_nat (length inp_f) = n -> Z.of_nat (length ans_f) = n ->
  0 <= idx < n ->
  (cell 0 (do_cross_correlation_obs_Q inp ans n max_offset) idx
   == cell 0 inp idx
      - Qsum (cell 0 inp <$> window n max_offset idx)
        / inject_Z (2 * MAX_XCORR_OFFSET))%Q
  /\ cell S754_nan (do_cross_correlation_obs_float inp_f ans_f n max_offset) idx
     = foldl sub_scaled_float (cell S754_nan inp_f idx)
         (cell S754_nan inp_f <$> window n max_offset idx)
  /\ (forall j, j ∈ window n max_offset idx
        <-> idx - max_offset <= j <= idx + max_offset /\ 0 < j < n)
  /\ (cell 0 (do_cross_correlation_obs_Q three_peaks_Q
                (replicate 100 0%Q) 100 2) 10 == 298 # 3)%Q
  /\ cell S754_nan (do_cross_correlation_obs_float three_peaks_float
                      (replicate 100 S754_nan) 100 2) 10
     = S754_finite false 13019819 (-17).
Proof.
  intros _ Hlen _ Hlen_f Hidx.
  split; [ | split; [ | split; [ | split]]].
  - unfold do_cross_correlation_obs_Q. rewrite kernel_cell by done.
    unfold value. apply foldl_sub_scaled_Q.
  - unfold do_cross_correlation_obs_float. by rewrite kernel_cell.
  - intros j. apply elem_of_window.
  - vm_compute. reflexivity.
  - vm_compute. reflexivity.
Qed.

Lemma cross_correlation_subtracts_window_sum_witness :
  Z.of_nat (length three_peaks_Q) = 100
  /\ Z.of_nat (length (replicate 100 0%Q)) = 100
  /\ Z.of_nat (length three_peaks_float) = 100
  /\ Z.of_nat (length (replicate 100 S754_nan)) = 100
  /\ 0 <= 10 < 100
  /\ (cell 0 (do_cross_correlation_obs_Q three_peaks_Q
                (replicate 100 0%Q) 100 2) 10
      == cell 0 three_peaks_Q 10
         - Qsum (cell 0 three_peaks_Q <$> window 100 2 10)
           / inject_Z (2 * MAX_XCORR_OFFSET))%Q.
Proof.
  split; [reflexivity | ]. split; [reflexivity | ].
  split; [reflexivity | ]. split; [reflexivity | ]. split; [lia | ].
  apply (cross_correlation_subtracts_window_sum
           three_peaks_Q (replicate 100 0%Q)
           three_peaks_float (replicate 100 S754_nan) 100 2 10);
    [reflexivity | reflexivity | reflexivity | reflexivity | lia].
Defined.

(** C1 as stated fails on the kernel.  For peaks of 100 at bins 10, 50
    and 90 and [max_offset = 2] the value at bin 10 is not 100, in
    [float] as without rounding, while the average of the window with
    bin 10 left out is 0 and the worded transform yields 100. *)
Lemma cross_correlation_not_window_average :
  cell S754_nan (do_cross_correlation_obs_float three_peaks_float
                   (replicate 100 S754_nan) 100 2) 10
    <> CFloat.float_of_Z 100
  /\ SFeqb (cell S754_nan (do_cross_correlation_obs_float three_peaks_float
                             (replicate 100 S754_nan) 100 2) 10)
           (CFloat.float_of_Z 100) = false
  /\ ~ (cell 0 (do_cross_correlation_obs_Q three_peaks_Q
                  (replicate 100 0%Q) 100 2) 10
        == spec_window_average three_peaks_Q 100 2 10)%Q
  /\ (spec_window_average three_peaks_Q 100 2 10 == 100)%Q.
Proof.
  split; [ | split; [ | split]].
  - vm_compute. discriminate.
  - vm_compute. reflexivity.
  - vm_compute. discriminate.
  - vm_compute. reflexivity.
Qed.

(** *** The order of [float] values *)

Lemma SFltb_irrefl (x : spec_float) : SFltb x x = false.
Proof.
  destruct x as [s | s | | s m e]; [by destruct s | by destruct s | done | ].
  unfold SFltb, SFcompare.
  destruct s; by rewrite Z.compare_refl, Pos.compare_cont_refl.
Qed.

Lemma finite_compare_lt (e1 e2 : Z) (m1 m2 : positive) :
  match e1 ?= e2 with
  | Eq => Pos.compare_cont Eq m1 m2
  | Lt => Lt
  | Gt => Gt
  end = Lt
  <-> e1 < e2 \/ (e1 = e2 /\ (m1 < m2)%positive).
Proof.
  change (Pos.compare_cont Eq m1 m2) with (m1 ?= m2)%positive.
  destruct (Z.compare_spec e1 e2); [ | split; [intros _ | done]; lia | ].
  - rewrite Pos.compare_lt_iff. lia.
  - split; [done | lia].
Qed.

Lemma finite_compare_gt (e1 e2 : Z) (m1 m2 : positive) :
  match e1 ?= e2 with
  | Eq => CompOpp (Pos.compare_cont Eq m1 m2)
  | Lt => Gt
  | Gt => Lt
  end = Lt
  <-> e2 < e1 \/ (e1 = e2 /\ (m2 < m1)%positive).
Proof.
  change (Pos.compare_cont Eq m1 m2) with (m1 ?= m2)%positive.
  destruct (Z.compare_spec e1 e2); [ | split; [done | lia] | split; [intros _ | done]; lia].
  rewrite <- Pos.compare_antisym, Pos.compare_lt_iff. lia.
Qed.

Lemma SFltb_finite (s1 s2 : bool) (m1 m2 : positive) (e1 e2 : Z) :
  SFltb (S754_finite s1 m1 e1) (S754_finite s2 m2 e2) = true
  <-> match s1, s2 with
      | true, false => True
      | false, true => False
      | false, false => e1 < e2 \/ (e1 = e2 /\ (m1 < m2)%positive)
      | true, true => e2 < e1 \/ (e1 = e2 /\ (m2 < m1)%positive)
      end.
Proof.
  unfold SFltb, SFcompare. destruct s1, s2; [ | done | done | ].
  - rewrite <- finite_compare_gt.
    by destruct (e1 ?= e2); [destruct (CompOpp _) | | ].
  - rewrite <- finite_compare_lt.
    by destruct (e1 ?= e2); [destruct (Pos.compare_cont _ _ _) | | ].
Qed.

Lemma SFltb_trans (x y z : spec_float) :
  SFltb x y = true -> SFltb y z = true -> SFltb x z = true.
Proof.
  destruct x as [sx | sx | | sx mx ex], y as [sy | sy | | sy my ey],
    z as [sz | sz | | sz mz ez];
    try (destruct sx); try (destruct sy); try (destruct sz);
    try done; rewrite !SFltb_finite; lia.
Qed.

(** *** [h_max] *)

Section Maximum.
Context {V : Type}.
Variable garbage : V.
Variable less : V -> V -> bool.
Hypothesis less_irrefl : forall x, less x x = false.
Hypothesis less_trans :
  forall x y z, less x y = true -> less y z = true -> less x z = true.

Local Abbreviation at_ := (cell garbage).

Lemma h_max_index_prefix (a : list V) (m : nat) :
  let best := foldl (h_max_body garbage less a) (-1) (seqZ 0 (Z.of_nat m)) in
  (m = 0%nat -> best = -1)
  /\ (0 < Z.of_nat m ->
      0 <= best < Z.of_nat m
      /\ forall i, 0 <= i < Z.of_nat m -> less (at_ a best) (at_ a i) = false).
Proof.
  induction m as [ | m IH]; [split; [done | cbn; lia] | ].
  cbv zeta in *. split; [done | intros _].
  replace (Z.of_nat (S m)) with (Z.of_nat m + 1) by lia.
  rewrite seqZ_app by lia. rewrite foldl_app. cbn [seqZ foldl].
  replace (seqZ (0 + Z.of_nat m) 1) with [Z.of_nat m] by (by rewrite Z.add_0_l).
  cbn [foldl].
  set (best := foldl (h_max_body garbage less a) (-1) (seqZ 0 (Z.of_nat m))) in *.
  destruct IH as [IH0 IHpos]. unfold h_max_body.
  destruct m as [ | m'].
  - rewrite (IH0 eq_refl). cbn. change (Z.of_nat 0) with 0. split; [lia | ].
    intros i Hi. replace i with 0 by lia. apply less_irrefl.
  - destruct (IHpos ltac:(lia)) as [Hbest Hmax].
    destruct (best =? -1) eqn:Hminus; [lia | ]. cbn [orb].
    destruct (less (at_ a best) (at_ a (Z.of_nat (S m')))) eqn:Hless; cbv iota.
    + split; [lia | ]. intros i Hi.
      destruct (decide (i = Z.of_nat (S m'))) as [-> | Hne]; [apply less_irrefl | ].
      destruct (less (at_ a (Z.of_nat (S m'))) (at_ a i)) eqn:Hcontra; [ | done].
      rewrite <- (Hmax i ltac:(lia)). symmetry.
      by apply (less_trans _ _ _ Hless Hcontra).
    + split; [lia | ]. intros i Hi.
      destruct (decide (i = Z.of_nat (S m'))) as [-> | Hne]; [done | ].
      apply Hmax. lia.
Qed.

Lemma h_max_spec (a : list V) (n : Z) :
  0 < n <= Z.of_nat (length a) ->
  exists k,
    0 <= k < n
    /\ h_max_index garbage less a n = k
    /\ h_max garbage less a n = Some (at_ a k)
    /\ forall i, 0 <= i < n -> less (at_ a k) (at_ a i) = false.
Proof.
  intros Hn. pose proof (h_max_index_prefix a (Z.to_nat n)) as H.
  cbv zeta in H. replace (Z.of_nat (Z.to_nat n)) with n in H by lia.
  destruct H as [_ H]. destruct (H ltac:(lia)) as [Hk Hmax].
  eexists. split; [exact Hk | ]. split; [reflexivity | ]. split; [ | exact Hmax].
  unfold h_max, element. fold (h_max_index garbage less a n).
  destruct (0 <=? h_max_index garbage less a n) eqn:H0; [ | unfold h_max_index in *; lia].
  unfold cell.
  destruct (lookup_lt_is_Some_2 a (Z.to_nat (h_max_index garbage less a n)))
    as [x Hx]; [unfold h_max_index in *; lia | ].
  by rewrite Hx, (nth_lookup_Some _ _ garbage _ Hx).
Qed.

Lemma h_max_empty (a : list V) (n : Z) :
  n <= 0 -> h_max garbage less a n = None.
Proof.
  intros Hn. unfold h_max, h_max_index.
  replace (seqZ 0 n) with (@nil Z); [done | ].
  unfold seqZ. by replace (Z.to_nat n) with 0%nat by lia.
Qed.
End Maximum.

(** X1.  On an array of at least [n >= 1] floats [h_max] returns one of
    the first [n] elements, and none of the first [n] elements compares
    greater than it; with [n <= 0] the loop does not run and the value
    is read at index -1, outside the array. *)
Theorem h_max_float_is_maximal (a : list spec_float) (n : Z) :
  n <= Z.of_nat (length a) ->
  (0 < n ->
   exists k,
     0 <= k < n
     /\ h_max_float a n = Some (cell S754_nan a k)
     /\ forall i, 0 <= i < n ->
          SFltb (cell S754_nan a k) (cell S754_nan a i) = false)
  /\ (n <= 0 -> h_max_float a n = None).
Proof.
  intros Hn. split.
  - intros Hpos.
    destruct (h_max_spec S754_nan SFltb SFltb_irrefl SFltb_trans a n ltac:(lia))
      as (k & Hk & _ & Hval & Hmax).
    exists k. by split; [ | split].
  - apply h_max_empty.
Qed.

Lemma h_max_float_is_maximal_witness :
  let a := [CFloat.float_of_Z 3; CFloat.float_of_Z 7; S754_nan;
            CFloat.float_of_Z 7; CFloat.float_of_Z (-2)] in
  5 <= Z.of_nat (length a)
  /\ h_max_float a 5 = Some (CFloat.float_of_Z 7)
  /\ exists k, 0 <= k < 5 /\ h_max_float a 5 = Some (cell S754_nan a k).
Proof.
  intros a. split; [cbn; lia | ]. split; [reflexivity | ].
  destruct (h_max_float_is_maximal a 5 ltac:(cbn; lia)) as [H _].
  destruct (H ltac:(lia)) as (k & Hk & Hval & _).
  exists k. by split.
Defined.

(** *** The windows of the kernel *)

Lemma filter_none {A} (P : A -> Prop) `{forall x, Decision (P x)} (l : list A) :
  (forall x, x ∈ l -> ~ P x) -> filter P l = [].
Proof.
  induction l as [ | x l IH]; intros Hl; [done | ].
  rewrite filter_cons_False by (apply Hl; left).
  apply IH. intros y Hy. apply Hl. by right.
Qed.

Lemma filter_all {A} (P : A -> Prop) `{forall x, Decision (P x)} (l : list A) :
  (forall x, x ∈ l -> P x) -> filter P l = l.
Proof.
  induction l as [ | x l IH]; intros Hl; [done | ].
  rewrite filter_cons_True by (apply Hl; left).
  f_equal. apply IH. intros y Hy. apply Hl. by right.
Qed.

(** A window that reaches past both ends of the array is the array
    without bin 0. *)
Lemma window_wide (n max_offset idx : Z) :
  n - 1 <= max_offset -> 0 <= idx < n ->
  window n max_offset idx = seqZ 1 (n - 1).
Proof.
  intros Hwide Hidx. unfold window.
  replace (2 * max_offset + 1)
    with ((max_offset - idx + 1) + ((n - 1) + (idx + max_offset - n + 1)))
    by lia.
  rewrite (seqZ_app _ (max_offset - idx + 1)) by lia.
  rewrite (seqZ_app _ (n - 1) (idx + max_offset - n + 1)) by lia.
  rewrite !filter_app.
  rewrite filter_none, filter_all, filter_none.
  - rewrite app_nil_r. cbn [app]. f_equal. lia.
  - intros j Hj. apply elem_of_seqZ in Hj. lia.
  - intros j Hj. apply elem_of_seqZ in Hj. lia.
  - intros j Hj. apply elem_of_seqZ in Hj. lia.
Qed.

Lemma value_agree {V : Type} (garbage : V) (sub_scaled : V -> V -> V)
    (inp inp' : list V) (n max_offset idx : Z) :
  (forall j, 0 < j < n -> cell garbage inp j = cell garbage inp' j) ->
  0 < idx < n ->
  value garbage sub_scaled inp n max_offset idx
  = value garbage sub_scaled inp' n max_offset idx.
Proof.
  intros Hagree Hidx. unfold value. rewrite (Hagree idx Hidx). f_equal.
  apply list_fmap_ext. intros i j Hj. apply Hagree.
  apply list_elem_of_lookup_2 in Hj. apply elem_of_window in Hj. lia.
Qed.

(** X2.  Bin 0 is in no window: two arrays of [n] intensities that
    differ at bin 0 only are transformed to the same values at every bin
    but bin 0, whatever the arithmetic of the cells and whatever
    [max_offset]. *)
Theorem kernel_ignores_bin_zero {V : Type} (garbage : V)
    (sub_scaled : V -> V -> V) (inp inp' ans ans' : list V)
    (n max_offset idx : Z) :
  Z.of_nat (length inp) = n -> Z.of_nat (length inp') = n ->
  Z.of_nat (length ans) = n -> Z.of_nat (length ans') = n ->
  (forall j, 0 < j < n -> cell garbage inp j = cell garbage inp' j) ->
  0 < idx < n ->
  cell garbage (do_cross_correlation_obs garbage sub_scaled inp ans n max_offset) idx
  = cell garbage (do_cross_correlation_obs garbage sub_scaled inp' ans' n max_offset) idx.
Proof.
  intros _ _ Hans Hans' Hagree Hidx.
  rewrite !kernel_cell by (done || lia). by apply value_agree.
Qed.

Lemma kernel_ignores_bin_zero_witness :
  let inp := CFloat.float_of_Z <$> [5; 1; 2; 3] in
  let inp' := CFloat.float_of_Z <$> [900; 1; 2; 3] in
  let ans := replicate 4 S754_nan in
  (forall j, 0 < j < 4 -> cell S754_nan inp j = cell S754_nan inp' j)
  /\ cell S754_nan (do_cross_correlation_obs_float inp ans 4 1) 1
     = cell S754_nan (do_cross_correlation_obs_float inp' ans 4 1) 1.
Proof.
  intros inp inp' ans.
  assert (Hagree : forall j, 0 < j < 4 ->
            cell S754_nan inp j = cell S754_nan inp' j).
  { intros j Hj.
    assert (Hcases : j = 1 \/ j = 2 \/ j = 3) by lia.
    by destruct Hcases as [-> | [-> | ->]]. }
  split; [exact Hagree | ].
  apply (kernel_ignores_bin_zero S754_nan sub_scaled_float inp inp' ans ans 4 1 1);
    [reflexivity | reflexivity | reflexivity | reflexivity | exact Hagree | lia].
Defined.

(** X3.  When [max_offset >= n - 1], as in the program's [main] (15 bins,
    offset 75), the window of every bin is all of the bins 1 to [n - 1]:
    without rounding the transform takes the same amount, the sum of
    those bins over 150, from every bin, and in [float] it subtracts
    the quotients of the bins 1 to [n - 1] in this order from every
    bin. *)
Theorem kernel_wide_window_uniform
    (inp ans : list Q) (inp_f ans_f : list spec_float) (n max_offset idx : Z) :
  Z.of_nat (length inp) = n -> Z.of_nat (length ans) = n ->
  Z.of_nat (length inp_f) = n -> Z.of_nat (length ans_f) = n ->
  n - 1 <= max_offset -> 0 <= idx < n ->
  (cell 0 (do_cross_correlation_obs_Q inp ans n max_offset) idx
   == cell 0 inp idx
      - Qsum (cell 0 inp <$> seqZ 1 (n - 1)) / inject_Z (2 * MAX_XCORR_OFFSET))%Q
  /\ cell S754_nan (do_cross_correlation_obs_float inp_f ans_f n max_offset) idx
     = foldl sub_scaled_float (cell S754_nan inp_f idx)
         (cell S754_nan inp_f <$> seqZ 1 (n - 1)).
Proof.
  intros _ Hans _ Hans_f Hwide Hidx. split.
  - unfold do_cross_correlation_obs_Q. rewrite kernel_cell by done.
    unfold value. rewrite window_wide by done. apply foldl_sub_scaled_Q.
  - unfold do_cross_correlation_obs_float. rewrite kernel_cell by done.
    unfold value. by rewrite window_wide.
Qed.

Lemma kernel_wide_window_uniform_witness :
  let inp := inject_Z <$> seqZ 0 NUM in
  let inp_f := CFloat.float_of_Z <$> seqZ 0 NUM in
  Z.of_nat (length inp) = NUM
  /\ NUM - 1 <= MAX_XCORR_OFFSET
  /\ (cell 0 (do_cross_correlation_obs_Q inp (replicate 15 0%Q) NUM
                MAX_XCORR_OFFSET) 3
      == 3 - Qsum (cell 0 inp <$> seqZ 1 (NUM - 1))
             / inject_Z (2 * MAX_XCORR_OFFSET))%Q.
Proof.
  intros inp inp_f. split; [reflexivity | ]. split; [unfold NUM, MAX_XCORR_OFFSET; lia | ].
  apply (kernel_wide_window_uniform inp (replicate 15 0%Q)
           inp_f (replicate 15 S754_nan) NUM MAX_XCORR_OFFSET 3);
    [reflexivity | reflexivity | reflexivity | reflexivity
     | unfold NUM, MAX_XCORR_OFFSET; lia | unfold NUM; lia].
Defined.

End CruxCudaTestFacts.

(** ** The hit collection *)

Module HitCollectionFacts.
Import HitCollection.

Section WithCapacity.
Variable _MAX_NUMBER_HITS : Z.
Variable HIT_T : Type.

Local Abbreviation well_formed := (well_formed _MAX_NUMBER_HITS HIT_T).

Lemma array_store_in_bounds {X} (a : list X) (i : Z) (x : X) :
  0 <= i < Z.of_nat (length a) ->
  array_store a i x = InBounds (<[Z.to_nat i := x]> a).
Proof.
  intros Hi. unfold array_store.
  destruct (0 <=? i) eqn:H0; destruct (i <? Z.of_nat (length a)) eqn:H1;
    cbn; try reflexivity; lia.
Qed.

Lemma array_store_out_of_bounds {X} (a : list X) (i : Z) (x : X) :
  Z.of_nat (length a) <= i -> array_store a i x = OutOfBounds i.
Proof.
  intros Hi. unfold array_store.
  destruct (i <? Z.of_nat (length a)) eqn:H1; [lia | ].
  by rewrite andb_false_r.
Qed.

Lemma add_hit_below (hc : hit_collection HIT_T) (hit : HIT_T) :
  well_formed hc -> hit_total hc < _MAX_NUMBER_HITS ->
  hit_collection_add_hit HIT_T hc hit
  = InBounds (HitCollection (<[Z.to_nat (hit_total hc) := Some hit]> (hits hc))
                            (hit_total hc + 1), TRUE).
Proof.
  intros [Hlen Hpos] Hlt. unfold hit_collection_add_hit.
  by rewrite array_store_in_bounds by lia.
Qed.

Lemma add_hit_full (hc : hit_collection HIT_T) (hit : HIT_T) :
  well_formed hc -> _MAX_NUMBER_HITS <= hit_total hc ->
  hit_collection_add_hit HIT_T hc hit = OutOfBounds (hit_total hc).
Proof.
  intros [Hlen Hpos] Hge. unfold hit_collection_add_hit.
  by rewrite array_store_out_of_bounds by lia.
Qed.

Lemma add_hit_well_formed (hc hc' : hit_collection HIT_T) (hit : HIT_T) (b : bool) :
  well_formed hc ->
  hit_collection_add_hit HIT_T hc hit = InBounds (hc', b) ->
  well_formed hc'.
Proof.
  intros Hwf Hadd. destruct (Z_lt_le_dec (hit_total hc) _MAX_NUMBER_HITS) as [Hlt | Hge].
  - rewrite add_hit_below in Hadd by done. injection Hadd as <- _.
    destruct Hwf as [Hlen Hpos]. split; cbn; [ | lia].
    by rewrite length_insert.
  - by rewrite add_hit_full in Hadd.
Qed.

(** Filling a collection: the hits fit as long as there is room, and
    the first hit past the capacity is stored outside the array. *)
Lemma add_hits_spec (l : list HIT_T) :
  forall hc : hit_collection HIT_T,
    well_formed hc -> hit_total hc <= _MAX_NUMBER_HITS ->
    if decide (hit_total hc + Z.of_nat (length l) <= _MAX_NUMBER_HITS)
    then exists hc', add_hits HIT_T hc l = InBounds hc'
                     /\ hit_total hc' = hit_total hc + Z.of_nat (length l)
    else add_hits HIT_T hc l = OutOfBounds _MAX_NUMBER_HITS.
Proof.
  induction l as [ | h l IH]; intros hc Hwf Hle.
  - cbn. rewrite decide_True by lia. exists hc. split; [done | lia].
  - cbn [add_hits length].
    destruct (Z_lt_le_dec (hit_total hc) _MAX_NUMBER_HITS) as [Hlt | Hge].
    + pose proof (add_hit_below hc h Hwf Hlt) as Hadd. rewrite Hadd.
      pose proof (add_hit_well_formed _ _ _ _ Hwf Hadd) as Hwf'.
      specialize (IH _ Hwf'). cbn [hit_total] in IH.
      specialize (IH ltac:(lia)).
      destruct (decide (hit_total hc + 1 + Z.of_nat (length l) <= _MAX_NUMBER_HITS)).
      * rewrite decide_True by lia. destruct IH as (hc' & Heq & Htot).
        exists hc'. split; [done | lia].
      * rewrite decide_False by lia. done.
    + rewrite add_hit_full by done. rewrite decide_False by lia.
      f_equal. lia.
Qed.
End WithCapacity.

(** C9.  [hit_collection_add_hit] has one path: it stores the hit at
    index [hit_total], moves [hit_total] up by one and returns [TRUE],
    leaving every other cell as it was; it compares nothing with
    [_MAX_NUMBER_HITS], and the store stays inside the array of
    [_MAX_NUMBER_HITS] cells exactly when [hit_total < _MAX_NUMBER_HITS]
    held before the call. *)
Theorem add_hit_unchecked_store
    (_MAX_NUMBER_HITS : Z) (HIT_T : Type)
    (hc : hit_collection HIT_T) (hit : HIT_T) :
  well_formed _MAX_NUMBER_HITS HIT_T hc ->
  (forall hc' b,
      hit_collection_add_hit HIT_T hc hit = InBounds (hc', b) ->
      b = TRUE
      /\ hits hc' !! Z.to_nat (hit_total hc) = Some (Some hit)
      /\ hit_total hc' = hit_total hc + 1
      /\ (forall j, j <> Z.to_nat (hit_total hc) -> hits hc' !! j = hits hc !! j))
  /\ ((exists r, hit_collection_add_hit HIT_T hc hit = InBounds r)
      <-> hit_total hc < _MAX_NUMBER_HITS)
  /\ (_MAX_NUMBER_HITS <= hit_total hc ->
      hit_collection_add_hit HIT_T hc hit = OutOfBounds (hit_total hc)).
Proof.
  intros Hwf. split; [ | split].
  - intros hc' b Hadd.
    destruct (Z_lt_le_dec (hit_total hc) _MAX_NUMBER_HITS) as [Hlt | Hge].
    + rewrite (add_hit_below _MAX_NUMBER_HITS) in Hadd by done.
      injection Hadd as <- <-. destruct Hwf as [Hlen Hpos]. cbn.
      split; [done | ]. split; [ | split; [done | ]].
      * apply list_lookup_insert_eq. lia.
      * intros j Hj. by apply list_lookup_insert_ne.
    + by rewrite (add_hit_full _MAX_NUMBER_HITS) in Hadd.
  - split.
    + intros [r Hr].
      destruct (Z_lt_le_dec (hit_total hc) _MAX_NUMBER_HITS) as [Hlt | Hge];
        [done | ].
      by rewrite (add_hit_full _MAX_NUMBER_HITS) in Hr.
    + intros Hlt. eexists. by apply (add_hit_below _MAX_NUMBER_HITS).
  - intros Hge. by apply (add_hit_full _MAX_NUMBER_HITS).
Qed.

Lemma add_hit_unchecked_store_witness :
  well_formed 2 nat (HitCollection [Some 5%nat; Some 7%nat] 2)
  /\ 2 <= hit_total (HitCollection [Some 5%nat; Some 7%nat] 2)
  /\ hit_collection_add_hit nat (HitCollection [Some 5%nat; Some 7%nat] 2) 9%nat
     = OutOfBounds 2.
Proof.
  split; [split; [reflexivity | cbn; lia] | ].
  split; [cbn; lia | ].
  apply (add_hit_unchecked_store 2 nat
           (HitCollection [Some 5%nat; Some 7%nat] 2) 9%nat).
  - split; [reflexivity | cbn; lia].
  - cbn. lia.
Defined.

(** *** Iterating, printing and freeing *)

Section Iterator.
Variable HIT_T : Type.

Lemma array_load_here {X} (pre rest : list X) (x : X) :
  array_load (pre ++ x :: rest) (Z.of_nat (length pre)) = InBounds x.
Proof.
  unfold array_load. rewrite length_app. cbn [length].
  destruct (0 <=? Z.of_nat (length pre)) eqn:H0;
    [ | apply Z.leb_gt in H0; lia].
  destruct (Z.of_nat (length pre) <? Z.of_nat (length pre + S (length rest)))
    eqn:H1; [ | apply Z.ltb_ge in H1; lia].
  cbn [andb]. rewrite Nat2Z.id. by rewrite list_lookup_middle.
Qed.

Lemma array_store_here {X} (pre rest : list X) (x y : X) :
  array_store (pre ++ x :: rest) (Z.of_nat (length pre)) y
  = InBounds (pre ++ y :: rest).
Proof.
  rewrite array_store_in_bounds by (rewrite length_app; cbn; lia).
  rewrite Nat2Z.id. f_equal.
  replace (length pre) with (length pre + 0)%nat at 1 by lia.
  by rewrite insert_app_r.
Qed.

(** What [add_hits] leaves in the array. *)
Lemma add_hits_contents (l : list HIT_T) :
  forall (pre rest : list (option HIT_T)),
    (length l <= length rest)%nat ->
    add_hits HIT_T (HitCollection (pre ++ rest) (Z.of_nat (length pre))) l
    = InBounds (HitCollection (pre ++ (Some <$> l) ++ drop (length l) rest)
                              (Z.of_nat (length pre + length l))).
Proof.
  induction l as [ | h l IH]; intros pre rest Hlen.
  - cbn. by rewrite Nat.add_0_r.
  - destruct rest as [ | r rest]; [cbn in Hlen; lia | ].
    cbn [add_hits]. unfold hit_collection_add_hit. cbn [hits hit_total].
    rewrite array_store_here.
    replace (Z.of_nat (length pre) + 1) with (Z.of_nat (length (pre ++ [Some h])))
      by (rewrite length_app; cbn; lia).
    rewrite (cons_middle (Some h) pre rest), app_assoc.
    rewrite IH by (cbn in Hlen; lia).
    rewrite length_app. cbn [length fmap list_fmap drop].
    rewrite <- !app_assoc. cbn [app].
    do 2 f_equal. lia.
Qed.

(** The iterator reads the cells from [hit_idx] on. *)
Lemma print_hits_reads (cells : list (option HIT_T)) :
  forall pre rest output total,
    print_hits HIT_T (length cells)
      (HitIterator (HitCollection (pre ++ cells ++ rest) total)
                   (Z.of_nat (length pre)) (Z.of_nat (length pre + length cells)))
      output
    = InBounds (output ++ cells).
Proof.
  induction cells as [ | c cells IH]; intros pre rest output total.
  - cbn. by rewrite app_nil_r.
  - cbn [print_hits length]. unfold hit_iterator_next. cbn [iterated hits hit_idx].
    cbn [app]. rewrite array_load_here. cbn [iterator_hit_total].
    replace (Z.of_nat (length pre) + 1) with (Z.of_nat (length (pre ++ [c])))
      by (rewrite length_app; cbn; lia).
    replace (Z.of_nat (length pre + S (length cells)))
      with (Z.of_nat (length (pre ++ [c]) + length cells))
      by (rewrite length_app; cbn; lia).
    rewrite (cons_middle c pre (cells ++ rest)), app_assoc.
    rewrite IH. by rewrite <- app_assoc.
Qed.

(** The loop of [free_hit_collection] frees the cells below [hit_total]
    from the last to the first and clears them. *)
Lemma free_hits_clears (cells : list (option HIT_T)) :
  forall rest freed,
    free_hits HIT_T (length cells)
      (HitCollection (cells ++ rest) (Z.of_nat (length cells))) freed
    = InBounds (freed ++ reverse cells,
                HitCollection (replicate (length cells) None ++ rest) 0).
Proof.
  induction cells as [ | c cells IH] using rev_ind; intros rest freed.
  - cbn. by rewrite app_nil_r.
  - rewrite length_app. cbn [length].
    replace (length cells + 1)%nat with (S (length cells)) by lia.
    cbn [free_hits hit_total hits].
    replace (Z.of_nat (S (length cells)) - 1) with (Z.of_nat (length cells)) by lia.
    rewrite <- app_assoc. cbn [app].
    rewrite array_load_here, array_store_here.
    rewrite IH. rewrite reverse_app, reverse_singleton. cbn [app].
    rewrite <- (app_assoc freed). cbn [app]. do 3 f_equal.
    rewrite (cons_middle None), app_assoc. f_equal.
    replace (S (length cells)) with (length cells + 1)%nat by lia.
    by rewrite replicate_add.
Qed.
End Iterator.

(** X4.  Adding the hits of a list that fits to a fresh collection and
    then printing the collection hands the hits to [print_hit] in the
    order they were added, each once, and returns [TRUE]; a null
    collection ends the run in [new_hit_iterator]. *)
Theorem print_hit_collection_in_order
    (_MAX_NUMBER_HITS : Z) (HIT_T : Type) (l : list HIT_T) :
  Z.of_nat (length l) <= _MAX_NUMBER_HITS ->
  (exists hc,
     add_hits HIT_T (allocate_hit_collection _MAX_NUMBER_HITS HIT_T) l
     = InBounds hc
     /\ hit_total hc = Z.of_nat (length l)
     /\ print_hit_collection HIT_T [] (Some hc)
        = Carp.Done (InBounds (Some <$> l, TRUE)))
  /\ Carp.is_fatal (print_hit_collection HIT_T [] None) = true.
Proof.
  intros Hfit. split; [ | reflexivity].
  unfold allocate_hit_collection.
  pose proof (add_hits_contents HIT_T l []
                (replicate (Z.to_nat _MAX_NUMBER_HITS) None)) as Hadd.
  cbn [app length Nat.add] in Hadd. change (Z.of_nat 0) with 0 in Hadd.
  rewrite Hadd by (rewrite length_replicate; lia).
  eexists. split; [reflexivity | ]. split; [reflexivity | ].
  unfold print_hit_collection, new_hit_iterator, turns_left.
  cbn [hit_total iterated hit_idx iterator_hit_total].
  replace (Z.to_nat (Z.of_nat (length l) - 0)) with (length (Some <$> l))
    by (rewrite length_fmap; lia).
  pose proof (print_hits_reads HIT_T (Some <$> l) []
                (drop (length l) (replicate (Z.to_nat _MAX_NUMBER_HITS) None))
                [] (Z.of_nat (length l))) as Hprint.
  cbn [app length Nat.add] in Hprint.
  rewrite length_fmap in Hprint at 2. change (Z.of_nat 0) with 0 in Hprint.
  by rewrite Hprint.
Qed.

Lemma print_hit_collection_in_order_witness :
  Z.of_nat (length [4; 8; 6]%nat) <= 5
  /\ exists hc,
       add_hits nat (allocate_hit_collection 5 nat) [4; 8; 6]%nat = InBounds hc
       /\ print_hit_collection nat [] (Some hc)
          = Carp.Done (InBounds ([Some 4; Some 8; Some 6]%nat, TRUE)).
Proof.
  split; [cbn; lia | ].
  destruct (print_hit_collection_in_order 5 nat [4; 8; 6]%nat ltac:(cbn; lia))
    as [(hc & Hadd & _ & Hprint) _].
  exists hc. by split.
Defined.



End HitCollectionFacts.

(** ** The reader of tab-delimited files *)

Module DelimitedFileReaderFacts.
Import DelimitedFileReader.

Lemma push_back_empty_spec (missing : nat) :
  forall data, push_back_empty missing data = data ++ replicate missing EmptyString.
Proof.
  induction missing as [ | k IH]; intros data; cbn.
  - by rewrite app_nil_r.
  - rewrite IH. by rewrite <- app_assoc.
Qed.

Section WithTokenizer.
Variable tokenize : string -> list string -> ascii -> list string.

Local Abbreviation next := (next tokenize).
Local Abbreviation next_times := (next_times tokenize).
Local Abbreviation loadData := (loadData tokenize).

(** The cells [tokenize] finds in the row that [next()] is about to
    parse. *)
Local Abbreviation cells r := (tokenize (next_data_string_ r) (data_ r) tab).

Lemma next_short_row (r : reader) (lg : Carp.log) :
  has_next_ r = true ->
  (length (cells r) < length (column_names_ r))%nat ->
  data_ (fst (next r lg))
  = cells r ++ replicate (length (column_names_ r) - length (cells r)) EmptyString
  /\ column_mismatch_warned_ (fst (next r lg)) = true
  /\ snd (next r lg)
     = if column_mismatch_warned_ r then lg
       else lg ++ mismatch_warnings (Z.of_nat (length (cells r)))
                    (current_row_ r + 1)
                    (Z.of_nat (length (column_names_ r)))
                    (next_data_string_ r).
Proof.
  intros Hnext Hshort. unfold DelimitedFileReader.next. rewrite Hnext.
  apply Nat.ltb_lt in Hshort. rewrite Hshort.
  destruct (getline (file_ptr_ r)) as [[stream line] more].
  destruct (column_mismatch_warned_ r); cbn;
    by rewrite push_back_empty_spec.
Qed.

Lemma next_full_row (r : reader) (lg : Carp.log) :
  has_next_ r = true ->
  (length (column_names_ r) <= length (cells r))%nat ->
  data_ (fst (next r lg)) = cells r
  /\ column_mismatch_warned_ (fst (next r lg)) = column_mismatch_warned_ r
  /\ snd (next r lg) = lg.
Proof.
  intros Hnext Hfull. unfold DelimitedFileReader.next. rewrite Hnext.
  apply Nat.ltb_ge in Hfull. rewrite Hfull.
  by destruct (getline (file_ptr_ r)) as [[stream line] more].
Qed.

Lemma next_at_end (r : reader) (lg : Carp.log) :
  has_next_ r = false ->
  column_mismatch_warned_ (fst (next r lg)) = column_mismatch_warned_ r
  /\ snd (next r lg) = lg.
Proof. intros Hnext. unfold DelimitedFileReader.next. by rewrite Hnext. Qed.

(** Once the reader has warned, no call of [next()] warns again. *)
Lemma next_warned (r : reader) (lg : Carp.log) :
  column_mismatch_warned_ r = true ->
  column_mismatch_warned_ (fst (next r lg)) = true /\ snd (next r lg) = lg.
Proof.
  intros Hw. destruct (has_next_ r) eqn:Hnext.
  - destruct (Nat.lt_ge_cases (length (cells r)) (length (column_names_ r)))
      as [Hshort | Hfull].
    + destruct (next_short_row r lg Hnext Hshort) as (_ & Hflag & Hlog).
      by rewrite Hw in Hlog.
    + destruct (next_full_row r lg Hnext Hfull) as (_ & Hflag & Hlog).
      by rewrite Hflag.
  - destruct (next_at_end r lg Hnext) as [Hflag Hlog]. by rewrite Hflag.
Qed.

Lemma next_times_warned (k : nat) :
  forall r lg,
    column_mismatch_warned_ r = true ->
    snd (next_times k (r, lg)) = lg.
Proof.
  induction k as [ | k IH]; intros r lg Hw; [done | ].
  cbn [DelimitedFileReader.next_times fst snd].
  destruct (next_warned r lg Hw) as [Hflag Hlog].
  destruct (next r lg) as [r' lg'] eqn:Hstep. cbn in Hflag, Hlog. subst lg'.
  by apply IH.
Qed.

(** One call of [next()] warns at most once. *)
Lemma next_reports (r : reader) (lg : Carp.log) :
  (column_mismatch_warned_ (fst (next r lg)) = column_mismatch_warned_ r
   /\ snd (next r lg) = lg)
  \/ (column_mismatch_warned_ r = false
      /\ column_mismatch_warned_ (fst (next r lg)) = true
      /\ exists size row header line,
           snd (next r lg) = lg ++ mismatch_warnings size row header line).
Proof.
  destruct (has_next_ r) eqn:Hnext.
  - destruct (Nat.lt_ge_cases (length (cells r)) (length (column_names_ r)))
      as [Hshort | Hfull].
    + destruct (next_short_row r lg Hnext Hshort) as (_ & Hflag & Hlog).
      destruct (column_mismatch_warned_ r) eqn:Hw.
      * left. by rewrite Hflag.
      * right. split; [done | ]. split; [done | ]. eauto.
    + destruct (next_full_row r lg Hnext Hfull) as (_ & Hflag & Hlog).
      left. done.
  - left. by apply next_at_end.
Qed.

(** However many rows are read, the log grows by at most the warnings
    of one row. *)
Lemma next_times_reports (k : nat) :
  forall r lg, at_most_one_report lg (snd (next_times k (r, lg))).
Proof.
  induction k as [ | k IH]; intros r lg; [by left | ].
  cbn [DelimitedFileReader.next_times fst snd].
  destruct (next_reports r lg) as [[Hflag Hlog] | (Hw & Hflag & Hlog)].
  - destruct (next r lg) as [r' lg'] eqn:Hstep. cbn in Hlog. subst lg'.
    apply IH.
  - destruct (next r lg) as [r' lg'] eqn:Hstep. cbn in Hflag, Hlog.
    rewrite next_times_warned by done. right. exact Hlog.
Qed.

Lemma next_times_add (j k : nat) :
  forall st, next_times k (next_times j st) = next_times (j + k) st.
Proof.
  induction j as [ | j IH]; intros st; [done | ].
  cbn [DelimitedFileReader.next_times Nat.add]. apply IH.
Qed.

(** [loadData] clears the flag before it reads a row: it ends as a
    reader that has not warned yet, after one row or none, with at most
    one diagnostic of its own in the log. *)
Lemma loadData_start (fs : file_system) (file_name : string) (hasHeader : bool)
    (r : reader) (lg : Carp.log) :
  exists r0 early j,
    column_mismatch_warned_ r0 = false
    /\ loadData fs file_name hasHeader r lg = next_times j (r0, lg ++ early)
    /\ (early = [] \/ exists l msg, early = [Carp.Entry l msg]).
Proof.
  assert (Hstart : forall r0 early j st,
            column_mismatch_warned_ r0 = false ->
            st = next_times j (r0, lg ++ early) ->
            (early = [] \/ exists l msg, early = [Carp.Entry l msg]) ->
            exists r0 early j,
              column_mismatch_warned_ r0 = false
              /\ st = next_times j (r0, lg ++ early)
              /\ (early = [] \/ exists l msg, early = [Carp.Entry l msg]))
    by (intros r0 early j st; eauto 8).
  unfold DelimitedFileReader.loadData.
  destruct (fs file_name) as [lines | ].
  - destruct (getline (Some lines)) as [[stream1 line1] more1].
    destruct hasHeader.
    + destruct more1.
      * destruct (getline stream1) as [[stream2 line2] more2].
        destruct more2.
        -- eapply (Hstart _ [] 1%nat); [ | by rewrite app_nil_r | by left]. done.
        -- eapply (Hstart _ [] 0%nat); [ | by rewrite app_nil_r | by left]. done.
      * eapply (Hstart _ [_] 0%nat); [ | reflexivity | right; eauto]. done.
    + destruct more1.
      * eapply (Hstart _ [] 1%nat); [ | by rewrite app_nil_r | by left]. done.
      * eapply (Hstart _ [] 0%nat); [ | by rewrite app_nil_r | by left]. done.
  - eapply (Hstart _ [_] 0%nat); [ | reflexivity | right; eauto]. done.
Qed.

Lemma loadData_reports (fs : file_system) (file_name : string) (hasHeader : bool)
    (r : reader) (lg : Carp.log) (k : nat) :
  exists early,
    (early = [] \/ exists l msg, early = [Carp.Entry l msg])
    /\ at_most_one_report (lg ++ early)
         (snd (next_times k (loadData fs file_name hasHeader r lg))).
Proof.
  destruct (loadData_start fs file_name hasHeader r lg)
    as (r0 & early & j & Hflag & Heq & Hearly).
  exists early. split; [done | ].
  rewrite Heq, next_times_add. apply next_times_reports.
Qed.
End WithTokenizer.



(** The three special cells of the getters. *)
Section Numeric.
Variable from_string : spec_float -> string -> spec_float.
Variable type_ans : spec_float.

Lemma getFloat_Inf (r : reader) (col_idx : nat) :
  getString r col_idx = Some "Inf"%string ->
  getFloat from_string type_ans r col_idx = Some (S754_infinity false).
Proof. intros H. unfold getFloat. by rewrite H. Qed.

Lemma getFloat_neg_Inf (r : reader) (col_idx : nat) :
  getString r col_idx = Some "-Inf"%string ->
  getFloat from_string type_ans r col_idx = Some (S754_infinity true).
Proof. intros H. unfold getFloat. by rewrite H. Qed.

Lemma getDouble_Inf (r : reader) (col_idx : nat) :
  getString r col_idx = Some "Inf"%string ->
  getDouble from_string type_ans r col_idx = Some (S754_infinity false).
Proof. intros H. unfold getDouble. by rewrite H. Qed.

Lemma getDouble_neg_Inf (r : reader) (col_idx : nat) :
  getString r col_idx = Some "-Inf"%string ->
  getDouble from_string type_ans r col_idx = Some (S754_infinity true).
Proof. intros H. unfold getDouble. by rewrite H. Qed.

Lemma getDouble_empty (r : reader) (col_idx : nat) :
  getString r col_idx = Some EmptyString ->
  getDouble from_string type_ans r col_idx = Some (S754_zero false).
Proof. intros H. unfold getDouble. by rewrite H. Qed.

(** [getFloat] has no case for the empty cell: the cell goes to the
    parser. *)
Lemma getFloat_empty (r : reader) (col_idx : nat) :
  getString r col_idx = Some EmptyString ->
  getFloat from_string type_ans r col_idx
  = Some (from_string type_ans EmptyString).
Proof.
  intros H. unfold getFloat, getValue. by rewrite H.
Qed.
End Numeric.

(** C5, on a row with the cells [Inf], [-Inf] and an empty cell.  Both
    getters read [Inf] as positive and [-Inf] as negative infinity, and
    [getDouble] reads the empty cell as 0.0.  [getFloat] hands the empty
    cell to [from_string] with its uninitialised local: it returns what
    the parser leaves there, and with a parser that leaves the variable
    alone when there is nothing to read it returns that local's
    content, here 1.0 and not 0.0. *)
Theorem getFloat_empty_cell_goes_to_parser
    (from_string : spec_float -> string -> spec_float) (type_ans : spec_float) :
  let r := on_row ["a"; "b"; "c"]%string ["Inf"; "-Inf"; EmptyString]%string in
  getFloat from_string type_ans r 0 = Some CFloat.pos_infinity
  /\ getFloat from_string type_ans r 1 = Some CFloat.neg_infinity
  /\ getDouble from_string type_ans r 0 = Some CFloat.pos_infinity
  /\ getDouble from_string type_ans r 1 = Some CFloat.neg_infinity
  /\ getDouble from_string type_ans r 2 = Some CFloat.zero
  /\ getFloat from_string type_ans r 2 = Some (from_string type_ans EmptyString)
  /\ getFloat from_string_digits (CFloat.float_of_Z 1) r 2
     = Some (CFloat.float_of_Z 1)
  /\ CFloat.float_of_Z 1 <> CFloat.zero.
Proof.
  intros r. repeat split; try reflexivity. discriminate.
Qed.

(** *** Columns by name *)

Lemma findColumn_from_absent (names : list string) (column_name : string) :
  forall k, 0 <= k ->
    (findColumn_from names column_name k = -1 <-> column_name ∉ names)
    /\ (findColumn_from names column_name k <> -1 ->
        k <= findColumn_from names column_name k < k + Z.of_nat (length names)).
Proof.
  induction names as [ | name names IH]; intros k Hk.
  - cbn. split; [ | done]. split; [intros _ | done]. apply not_elem_of_nil.
  - cbn [findColumn_from length].
    destruct (String.eqb_spec name column_name) as [-> | Hne].
    + split; [ | lia]. split; [lia | ]. intros Hnot. exfalso. apply Hnot. left.
    + destruct (IH (k + 1) ltac:(lia)) as [Habs Hrange]. split.
      * rewrite Habs, not_elem_of_cons. split; [by intros Hnot | by intros [_ Hnot]].
      * intros Hfound. specialize (Hrange Hfound). lia.
Qed.

Lemma findColumn_from_first (names : list string) (column_name : string) :
  forall k, 0 <= k ->
    findColumn_from names column_name k <> -1 ->
    names !! Z.to_nat (findColumn_from names column_name k - k) = Some column_name
    /\ forall j, (j < Z.to_nat (findColumn_from names column_name k - k))%nat ->
         names !! j <> Some column_name.
Proof.
  induction names as [ | name names IH]; intros k Hk; [done | ].
  cbn [findColumn_from].
  destruct (String.eqb_spec name column_name) as [-> | Hne]; intros Hfound.
  - replace (Z.to_nat (k - k)) with 0%nat by lia.
    split; [done | lia].
  - destruct (findColumn_from_absent names column_name (k + 1) ltac:(lia))
      as [_ Hrange]. specialize (Hrange Hfound).
    destruct (IH (k + 1) ltac:(lia) Hfound) as [Hat Hbefore].
    replace (Z.to_nat (findColumn_from names column_name (k + 1) - k))
      with (S (Z.to_nat (findColumn_from names column_name (k + 1) - (k + 1))))
      by lia.
    split; [done | ].
    intros [ | j] Hj; cbn; [congruence | apply Hbefore; lia].
Qed.

(** X6.  [findColumn] returns -1 exactly when no column has the name,
    and otherwise the index of the first column with the name: a later
    column of the same name is never found. *)
Theorem findColumn_first_match (r : reader) (column_name : string) :
  (findColumn r column_name = -1 <-> column_name ∉ column_names_ r)
  /\ (findColumn r column_name <> -1 ->
      0 <= findColumn r column_name < numCols r
      /\ column_names_ r !! Z.to_nat (findColumn r column_name) = Some column_name
      /\ forall j, (j < Z.to_nat (findColumn r column_name))%nat ->
           column_names_ r !! j <> Some column_name).
Proof.
  unfold findColumn, numCols.
  destruct (findColumn_from_absent (column_names_ r) column_name 0 ltac:(lia))
    as [Habs Hrange].
  split; [exact Habs | ]. intros Hfound.
  split; [specialize (Hrange Hfound); lia | ].
  pose proof (findColumn_from_first (column_names_ r) column_name 0 ltac:(lia) Hfound)
    as Hfirst.
  by rewrite Z.sub_0_r in Hfirst.
Qed.

Section NamedAfterNext.
Variable tokenize : string -> list string -> ascii -> list string.

Lemma next_column_names (r : reader) (lg : Carp.log) :
  column_names_ (fst (next tokenize r lg)) = column_names_ r.
Proof.
  unfold next. destruct (has_next_ r); [ | done].
  by destruct (getline (file_ptr_ r)) as [[stream line] more].
Qed.

(** After [next()] has parsed a row, every column of the header has a
    cell. *)
Lemma next_data_covers_header (r : reader) (lg : Carp.log) (i : nat) :
  has_next_ r = true ->
  (i < length (column_names_ r))%nat ->
  data_ (fst (next tokenize r lg)) !! i
  = Some (default EmptyString
            (tokenize (next_data_string_ r) (data_ r) tab !! i)).
Proof.
  intros Hnext Hi.
  destruct (Nat.lt_ge_cases (length (tokenize (next_data_string_ r) (data_ r) tab))
                            (length (column_names_ r))) as [Hshort | Hfull].
  - destruct (next_short_row tokenize r lg Hnext Hshort) as (Hdata & _).
    rewrite Hdata.
    destruct (tokenize (next_data_string_ r) (data_ r) tab !! i) as [x | ] eqn:Hx.
    + by rewrite (lookup_app_l_Some _ _ _ _ Hx).
    + apply lookup_ge_None in Hx. rewrite lookup_app_r by done.
      rewrite lookup_replicate_2 by lia. done.
  - destruct (next_full_row tokenize r lg Hnext Hfull) as (Hdata & _).
    rewrite Hdata.
    destruct (lookup_lt_is_Some_2 (tokenize (next_data_string_ r) (data_ r) tab) i)
      as [x Hx]; [lia | ].
    by rewrite Hx.
Qed.
End NamedAfterNext.

(** X7.  On the row that [next()] has just parsed, a cell asked for by
    column name ends the run in the fatal error exactly when the header
    has no such column; otherwise the look-up returns the cell of the
    first column of that name and never leaves the row: where the row
    was too short for that column, it returns the empty string. *)
Theorem named_lookup_after_next
    (tokenize : string -> list string -> ascii -> list string)
    (r : reader) (lg : Carp.log) (column_name : string) :
  has_next_ r = true ->
  let r' := fst (next tokenize r lg) in
  let cells := tokenize (next_data_string_ r) (data_ r) tab in
  (column_name ∉ column_names_ r ->
   getString_named r' column_name = Carp.Fatal (cannot_find_column column_name))
  /\ (column_name ∈ column_names_ r ->
      getString_named r' column_name
      = Carp.Done
          (Some (default EmptyString
                   (cells !! Z.to_nat (findColumn r column_name))))).
Proof.
  intros Hnext r' cells. unfold getString_named, findColumn.
  subst r'. rewrite next_column_names.
  destruct (findColumn_from_absent (column_names_ r) column_name 0 ltac:(lia))
    as [Habs Hrange].
  split.
  - intros Hnot. apply Habs in Hnot. by rewrite Hnot.
  - intros Hin.
    assert (Hfound : findColumn_from (column_names_ r) column_name 0 <> -1)
      by (by rewrite Habs; intros Hnot).
    specialize (Hrange Hfound).
    destruct (findColumn_from (column_names_ r) column_name 0 =? -1) eqn:Heq;
      [apply Z.eqb_eq in Heq; done | ].
    unfold getString. f_equal.
    apply next_data_covers_header; [done | lia].
Qed.

Lemma named_lookup_after_next_witness :
  let r := on_row ["scan"; "score"; "score"]%string [] in
  let r1 := Reader EmptyString true false (column_names_ r) [] 1 EmptyString
              ("7" ++ String tab "Inf")%string true true false (Some []) in
  has_next_ r1 = true
  /\ getString_named (fst (next split_tokenize r1 [])) "score"
     = Carp.Done (Some "Inf"%string)
  /\ getString_named (fst (next split_tokenize r1 [])) "charge"
     = Carp.Fatal (cannot_find_column "charge").
Proof.
  intros r r1. split; [reflexivity | ].
  destruct (named_lookup_after_next split_tokenize r1 [] "score" eq_refl)
    as [_ Hscore].
  destruct (named_lookup_after_next split_tokenize r1 [] "charge" eq_refl)
    as [Hcharge _].
  split.
  - rewrite Hscore; [reflexivity | ]. apply elem_of_cons. right. left.
  - apply Hcharge. intros Hin.
    repeat (apply elem_of_cons in Hin as [Hin | Hin]; [discriminate Hin | ]).
    by apply elem_of_nil in Hin.
Defined.

(** *** Reading a file row by row *)

Section Iteration.
Variable tokenize : string -> list string -> ascii -> list string.

Local Abbreviation next := (next tokenize).
Local Abbreviation next_times := (next_times tokenize).
Local Abbreviation loadData := (loadData tokenize).

Lemma next_positioned (r : reader) (lg : Carp.log) (current ahead : string)
    (row : Z) (rest : list string) :
  positioned r current row (ahead :: rest) ->
  positioned (fst (next r lg)) ahead (row + 1) rest.
Proof.
  intros (Hcur & Hstr & Hrow & Hnext & Hahead & Hfile).
  unfold DelimitedFileReader.next. rewrite Hnext, Hfile, Hahead, Hrow.
  unfold positioned. destruct rest as [ | ahead' rest']; by cbn.
Qed.

Lemma next_last (r : reader) (lg : Carp.log) (current : string) (row : Z) :
  positioned r current row [] -> finished (fst (next r lg)).
Proof.
  intros (Hcur & Hstr & Hrow & Hnext).
  unfold DelimitedFileReader.next. by rewrite Hnext.
Qed.

Lemma next_finished (r : reader) (lg : Carp.log) :
  finished r -> finished (fst (next r lg)).
Proof.
  intros [Hnext Hcur]. unfold DelimitedFileReader.next. by rewrite Hnext.
Qed.

Lemma next_times_finished (k : nat) :
  forall st, finished (fst st) -> finished (fst (next_times k st)).
Proof.
  induction k as [ | k IH]; intros st Hfin; [done | ].
  cbn [DelimitedFileReader.next_times]. apply IH. by apply next_finished.
Qed.

(** From a row on, the [i]-th call of [next()] stands on the [i]-th of
    the rows still to come, and the calls after the last row are past
    the end. *)
Lemma next_times_positioned (pending : list string) :
  forall (i : nat) st current row,
    positioned (fst st) current row pending ->
    match (current :: pending) !! i with
    | Some line =>
        positioned (fst (next_times i st)) line (row + Z.of_nat i)
                   (drop i pending)
    | None => finished (fst (next_times i st))
    end.
Proof.
  induction pending as [ | ahead rest IH]; intros i st current row Hpos.
  - destruct i as [ | i].
    + cbn. by rewrite Z.add_0_r.
    + cbn [lookup list_lookup DelimitedFileReader.next_times].
      apply next_times_finished.
      by apply (next_last _ _ current row).
  - destruct i as [ | i].
    + cbn. by rewrite Z.add_0_r.
    + cbn [lookup list_lookup DelimitedFileReader.next_times drop].
      pose proof (next_positioned _ (snd st) _ _ _ _ Hpos) as Hstep.
      specialize (IH i (next (fst st) (snd st)) ahead (row + 1) Hstep).
      replace (row + Z.of_nat (S i)) with (row + 1 + Z.of_nat i) by lia.
      exact IH.
Qed.

(** [loadData] on a file with a header and a first row stands on that
    row. *)
Lemma loadData_positioned (fs : file_system) (file_name : string)
    (r : reader) (lg : Carp.log) (header first : string) (rest : list string) :
  fs file_name = Some (header :: first :: rest) ->
  positioned (fst (loadData fs file_name true r lg)) first 1 rest.
Proof.
  intros Hfile. unfold DelimitedFileReader.loadData. rewrite Hfile. cbn [getline].
  unfold DelimitedFileReader.next. cbn [has_next_ file_ptr_ next_data_string_ current_row_].
  unfold positioned. destruct rest as [ | ahead rest']; by cbn.
Qed.
End Iteration.

(** X8.  After [loadData] on a file with a header line and at least one
    row, [i] calls of [next()] leave the reader on row [i] of the file
    (counting from 0): [hasNext()] holds, [getString()] is that line as
    read and the row number is [i + 1].  Once [next()] has been called
    as many times as there are rows, [hasNext()] fails and [getString()]
    ends the run with "End of file!": every row is visited exactly once,
    in order. *)
Theorem iteration_visits_each_row
    (tokenize : string -> list string -> ascii -> list string)
    (fs : file_system) (file_name : string) (r : reader) (lg : Carp.log)
    (header first : string) (rest : list string) (i : nat) :
  fs file_name = Some (header :: first :: rest) ->
  let r_i := fst (next_times tokenize i (loadData tokenize fs file_name true r lg)) in
  (forall line, (first :: rest) !! i = Some line ->
     hasNext r_i = true
     /\ getString_current r_i = Carp.Done line
     /\ current_row_ r_i = Z.of_nat i + 1)
  /\ ((length (first :: rest) <= i)%nat ->
      hasNext r_i = false
      /\ getString_current r_i = Carp.Fatal "End of file!").
Proof.
  intros Hfile r_i.
  pose proof (loadData_positioned tokenize fs file_name r lg header first rest Hfile)
    as Hstart.
  pose proof (next_times_positioned tokenize rest i _ first 1 Hstart) as Hi.
  fold r_i in Hi. split.
  - intros line Hline. rewrite Hline in Hi.
    destruct Hi as (Hcur & Hstr & Hrow & _).
    unfold hasNext, getString_current. rewrite Hcur, Hstr, Hrow.
    split; [apply orb_true_r | ]. split; [done | lia].
  - intros Hpast. apply lookup_ge_None in Hpast. rewrite Hpast in Hi.
    destruct Hi as [Hnext Hcur].
    unfold hasNext, getString_current. by rewrite Hnext, Hcur.
Qed.

Lemma iteration_visits_each_row_witness :
  let fs : file_system := fun _ =>
    Some ["a" ++ String tab "b"; "1" ++ String tab "2"; "3"]%string in
  fs "psms.txt"%string
  = Some ["a" ++ String tab "b"; "1" ++ String tab "2"; "3"]%string
  /\ getString_current
       (fst (next_times split_tokenize 1
               (loadData split_tokenize fs "psms.txt" true blank [])))
     = Carp.Done "3"%string
  /\ hasNext
       (fst (next_times split_tokenize 2
               (loadData split_tokenize fs "psms.txt" true blank [])))
     = false.
Proof.
  intros fs. split; [reflexivity | ].
  split.
  - destruct (iteration_visits_each_row split_tokenize fs "psms.txt" blank []
                _ _ _ 1 eq_refl) as [Hrow _].
    by destruct (Hrow "3"%string eq_refl) as (_ & Hget & _).
  - destruct (iteration_visits_each_row split_tokenize fs "psms.txt" blank []
                _ _ _ 2 eq_refl) as [_ Hend].
    by destruct (Hend ltac:(cbn; lia)) as [Hhas _].
Defined.

(** X9.  The warning of a short row is once for each load, not once for
    each reader: [reset()] on a file whose first row is shorter than the
    header prints the three warning lines again, whether or not the
    reader had warned before. *)
Theorem reset_warns_again
    (tokenize : string -> list string -> ascii -> list string)
    (fs : file_system) (r : reader) (lg : Carp.log)
    (header first : string) (rest : list string) :
  has_header_ r = true ->
  fs (file_name_ r) = Some (header :: first :: rest) ->
  (length (tokenize first (data_ r) tab) < length (tokenize header [] tab))%nat ->
  snd (reset tokenize fs r lg)
  = lg ++ mismatch_warnings (Z.of_nat (length (tokenize first (data_ r) tab))) 1
            (Z.of_nat (length (tokenize header [] tab))) first
  /\ column_mismatch_warned_ (fst (reset tokenize fs r lg)) = true
  /\ length (data_ (fst (reset tokenize fs r lg)))
     = length (tokenize header [] tab).
Proof.
  intros Hheader Hfile Hshort. unfold reset, loadData.
  rewrite Hheader, Hfile. cbn [getline].
  match goal with
  | |- context [next tokenize ?r0 lg] =>
      destruct (next_short_row tokenize r0 lg eq_refl Hshort)
        as (Hdata & Hflag & Hlog)
  end.
  cbn [column_mismatch_warned_ next_data_string_ data_ column_names_ current_row_]
    in Hdata, Hflag, Hlog.
  split; [exact Hlog | ]. split; [exact Hflag | ].
  rewrite Hdata, length_app, length_replicate. lia.
Qed.

Lemma reset_warns_again_witness :
  let fs : file_system := fun _ =>
    Some ["a" ++ String tab "b"; "1"; "3"]%string in
  let st := loadData split_tokenize fs "psms.txt" true blank [] in
  length (snd st) = 3%nat
  /\ column_mismatch_warned_ (fst st) = true
  /\ length (snd (reset split_tokenize fs (fst st) (snd st))) = 6%nat.
Proof.
  intros fs st. split; [reflexivity | ]. split; [reflexivity | ].
  destruct (reset_warns_again split_tokenize fs (fst st) (snd st)
              ("a" ++ String tab "b")%string "1"%string ["3"%string]
              eq_refl eq_refl ltac:(vm_compute; lia)) as [Hlog _].
  rewrite Hlog. reflexivity.
Defined.

(** *** Counting rows *)

Lemma count_lines_spec (lines : list string) :
  forall k, 0 <= k < UINT_MODULUS ->
    count_lines lines k = (k + Z.of_nat (length lines)) mod UINT_MODULUS.
Proof.
  induction lines as [ | l lines IH]; intros k Hk.
  - cbn. rewrite Z.add_0_r. symmetry. by apply Z.mod_small.
  - cbn [count_lines length].
    rewrite IH by (apply Z.mod_pos_bound; reflexivity).
    rewrite Zplus_mod_idemp_l. f_equal. lia.
Qed.

(** X10.  [numRows] counts the lines of the file named [file_name_] and
    takes one off for a header, in [unsigned int]: a reader with a
    header on a file that is empty or cannot be opened reports
    4294967295 rows.  The count is taken once: until the next
    [loadData], later calls return the first count even when the file
    has changed. *)
Theorem numRows_counts_once (fs fs' : file_system) (r : reader) (stale : Z) :
  num_rows_valid_ r = false ->
  let lines := default [] (fs (file_name_ r)) in
  let header := if has_header_ r then 1 else 0 in
  fst (numRows fs (r, stale))
  = (Z.of_nat (length lines) - header) mod UINT_MODULUS
  /\ (has_header_ r = true -> lines = [] ->
      fst (numRows fs (r, stale)) = 4294967295)
  /\ fst (numRows fs' (snd (numRows fs (r, stale))))
     = fst (numRows fs (r, stale)).
Proof.
  intros Hvalid lines header.
  assert (Hcount : fst (numRows fs (r, stale))
                   = (Z.of_nat (length lines) - header) mod UINT_MODULUS).
  { unfold numRows. rewrite Hvalid. cbn [negb fst].
    rewrite count_lines_spec by (unfold UINT_MODULUS; lia).
    fold lines. subst header. rewrite Z.add_0_l.
    destruct (has_header_ r).
    - by rewrite Zminus_mod_idemp_l.
    - by rewrite Z.sub_0_r. }
  split; [exact Hcount | ]. split.
  - intros Hh Hempty. rewrite Hcount. subst header. by rewrite Hh, Hempty.
  - unfold numRows. rewrite Hvalid. reflexivity.
Qed.

Lemma numRows_counts_once_witness :
  let r := Reader "gone.txt" true false [] [] 0 EmptyString EmptyString
             false false false None in
  num_rows_valid_ r = false
  /\ fst (numRows (fun _ => None) (r, 0)) = 4294967295
  /\ fst (numRows (fun _ => Some ["a"; "1"; "2"]%string)
            (snd (numRows (fun _ => None) (r, 0)))) = 4294967295.
Proof.
  intros r. split; [reflexivity | ].
  destruct (numRows_counts_once (fun _ => None)
              (fun _ => Some ["a"; "1"; "2"]%string) r 0 eq_refl)
    as (_ & Hwrap & Hcache).
  split; [by apply Hwrap | ].
  rewrite Hcache. by apply Hwrap.
Defined.

(** *** The header as text *)

Lemma append_assoc (a b c : string) : ((a ++ b) ++ c = a ++ b ++ c)%string.
Proof.
  induction a as [ | x a IH]; [done | ].
  change (String x a ++ b)%string with (String x (a ++ b)).
  change (String x (a ++ b) ++ c)%string with (String x ((a ++ b) ++ c)).
  change (String x a ++ b ++ c)%string with (String x (a ++ b ++ c)).
  by rewrite IH.
Qed.

Lemma append_empty_r (a : string) : (a ++ EmptyString)%string = a.
Proof.
  induction a as [ | x a IH]; [done | ].
  change (String x a ++ EmptyString)%string with (String x (a ++ EmptyString)).
  by rewrite IH.
Qed.

(** Putting the names of the columns from [first] on, one after the
    other. *)
Lemma put_column_names_from (r : reader) (before after : string)
    (rest : list string) :
  forall (done_ : list string) (first : Z) (s : string),
    column_names_ r = done_ ++ rest ->
    first = Z.of_nat (length done_) ->
    foldl (put_column_name r before after) (Some s)
          (seqZ first (Z.of_nat (length rest)))
    = Some (s ++ String.concat EmptyString
                   ((fun name => before ++ name ++ after) <$> rest))%string.
Proof.
  induction rest as [ | name rest IH]; intros done_ first s Hnames Hfirst.
  - cbn. by rewrite append_empty_r.
  - cbn [length]. rewrite seqZ_cons by lia.
    replace (Z.pred (Z.of_nat (S (length rest)))) with (Z.of_nat (length rest))
      by lia.
    cbn [foldl]. unfold put_column_name at 2, getColumnName.
    rewrite Hnames.
    replace (Z.to_nat first) with (length done_ + 0)%nat by lia.
    rewrite lookup_app_r by lia.
    replace (length done_ + 0 - length done_)%nat with 0%nat by lia.
    cbn [lookup list_lookup].
    rewrite (IH (done_ ++ [name]) (Z.succ first)).
    + f_equal. cbn [fmap list_fmap].
      destruct rest as [ | name' rest].
      * cbn. by rewrite !append_empty_r.
      * change (String.concat EmptyString
                  ((before ++ name ++ after)%string
                   :: ((fun name0 => (before ++ name0 ++ after)%string)
                         <$> name' :: rest)))
          with (((before ++ name ++ after) ++ EmptyString
                 ++ String.concat EmptyString
                      ((fun name0 => (before ++ name0 ++ after)%string)
                         <$> name' :: rest))%string).
        change (EmptyString ++ ?x)%string with x.
        by rewrite append_assoc.
    + by rewrite <- app_assoc.
    + rewrite length_app. cbn. lia.
Qed.

Lemma concat_tab_names (names : list string) :
  String.concat EmptyString
    ((fun name => (String tab EmptyString ++ name ++ EmptyString)%string) <$> names)
  = match names with
    | [] => EmptyString
    | _ => (String tab EmptyString
            ++ String.concat (String tab EmptyString) names)%string
    end.
Proof.
  induction names as [ | name names IH]; [done | ].
  cbn [fmap list_fmap]. rewrite append_empty_r.
  destruct names as [ | name' names].
  - done.
  - cbn [fmap list_fmap] in IH |- *.
    change (String.concat EmptyString (?x :: ?y :: ?l))
      with (x ++ String.concat EmptyString (y :: l))%string.
    rewrite IH.
    change (String.concat (String tab EmptyString) (name :: name' :: names))
      with (name ++ String tab EmptyString
            ++ String.concat (String tab EmptyString) (name' :: names))%string.
    by rewrite append_assoc.
Qed.

(** X18.  [getHeaderString] and [getAvailableColumnsString] never run
    into the exception of [getColumnName]: every index they ask for is
    below [numCols()].  The header string is the names of the columns
    with one tab between two names and none at either end, the empty
    string when there is no column; the other string is its first line
    followed by one indented line for each column, in the order of the
    columns. *)
Theorem getHeaderString_joins_names (r : reader) :
  getHeaderString r
  = Some (String.concat (String tab EmptyString) (column_names_ r))
  /\ getAvailableColumnsString r
     = Some ("Available columns:" ++ String newline EmptyString
             ++ String.concat EmptyString
                  ((fun name => "  " ++ name ++ String newline EmptyString)
                     <$> column_names_ r))%string
  /\ (forall col_idx,
        0 <= col_idx ->
        is_Some (getColumnName r col_idx) <-> col_idx < numCols r).
Proof.
  split; [ | split].
  - unfold getHeaderString, numCols.
    destruct (column_names_ r) as [ | name names] eqn:Hnames; [done | ].
    cbn [length].
    destruct (Z.eqb_spec (Z.of_nat (S (length names))) 0) as [H0 | H0]; [lia | ].
    unfold put_column_name at 2, getColumnName. rewrite Hnames.
    change ((name :: names) !! Z.to_nat 0) with (Some name).
    cbv beta iota.
    replace (Z.of_nat (S (length names)) - 1) with (Z.of_nat (length names))
      by lia.
    rewrite (put_column_names_from r _ _ names [name] 1 _ Hnames eq_refl).
    f_equal. rewrite concat_tab_names.
    change (EmptyString ++ ?x)%string with x. rewrite append_empty_r.
    destruct names as [ | name' names].
    + cbn. by rewrite append_empty_r.
    + done.
  - unfold getAvailableColumnsString, numCols.
    rewrite (put_column_names_from r _ _ (column_names_ r) [] 0 _ eq_refl eq_refl).
    by rewrite append_assoc.
  - intros col_idx Hidx. unfold getColumnName, numCols.
    rewrite lookup_lt_is_Some. lia.
Qed.

(** X19.  [loadData] sets [has_current_] only by way of [next()]: on a
    file that cannot be opened the reader keeps [has_next_] and
    [has_current_] as they were and one error line is printed; on an
    empty file read with a header one warning line is printed; and on a
    file that holds the header line only nothing is printed.  In the
    last two cases [has_next_] is false and [has_current_] is as it was
    before the call, so that [hasNext()] answers what [has_current_]
    held before the file was loaded. *)
Theorem loadData_without_rows
    (tokenize : string -> list string -> ascii -> list string)
    (fs : file_system) (file_name : string) (r : reader) (lg : Carp.log) :
  let r' := fst (loadData tokenize fs file_name true r lg) in
  let lg' := snd (loadData tokenize fs file_name true r lg) in
  (fs file_name = None ->
   hasNext r' = hasNext r
   /\ lg' = lg ++ [Carp.Entry Carp.CARP_ERROR
                     ("Opening " ++ file_name ++ " or reading failed")])
  /\ (fs file_name = Some [] ->
      hasNext r' = has_current_ r
      /\ lg' = lg ++ [Carp.Entry Carp.CARP_WARNING "No data/headers found!"])
  /\ (forall header, fs file_name = Some [header] ->
        hasNext r' = has_current_ r
        /\ column_names_ r' = tokenize header [] tab
        /\ lg' = lg).
Proof.
  intros r' lg'. subst r' lg'. unfold loadData, hasNext.
  split; [ | split].
  - intros Hfile. by rewrite Hfile.
  - intros Hfile. by rewrite Hfile.
  - intros header Hfile. by rewrite Hfile.
Qed.

(** X20.  On a row that [next()] has padded, the cell of a column that
    the row did not reach is the empty string: asked for by the name of
    the column, [getString] returns the empty string and [getDouble]
    returns 0.0, while [getFloat] hands the empty string to the parser
    with its uninitialised local. *)
Theorem named_numbers_on_padded_cell
    (tokenize : string -> list string -> ascii -> list string)
    (from_string : spec_float -> string -> spec_float) (type_ans : spec_float)
    (r : reader) (lg : Carp.log) (column_name : string) :
  has_next_ r = true ->
  column_name ∈ column_names_ r ->
  (length (tokenize (next_data_string_ r) (data_ r) tab)
   <= Z.to_nat (findColumn r column_name))%nat ->
  let r' := fst (next tokenize r lg) in
  getString_named r' column_name = Carp.Done (Some EmptyString)
  /\ getDouble_named from_string type_ans r' column_name
     = Carp.Done (Some CFloat.zero)
  /\ getFloat_named from_string type_ans r' column_name
     = Carp.Done (Some (from_string type_ans EmptyString)).
Proof.
  intros Hnext Hin Hshort r'.
  destruct (findColumn_from_absent (column_names_ r) column_name 0 ltac:(lia))
    as [Habs Hrange].
  assert (Hfound : findColumn r column_name <> -1)
    by (unfold findColumn; by rewrite Habs; intros Hnot).
  specialize (Hrange Hfound). fold (findColumn r column_name) in Hrange.
  assert (Hsame : findColumn r' column_name = findColumn r column_name)
    by (unfold findColumn; subst r'; by rewrite next_column_names).
  assert (Hcell : getString r' (Z.to_nat (findColumn r column_name))
                  = Some EmptyString).
  { unfold getString. subst r'.
    rewrite next_data_covers_header by (done || lia).
    by rewrite (proj2 (lookup_ge_None _ _) Hshort). }
  apply Z.eqb_neq in Hfound.
  unfold getString_named, getDouble_named, getFloat_named.
  rewrite Hsame, Hfound.
  split; [by rewrite Hcell | ]. split.
  - by rewrite (getDouble_empty _ _ _ _ Hcell).
  - by rewrite (getFloat_empty _ _ _ _ Hcell).
Qed.

Lemma named_numbers_on_padded_cell_witness :
  let r := Reader "psms.txt" true false ["scan"; "score"]%string [] 0
             EmptyString "7"%string true false false (Some []) in
  has_next_ r = true
  /\ getDouble_named from_string_digits S754_nan
       (fst (next split_tokenize r [])) "score"
     = Carp.Done (Some CFloat.zero)
  /\ getFloat_named from_string_digits S754_nan
       (fst (next split_tokenize r [])) "score"
     = Carp.Done (Some S754_nan).
Proof.
  intros r. split; [reflexivity | ].
  assert (Hin : "score"%string ∈ column_names_ r)
    by (apply elem_of_cons; right; apply elem_of_cons; by left).
  destruct (named_numbers_on_padded_cell split_tokenize from_string_digits
              S754_nan r [] "score" eq_refl Hin ltac:(vm_compute; lia))
    as (_ & Hdouble & Hfloat).
  split; [exact Hdouble | exact Hfloat].
Defined.


End DelimitedFileReaderFacts.

(** ** The print-processed-spectra command *)

Module PrintProcessedSpectraFacts.
Import PrintProcessedSpectra.

Lemma stop_after_guard (v : string) :
  string_neq v "discretize" && string_neq v "remove-precursor"
  && string_neq v "square-root" && string_neq v "remove-grass"
  && string_neq v "ten-bin" && string_neq v "xcorr"
  = negb (bool_decide (v ∈ stages)).
Proof.
  unfold string_neq, stages.
  destruct (String.eqb_spec v "discretize") as [-> | H1]; [reflexivity | ].
  destruct (String.eqb_spec v "remove-precursor") as [-> | H2]; [reflexivity | ].
  destruct (String.eqb_spec v "square-root") as [-> | H3]; [reflexivity | ].
  destruct (String.eqb_spec v "remove-grass") as [-> | H4]; [reflexivity | ].
  destruct (String.eqb_spec v "ten-bin") as [-> | H5]; [reflexivity | ].
  destruct (String.eqb_spec v "xcorr") as [-> | H6]; [reflexivity | ].
  cbn. symmetry. apply negb_true_iff, bool_decide_eq_false.
  intros Hin.
  repeat (apply elem_of_cons in Hin as [-> | Hin]; [done | ]).
  by apply elem_of_nil in Hin.
Qed.

Section WithCollaborators.
Variable prefix_fileroot_to_name : string -> string.
Variable spectra_readable : string -> bool.

Local Abbreviation main := (main prefix_fileroot_to_name spectra_readable).

Lemma main_invalid (p : Params.parameters) (argv : list string) :
  Params.get_string_parameter p "stop-after" ∉ stages ->
  main p argv
  = ([Initialize argv],
     Carp.Fatal (invalid_stop_after_message
                   (Params.get_string_parameter p "stop-after"))).
Proof.
  intros Hv. unfold PrintProcessedSpectra.main.
  rewrite stop_after_guard. by rewrite bool_decide_eq_false_2.
Qed.

Lemma main_valid (p : Params.parameters) (argv : list string) :
  Params.get_string_parameter p "stop-after" ∈ stages ->
  exists rest out,
    main p argv
    = ([Initialize argv;
        CreateOutputDirectory (Params.get_string_parameter p "output-dir")
                              (Params.get_boolean_parameter p "overwrite");
        CreateFileInPath
          (prefix_fileroot_to_name (Params.get_string_parameter p "output file"))
          (Params.get_string_parameter p "output-dir")
          (Params.get_boolean_parameter p "overwrite")] ++ rest, out)
    /\ out <> Carp.Fatal (invalid_stop_after_message
                            (Params.get_string_parameter p "stop-after")).
Proof.
  intros Hv. unfold PrintProcessedSpectra.main.
  rewrite stop_after_guard. rewrite bool_decide_eq_true_2 by done. cbn [negb].
  destruct (spectra_readable _).
  - eexists [_], _. cbn. split; [reflexivity | discriminate].
  - eexists [], _. cbn. split; [reflexivity | ].
    intros Heq. injection Heq as Heq. discriminate Heq.
Qed.
End WithCollaborators.




(** X17.  With a valid [stop-after], [main] has created the output
    directory and the output file, in this order, before it finds out
    whether the spectra can be read: when they cannot, the run ends in
    the fatal error on the spectra with both already created and no
    spectrum processed; when they can, the spectra are processed after
    the two creations and [main] returns 0.  So [main] returns 0 exactly
    when the spectra can be read. *)
Theorem main_creates_output_before_reading
    (prefix_fileroot_to_name : string -> string)
    (spectra_readable : string -> bool)
    (p : Params.parameters) (argv : list string) :
  Params.get_string_parameter p "stop-after" ∈ stages ->
  let input_ms2_name := Params.get_string_parameter p "ms2 file" in
  let output_ms2_name :=
    prefix_fileroot_to_name (Params.get_string_parameter p "output file") in
  let created :=
    [Initialize argv;
     CreateOutputDirectory (Params.get_string_parameter p "output-dir")
                           (Params.get_boolean_parameter p "overwrite");
     CreateFileInPath output_ms2_name
                      (Params.get_string_parameter p "output-dir")
                      (Params.get_boolean_parameter p "overwrite")] in
  let run := main prefix_fileroot_to_name spectra_readable p argv in
  (spectra_readable input_ms2_name = false ->
   run = (created,
          Carp.Fatal ("Could not read spectra from " ++ input_ms2_name ++ ".")))
  /\ (spectra_readable input_ms2_name = true ->
      run = (created
             ++ [ProcessSpectra input_ms2_name
                   (Params.get_string_parameter p "stop-after") output_ms2_name],
             Carp.Done 0))
  /\ (snd run = Carp.Done 0 <-> spectra_readable input_ms2_name = true).
Proof.
  intros Hv input_ms2_name output_ms2_name created run.
  subst run. unfold main. rewrite stop_after_guard.
  rewrite bool_decide_eq_true_2 by done. cbn [negb app].
  fold input_ms2_name.
  destruct (spectra_readable input_ms2_name); cbn [negb snd].
  - split; [done | ]. split; [done | ]. done.
  - split; [done | ]. split; [done | ]. split; intros H; discriminate H.
Qed.

Lemma main_creates_output_before_reading_witness :
  "xcorr"%string ∈ stages
  /\ main id (fun _ => false) (with_stop_after "xcorr") ["crux"]%string
     = ([Initialize ["crux"]%string;
         CreateOutputDirectory "output-dir" false;
         CreateFileInPath "output file" "output-dir" false],
        Carp.Fatal "Could not read spectra from ms2 file.").
Proof.
  assert (Hv : "xcorr"%string ∈ stages).
  { unfold stages. do 5 (apply elem_of_cons; right). apply elem_of_cons. by left. }
  split; [exact Hv | ].
  destruct (main_creates_output_before_reading id (fun _ => false)
              (with_stop_after "xcorr") ["crux"]%string Hv) as [Hrun _].
  by apply Hrun.
Defined.


End PrintProcessedSpectraFacts.

(** ** The output files *)

Module OutputFilesFacts.
Import OutputFiles.

(** Filling an array cell by cell, from the first free index on. *)
Lemma fill_from (label : Z -> string) (count : nat) :
  forall (filled : list string) (first : Z),
    first = Z.of_nat (length filled) ->
    foldl (fun l file_idx => <[Z.to_nat file_idx := label file_idx]> l)
          (filled ++ replicate count EmptyString)
          (seqZ first (Z.of_nat count))
    = filled ++ (label <$> seqZ first (Z.of_nat count)).
Proof.
  induction count as [ | count IH]; intros filled first Hfirst.
  - done.
  - rewrite seqZ_cons by lia.
    replace (Z.pred (Z.of_nat (S count))) with (Z.of_nat count) by lia.
    cbn [foldl replicate fmap list_fmap].
    rewrite insert_app_r_alt by lia.
    replace (Z.to_nat first - length filled)%nat with 0%nat by lia.
    cbn [insert list_insert].
    rewrite (cons_middle (label first) filled), app_assoc.
    rewrite IH by (rewrite length_app; cbn; lia).
    by rewrite <- app_assoc.
Qed.

Lemma makeTargetDecoyList_one_decoy :
  makeTargetDecoyList 2 = ["target"; "decoy"]%string.
Proof. reflexivity. Qed.

Lemma makeTargetDecoyList_three_decoys :
  makeTargetDecoyList 4 = ["target"; "decoy-1"; "decoy-2"; "decoy-3"]%string.
Proof. reflexivity. Qed.

Lemma makeTargetDecoyList_numbered (k : Z) :
  0 <= k -> k <> 1 ->
  makeTargetDecoyList (1 + k)
  = "target"%string
    :: ((fun i => ("decoy-" ++ Carp.fmt_int i)%string) <$> seqZ 1 k).
Proof.
  intros Hk Hne. unfold makeTargetDecoyList.
  destruct (1 + k =? 2) eqn:Heq; [lia | ].
  replace (Z.to_nat (1 + k)) with (S (Z.to_nat k)) by lia.
  replace (1 + k - 1) with (Z.of_nat (Z.to_nat k)) by lia.
  cbn [replicate insert list_insert].
  rewrite (fill_from _ (Z.to_nat k) ["target"%string] 1) by done.
  replace (Z.of_nat (Z.to_nat k)) with k by lia. done.
Qed.

(** C7, as the code has it.  With [k >= 1] decoy files, that is
    [num_files_ = 1 + k], [makeTargetDecoyList] yields [1 + k] labels of
    which the first is "target"; they are "target", "decoy" when
    [k = 1], and "target", "decoy-1", ..., "decoy-k" in this order when
    [k >= 2].  The search and sequest commands run it with [k] the
    parameter [num-decoy-files]; for every other command the
    constructor sets [num_files_] to 1 and the list is "target" alone,
    whatever [num-decoy-files] holds. *)
Theorem makeTargetDecoyList_labels (k : Z) :
  1 <= k ->
  length (makeTargetDecoyList (1 + k)) = Z.to_nat (1 + k)
  /\ makeTargetDecoyList (1 + k) !! 0%nat = Some "target"%string
  /\ (k = 1 -> makeTargetDecoyList (1 + k) = ["target"; "decoy"]%string)
  /\ (2 <= k ->
      makeTargetDecoyList (1 + k)
      = "target"%string
        :: ((fun i => ("decoy-" ++ Carp.fmt_int i)%string) <$> seqZ 1 k))
  /\ (forall MC Sp Sc stem (p : Params.parameters) command,
        Params.get_int_parameter p "num-decoy-files" = k ->
        command = SEARCH_COMMAND \/ command = SEQUEST_COMMAND ->
        target_decoy_list_ (OutputFiles MC Sp Sc stem command p)
        = makeTargetDecoyList (1 + k))
  /\ (forall MC Sp Sc stem (p : Params.parameters) command,
        Params.get_int_parameter p "num-decoy-files" = k ->
        command <> SEARCH_COMMAND -> command <> SEQUEST_COMMAND ->
        target_decoy_list_ (OutputFiles MC Sp Sc stem command p)
        = ["target"%string]).
Proof.
  intros Hk.
  assert (Hcases : k = 1 \/ 2 <= k) by lia.
  split; [ | split; [ | split; [ | split; [ | split]]]];
    [ | | | | | intros MC Sp Sc stem p command _ Hsearch Hsequest;
              by destruct command ].
  - destruct Hcases as [-> | H2]; [reflexivity | ].
    rewrite makeTargetDecoyList_numbered by lia.
    cbn [length]. rewrite length_fmap, length_seqZ. lia.
  - destruct Hcases as [-> | H2]; [reflexivity | ].
    by rewrite makeTargetDecoyList_numbered by lia.
  - intros ->. reflexivity.
  - intros H2. apply makeTargetDecoyList_numbered; lia.
  - intros MC Sp Sc stem p command Hp Hc. unfold OutputFiles. cbn.
    rewrite Hp. destruct Hc as [-> | ->]; cbn; f_equal; lia.
Qed.

Lemma makeTargetDecoyList_labels_witness :
  1 <= 3
  /\ makeTargetDecoyList (1 + 3)
     = ["target"; "decoy-1"; "decoy-2"; "decoy-3"]%string.
Proof.
  split; [lia | ].
  destruct (makeTargetDecoyList_labels 3 ltac:(lia)) as (_ & _ & _ & H & _).
  rewrite H by lia. reflexivity.
Defined.

(** Against the claim as the specification words it: the percolator
    command with three decoy files has the one label "target", not
    four labels. *)
Lemma percolator_labels_are_target_only :
  1 <= Params.get_int_parameter (with_decoy_files 3) "num-decoy-files"
  /\ target_decoy_list_ (run_of PERCOLATOR_COMMAND 3) = ["target"%string]
  /\ length (target_decoy_list_ (run_of PERCOLATOR_COMMAND 3)) <> Z.to_nat (1 + 3)
  /\ target_decoy_list_ (run_of PERCOLATOR_COMMAND 3)
     <> ["target"; "decoy-1"; "decoy-2"; "decoy-3"]%string.
Proof.
  split; [by vm_compute | ]. split; [reflexivity | ].
  split; [by vm_compute | discriminate].
Qed.

Section WithCollections.
Context {MATCH_COLLECTION_T Spectrum SCORER_TYPE_T : Type}.

Local Abbreviation output_files :=
  (output_files MATCH_COLLECTION_T Spectrum SCORER_TYPE_T).
Local Abbreviation file := (file MATCH_COLLECTION_T Spectrum SCORER_TYPE_T).
Local Abbreviation written := (written MATCH_COLLECTION_T Spectrum SCORER_TYPE_T).

(** A loop that puts one record into each file of an array of
    [num_files_] files puts it into every file. *)
Lemma put_each_from (w : written) (rest : list file) :
  forall (done_ : list file) (first : Z),
    first = Z.of_nat (length done_) ->
    foldl (fun files file_idx => put_at w file_idx files)
          (done_ ++ rest) (seqZ first (Z.of_nat (length rest)))
    = done_ ++ (put w <$> rest).
Proof.
  induction rest as [ | f rest IH]; intros done_ first Hfirst.
  - done.
  - cbn [length]. rewrite seqZ_cons by lia.
    replace (Z.pred (Z.of_nat (S (length rest)))) with (Z.of_nat (length rest))
      by lia.
    cbn [foldl fmap list_fmap]. unfold put_at at 2.
    replace (Z.to_nat first) with (length done_ + 0)%nat by lia.
    rewrite alter_app_r. cbn [alter list_alter].
    rewrite (cons_middle (put w f) done_), app_assoc.
    rewrite IH by (rewrite length_app; cbn; lia).
    by rewrite <- app_assoc.
Qed.

Lemma put_each (w : written) (files : list file) (n : Z) :
  Z.of_nat (length files) = n ->
  foldl (fun files file_idx => put_at w file_idx files) files (seqZ 0 n)
  = put w <$> files.
Proof.
  intros <-. exact (put_each_from w files [] 0 eq_refl).
Qed.

Lemma footers_put_footer (f : file) : footers (put XmlFooter f) = S (footers f).
Proof.
  unfold footers, put. cbn [content].
  rewrite filter_app, length_app, filter_cons_True by done.
  rewrite filter_nil. cbn [length]. lia.
Qed.

Lemma writeFooters_sized (o : output_files) :
  arrays_sized o -> arrays_sized (writeFooters o).
Proof.
  intros Hsized. pose proof Hsized as (Hn & Hd & Hs & Hx). unfold writeFooters.
  destruct (xml_file_array_ o) as [xml | ] eqn:Hxml; [ | exact Hsized].
  split; [done | ]. split; [done | ]. split; [done | ]. cbn.
  intros a Ha. injection Ha as <-.
  rewrite put_each by (by apply Hx). rewrite length_fmap. by apply Hx.
Qed.

(** What one call of [writeFooters] does. *)
Lemma writeFooters_once (o : output_files) :
  arrays_sized o ->
  xml_file_array_ (writeFooters o) = put_all XmlFooter <$> xml_file_array_ o
  /\ xml_footers (writeFooters o) = S <$> xml_footers o
  /\ delim_file_array_ (writeFooters o) = delim_file_array_ o
  /\ sqt_file_array_ (writeFooters o) = sqt_file_array_ o
  /\ feature_file_ (writeFooters o) = feature_file_ o
  /\ num_files_ (writeFooters o) = num_files_ o.
Proof.
  intros (Hn & Hd & Hs & Hx). unfold writeFooters, xml_footers.
  destruct (xml_file_array_ o) as [xml | ] eqn:Hxml; cbn; [ | by rewrite Hxml].
  rewrite put_each by (by apply Hx).
  split; [done | ]. split; [ | done].
  rewrite <- !list_fmap_compose. apply list_fmap_ext.
  intros i f _. cbn. apply footers_put_footer.
Qed.
End WithCollections.

(** C3, as the code has it.  Each call of [writeFooters] puts exactly
    one footer at the end of every file of the XML array, whatever the
    files hold (matches or none), and leaves the other files alone.  It
    keeps no record of having run: a second call puts a second footer
    into every XML file. *)
Theorem writeFooters_appends_one_footer
    {MATCH_COLLECTION_T Spectrum SCORER_TYPE_T : Type}
    (o : output_files MATCH_COLLECTION_T Spectrum SCORER_TYPE_T) :
  arrays_sized o ->
  xml_file_array_ (writeFooters o) = put_all XmlFooter <$> xml_file_array_ o
  /\ xml_footers (writeFooters o) = S <$> xml_footers o
  /\ xml_footers (writeFooters (writeFooters o)) = (fun n => S (S n)) <$> xml_footers o
  /\ delim_file_array_ (writeFooters o) = delim_file_array_ o
  /\ sqt_file_array_ (writeFooters o) = sqt_file_array_ o
  /\ feature_file_ (writeFooters o) = feature_file_ o.
Proof.
  intros Hsized.
  destruct (writeFooters_once o Hsized) as (Hxml & Hfoot & Hd & Hs & Hf & _).
  destruct (writeFooters_once (writeFooters o) (writeFooters_sized o Hsized))
    as (_ & Hfoot2 & _).
  split; [done | ]. split; [done | ]. split; [ | done].
  rewrite Hfoot2, Hfoot. by rewrite <- list_fmap_compose.
Qed.

Lemma run_of_sized (command : COMMAND_T) (k : Z) :
  0 <= k -> arrays_sized (run_of command k).
Proof.
  intros Hk. unfold arrays_sized, run_of, OutputFiles. cbn.
  set (n := if negb (command_eqb command SEARCH_COMMAND)
               && negb (command_eqb command SEQUEST_COMMAND)
            then 1 else k + 1).
  assert (Hn : 0 < n) by (subst n; destruct (_ && _); lia).
  unfold createFiles_writer, createFiles_FILE.
  destruct (n =? 0) eqn:H0; [lia | ].
  split; [lia | ].
  split; [ | split].
  - intros a Ha. injection Ha as <-. rewrite length_fmap, length_seqZ. lia.
  - intros a. destruct (command_eqb command SEQUEST_COMMAND); [ | done].
    intros Ha. injection Ha as <-. rewrite length_fmap, length_seqZ. lia.
  - intros a. destruct (negb (command_eqb command SPECTRAL_COUNTS_COMMAND)); [ | done].
    intros Ha. injection Ha as <-. rewrite length_fmap, length_seqZ. lia.
Qed.

Lemma writeFooters_appends_one_footer_witness :
  arrays_sized (run_of SEARCH_COMMAND 1)
  /\ xml_footers (run_of SEARCH_COMMAND 1) = [0; 0]%nat
  /\ xml_footers (writeFooters (run_of SEARCH_COMMAND 1)) = [1; 1]%nat
  /\ xml_footers (writeFooters (writeFooters (run_of SEARCH_COMMAND 1))) = [2; 2]%nat.
Proof.
  assert (Hsized : arrays_sized (run_of SEARCH_COMMAND 1))
    by (apply run_of_sized; lia).
  split; [exact Hsized | ]. split; [reflexivity | ].
  destruct (writeFooters_appends_one_footer (run_of SEARCH_COMMAND 1) Hsized)
    as (_ & H1 & H2 & _).
  split; [rewrite H1 | rewrite H2]; reflexivity.
Defined.

(** C3 as stated fails: on the two XML files of a search run with one
    decoy file, to which no match was written, the second call of
    [writeFooters] changes the files again, and each XML file ends with
    two footers. *)
Lemma writeFooters_twice_duplicates_footer :
  let o := writeHeaders 0 (run_of SEARCH_COMMAND 1) in
  writeFooters (writeFooters o) <> writeFooters o
  /\ xml_footers (writeFooters o) = [1; 1]%nat
  /\ xml_footers (writeFooters (writeFooters o)) = [2; 2]%nat
  /\ (content <$> default [] (xml_file_array_ (writeFooters (writeFooters o))))
     = [[XmlHeader; XmlFooter; XmlFooter]; [XmlHeader; XmlFooter; XmlFooter]].
Proof.
  intros o. split; [ | split; [reflexivity | split; reflexivity]].
  intros Heq. apply (f_equal xml_footers) in Heq. vm_compute in Heq. discriminate Heq.
Qed.

(** C10.  With a null target collection [writeMatches] returns at
    once, whatever the state and whatever the vector of decoy
    collections, of the expected size or not: it does not end in a fatal
    error, and the object is as before, every file of the three arrays
    and the feature file with it.  The count of the decoy collections is
    not looked at: the same vector with a target collection ends in the
    fatal error when its size is not [num_files_ - 1]. *)
Theorem writeMatches_null_target_returns
    {MATCH_COLLECTION_T Spectrum SCORER_TYPE_T : Type}
    (o : output_files MATCH_COLLECTION_T Spectrum SCORER_TYPE_T)
    (decoy_matches_array : list (option MATCH_COLLECTION_T))
    (rank_type : SCORER_TYPE_T) (spectrum : option Spectrum) :
  let result := writeMatches None decoy_matches_array rank_type spectrum o in
  result = Carp.Done o
  /\ Carp.is_fatal result = false
  /\ (forall o', result = Carp.Done o' ->
        delim_file_array_ o' = delim_file_array_ o
        /\ sqt_file_array_ o' = sqt_file_array_ o
        /\ xml_file_array_ o' = xml_file_array_ o
        /\ feature_file_ o' = feature_file_ o
        /\ index o' = index o
        /\ diagnostics o' = diagnostics o)
  /\ (forall target,
        Z.of_nat (length decoy_matches_array) <> num_files_ o - 1 ->
        Carp.is_fatal
          (writeMatches (Some target) decoy_matches_array rank_type spectrum o)
        = true).
Proof.
  intros result.
  assert (Hresult : result = Carp.Done o) by reflexivity.
  split; [exact Hresult | ].
  split; [by rewrite Hresult | ].
  split.
  - intros o' Ho'. rewrite Hresult in Ho'. by injection Ho' as <-.
  - intros target Hsize. unfold writeMatches.
    apply Z.eqb_neq in Hsize. by rewrite Hsize.
Qed.

Lemma num_files_of_command {MC Sp Sc : Type} (stem : COMMAND_T -> string)
    (command : COMMAND_T) (p : Params.parameters) :
  num_files_ (OutputFiles MC Sp Sc stem command p)
  = match command with
    | SEARCH_COMMAND | SEQUEST_COMMAND =>
        Params.get_int_parameter p "num-decoy-files" + 1
    | _ => 1
    end.
Proof. by destruct command. Qed.

(** C2, as the code has it.  A call of [writeMatches] with a target
    collection ends normally exactly when the number of decoy
    collections is [num_files_ - 1], and ends in the fatal error on the
    number of decoy collections otherwise; [num_files_ - 1] is the
    parameter [num-decoy-files] for the search and sequest commands and
    0 for every other command.  A search run with two decoy files that
    is handed a target collection and one decoy collection ends in the
    fatal error. *)
Theorem writeMatches_checks_decoy_count
    {MATCH_COLLECTION_T Spectrum SCORER_TYPE_T : Type}
    (o : output_files MATCH_COLLECTION_T Spectrum SCORER_TYPE_T)
    (target : MATCH_COLLECTION_T)
    (decoy_matches_array : list (option MATCH_COLLECTION_T))
    (rank_type : SCORER_TYPE_T) (spectrum : option Spectrum) :
  let size := Z.of_nat (length decoy_matches_array) in
  let result :=
    writeMatches (Some target) decoy_matches_array rank_type spectrum o in
  ((exists o', result = Carp.Done o') <-> size = num_files_ o - 1)
  /\ (size <> num_files_ o - 1 ->
      result = Carp.Fatal (channel_mismatch_message size (num_files_ o - 1)))
  /\ (forall stem command p,
        num_files_ (OutputFiles MATCH_COLLECTION_T Spectrum SCORER_TYPE_T
                      stem command p) - 1
        = match command with
          | SEARCH_COMMAND | SEQUEST_COMMAND =>
              Params.get_int_parameter p "num-decoy-files"
          | _ => 0
          end)
  /\ writeMatches (Some 0%nat) [Some 1%nat] 0%nat (Some 0%nat)
       (run_of SEARCH_COMMAND 2)
     = Carp.Fatal (channel_mismatch_message 1 2).
Proof.
  intros size result. subst result. unfold writeMatches. fold size.
  destruct (size =? num_files_ o - 1) eqn:Hsize; cbn [negb].
  - apply Z.eqb_eq in Hsize.
    split; [split; [done | eauto] | ]. split; [done | ].
    split; [ | reflexivity].
    intros stem command p. rewrite num_files_of_command. destruct command; lia.
  - apply Z.eqb_neq in Hsize.
    split; [split; [by intros [o' Ho'] | done] | ]. split; [done | ].
    split; [ | reflexivity].
    intros stem command p. rewrite num_files_of_command. destruct command; lia.
Qed.

(** C2 as stated fails.  With [num-decoy-files] = 2 a search run that
    is handed one decoy collection and no target collection ends
    normally; a percolator run ends normally with no decoy collection,
    and in the fatal error with two. *)
Lemma writeMatches_ends_normally_on_other_count :
  Params.get_int_parameter (with_decoy_files 2) "num-decoy-files" = 2
  /\ writeMatches None [Some 1%nat] 0%nat (Some 0%nat) (run_of SEARCH_COMMAND 2)
     = Carp.Done (run_of SEARCH_COMMAND 2)
  /\ Carp.is_fatal
       (writeMatches (Some 0%nat) [] 0%nat (Some 0%nat)
          (run_of PERCOLATOR_COMMAND 2)) = false
  /\ writeMatches (Some 0%nat) [Some 1%nat; Some 2%nat] 0%nat (Some 0%nat)
       (run_of PERCOLATOR_COMMAND 2)
     = Carp.Fatal (channel_mismatch_message 2 0).
Proof. repeat split. Qed.

(** *** Which file receives which collection *)

Section Routing.
Context {MATCH_COLLECTION_T Spectrum SCORER_TYPE_T : Type}.

Local Abbreviation output_files :=
  (output_files MATCH_COLLECTION_T Spectrum SCORER_TYPE_T).
Local Abbreviation file := (file MATCH_COLLECTION_T Spectrum SCORER_TYPE_T).
Local Abbreviation written := (written MATCH_COLLECTION_T Spectrum SCORER_TYPE_T).
Local Abbreviation fan_out :=
  (fan_out MATCH_COLLECTION_T Spectrum SCORER_TYPE_T).

Lemma drop_head {A : Type} (l : list A) (n : nat) (x : A) (rest : list A) :
  drop n l = x :: rest -> l !! n = Some x /\ drop (S n) l = rest.
Proof.
  intros Hdrop. split.
  - rewrite <- (Nat.add_0_r n), <- lookup_drop. by rewrite Hdrop.
  - replace (S n) with (n + 1)%nat by lia.
    rewrite <- drop_drop. by rewrite Hdrop.
Qed.

(** The loop of the three printers, from the file [first] on: the files
    still to come receive the current collection and then the decoy
    collections that follow, one each. *)
Lemma fan_out_from (record_of : option MATCH_COLLECTION_T -> written)
    (decoys : list (option MATCH_COLLECTION_T)) (rest : list file) :
  forall (done_ : list file) (cur : option MATCH_COLLECTION_T)
         (pending : list (option MATCH_COLLECTION_T)) (first : Z),
    first = Z.of_nat (length done_) ->
    drop (length done_) decoys = pending ->
    length rest = S (length pending) ->
    fst (foldl (fan_out record_of decoys) (done_ ++ rest, cur)
               (seqZ first (Z.of_nat (length rest))))
    = done_ ++ zip_with (fun m f => put (record_of m) f) (cur :: pending) rest.
Proof.
  induction rest as [ | f rest IH]; intros done_ cur pending first Hfirst Hdrop Hlen.
  - discriminate Hlen.
  - cbn [length] in *. rewrite seqZ_cons by lia.
    replace (Z.pred (Z.of_nat (S (length rest)))) with (Z.of_nat (length rest))
      by lia.
    cbn [foldl zip_with]. unfold OutputFiles.fan_out at 2. cbn [fst snd].
    unfold put_at.
    replace (Z.to_nat first) with (length done_) by lia.
    assert (Halter : alter (put (record_of cur)) (length done_) (done_ ++ f :: rest)
                     = done_ ++ put (record_of cur) f :: rest).
    { rewrite <- (Nat.add_0_r (length done_)) at 1. by rewrite alter_app_r. }
    rewrite Halter. clear Halter.
    destruct pending as [ | d pending].
    + destruct rest; [ | discriminate Hlen]. cbn.
      by destruct (decoys !! length done_).
    + apply drop_head in Hdrop as [Hd Hdrop]. rewrite Hd.
      rewrite (cons_middle (put (record_of cur) f) done_), app_assoc.
      rewrite (IH _ d pending).
      * by rewrite <- app_assoc.
      * rewrite length_app. cbn. lia.
      * rewrite length_app. cbn. by rewrite Nat.add_1_r.
      * cbn in Hlen. lia.
Qed.

Lemma fan_out_all (record_of : option MATCH_COLLECTION_T -> written)
    (target : option MATCH_COLLECTION_T)
    (decoys : list (option MATCH_COLLECTION_T)) (files : list file) (n : Z) :
  Z.of_nat (length files) = n ->
  Z.of_nat (length decoys) = n - 1 ->
  fst (foldl (fan_out record_of decoys) (files, target) (seqZ 0 n))
  = zip_with (fun m f => put (record_of m) f) (target :: decoys) files.
Proof.
  intros <- Hdecoys.
  apply (fan_out_from record_of decoys files [] target decoys 0).
  - done.
  - done.
  - lia.
Qed.

Lemma printMatchesTab_spectrum (o : output_files)
    (target : option MATCH_COLLECTION_T)
    (decoys : list (option MATCH_COLLECTION_T))
    (rank_type : SCORER_TYPE_T) (sp : Spectrum) :
  (forall a, delim_file_array_ o = Some a -> Z.of_nat (length a) = num_files_ o) ->
  Z.of_nat (length decoys) = num_files_ o - 1 ->
  let o' := printMatchesTab _ _ _ target decoys rank_type (Some sp) o in
  delim_file_array_ o'
  = zip_with (fun m f => put (TabMatches _ _ _ (matches_per_spec_ o) m sp rank_type) f)
             (target :: decoys) <$> delim_file_array_ o
  /\ sqt_file_array_ o' = sqt_file_array_ o
  /\ xml_file_array_ o' = xml_file_array_ o
  /\ index o' = index o
  /\ same_settings o o'.
Proof.
  intros Hsized Hdecoys. unfold printMatchesTab.
  destruct (delim_file_array_ o) as [delim | ] eqn:Hdelim; [ | by cbn].
  match goal with
  | |- context [foldl ?step _ _] =>
      assert (Hloop : forall idxs files cur l,
                fst (fst (foldl step (files, cur, l) idxs))
                = fst (foldl
                         (fan_out
                            (fun m => TabMatches _ _ _ (matches_per_spec_ o) m sp
                                        rank_type)
                            decoys)
                         (files, cur) idxs)
                /\ snd (fst (foldl step (files, cur, l) idxs))
                   = snd (foldl
                            (fan_out
                               (fun m => TabMatches _ _ _ (matches_per_spec_ o) m sp
                                           rank_type)
                               decoys)
                            (files, cur) idxs))
  end.
  { induction idxs as [ | i idxs IH]; intros files cur l; [done | ].
    cbn [foldl]. cbn beta iota.
    destruct (OutputFiles.fan_out _ _ _ _ decoys (files, cur) i)
      as [files' cur'] eqn:Hstep.
    apply IH. }
  match goal with
  | |- context [foldl ?step ?init ?idxs] =>
      specialize (Hloop idxs delim target
                    (Carp.carp Carp.CARP_DETAILED_DEBUG
                       "Writing tab delimited results." (diagnostics o)));
      destruct (foldl step init idxs) as [[files cur'] lg'] eqn:Hfold
  end.
  cbn [fst snd] in Hloop. destruct Hloop as [Hfiles _].
  rewrite fan_out_all in Hfiles by (by auto).
  cbn. by rewrite Hfiles.
Qed.

Lemma printMatchesSqt_spec (o : output_files)
    (target : option MATCH_COLLECTION_T)
    (decoys : list (option MATCH_COLLECTION_T)) (spectrum : option Spectrum) :
  (forall a, sqt_file_array_ o = Some a -> Z.of_nat (length a) = num_files_ o) ->
  Z.of_nat (length decoys) = num_files_ o - 1 ->
  let o' := printMatchesSqt _ _ _ target decoys spectrum o in
  sqt_file_array_ o'
  = zip_with (fun m f => put (SqtMatches _ _ _ (matches_per_spec_ o) m spectrum) f)
             (target :: decoys) <$> sqt_file_array_ o
  /\ delim_file_array_ o' = delim_file_array_ o
  /\ xml_file_array_ o' = xml_file_array_ o
  /\ index o' = index o
  /\ same_settings o o'.
Proof.
  intros Hsized Hdecoys. unfold printMatchesSqt.
  destruct (sqt_file_array_ o) as [sqt | ] eqn:Hsqt; [ | by rewrite Hsqt].
  pose proof (fan_out_all
                (fun m => SqtMatches _ _ _ (matches_per_spec_ o) m spectrum)
                target decoys sqt (num_files_ o) (Hsized _ eq_refl) Hdecoys)
    as Hfiles.
  destruct (foldl _ _ _) as [files cur'].
  cbn [fst] in Hfiles. cbn. by rewrite Hfiles.
Qed.

Lemma printMatchesXml_spec (o : output_files)
    (target : option MATCH_COLLECTION_T)
    (decoys : list (option MATCH_COLLECTION_T)) (spectrum : option Spectrum)
    (rank_type : SCORER_TYPE_T) :
  (forall a, xml_file_array_ o = Some a -> Z.of_nat (length a) = num_files_ o) ->
  Z.of_nat (length decoys) = num_files_ o - 1 ->
  let o' := printMatchesXml _ _ _ target decoys spectrum rank_type o in
  xml_file_array_ o'
  = zip_with (fun m f => put (XmlMatches _ _ _ (matches_per_spec_ o) m spectrum
                                rank_type (index o)) f)
             (target :: decoys) <$> xml_file_array_ o
  /\ delim_file_array_ o' = delim_file_array_ o
  /\ sqt_file_array_ o' = sqt_file_array_ o
  /\ index o' = match xml_file_array_ o with
                | Some _ => index o + 1
                | None => index o
                end
  /\ same_settings o o'.
Proof.
  intros Hsized Hdecoys. unfold printMatchesXml.
  destruct (xml_file_array_ o) as [xml | ] eqn:Hxml; [ | by rewrite Hxml].
  pose proof (fan_out_all
                (fun m => XmlMatches _ _ _ (matches_per_spec_ o) m spectrum
                            rank_type (index o))
                target decoys xml (num_files_ o) (Hsized _ eq_refl) Hdecoys)
    as Hfiles.
  destruct (foldl _ _ _) as [files cur'].
  cbn [fst] in Hfiles. cbn. by rewrite Hfiles.
Qed.
End Routing.


(** X11.  A call of [writeMatches] with a target collection, a spectrum
    and as many decoy collections as there are decoy files ends normally
    and hands the collections out by position: in each of the arrays
    that exist (tab-delimited, SQT, XML) the first file receives the
    target collection and file [i + 1] receives decoy collection [i],
    each file exactly one record, appended to what it held.  The
    counter of the XML printer goes up by one when there are XML files,
    and the arrays keep their size. *)
Theorem writeMatches_routes_by_position
    {MATCH_COLLECTION_T Spectrum SCORER_TYPE_T : Type}
    (o : output_files MATCH_COLLECTION_T Spectrum SCORER_TYPE_T)
    (target : MATCH_COLLECTION_T)
    (decoys : list (option MATCH_COLLECTION_T))
    (rank_type : SCORER_TYPE_T) (sp : Spectrum) :
  arrays_sized o ->
  Z.of_nat (length decoys) = num_files_ o - 1 ->
  exists o',
    writeMatches (Some target) decoys rank_type (Some sp) o = Carp.Done o'
    /\ delim_file_array_ o'
       = zip_with (fun m f => put (TabMatches _ _ _ (matches_per_spec_ o) m sp
                                     rank_type) f)
                  (Some target :: decoys) <$> delim_file_array_ o
    /\ sqt_file_array_ o'
       = zip_with (fun m f => put (SqtMatches _ _ _ (matches_per_spec_ o) m
                                     (Some sp)) f)
                  (Some target :: decoys) <$> sqt_file_array_ o
    /\ xml_file_array_ o'
       = zip_with (fun m f => put (XmlMatches _ _ _ (matches_per_spec_ o) m
                                     (Some sp) rank_type (index o)) f)
                  (Some target :: decoys) <$> xml_file_array_ o
    /\ index o' = match xml_file_array_ o with
                  | Some _ => index o + 1
                  | None => index o
                  end
    /\ same_settings o o'
    /\ arrays_sized o'.
Proof.
  intros (Hn & Hd & Hs & Hx) Hdecoys. unfold writeMatches.
  apply Z.eqb_eq in Hdecoys as Hguard. rewrite Hguard. cbn [negb].
  eexists. split; [reflexivity | ].
  pose proof (printMatchesTab_spectrum o (Some target) decoys rank_type sp
                Hd Hdecoys) as Htab.
  set (o1 := printMatchesTab _ _ _ (Some target) decoys rank_type (Some sp) o)
    in *.
  cbv zeta in Htab.
  destruct Htab as (Hd1 & Hs1 & Hx1 & Hi1 & Hm1 & Hc1 & Hn1 & Hl1 & Hf1).
  assert (Hs' : forall a, sqt_file_array_ o1 = Some a ->
                          Z.of_nat (length a) = num_files_ o1).
  { intros a. rewrite Hs1, Hn1. apply Hs. }
  assert (Hdecoys1 : Z.of_nat (length decoys) = num_files_ o1 - 1)
    by (by rewrite Hn1).
  pose proof (printMatchesSqt_spec o1 (Some target) decoys (Some sp)
                Hs' Hdecoys1) as Hsqt.
  set (o2 := printMatchesSqt _ _ _ (Some target) decoys (Some sp) o1) in *.
  cbv zeta in Hsqt.
  destruct Hsqt as (Hs2 & Hd2 & Hx2 & Hi2 & Hm2 & Hc2 & Hn2 & Hl2 & Hf2).
  assert (Hx' : forall a, xml_file_array_ o2 = Some a ->
                          Z.of_nat (length a) = num_files_ o2).
  { intros a. rewrite Hx2, Hx1, Hn2, Hn1. apply Hx. }
  assert (Hdecoys2 : Z.of_nat (length decoys) = num_files_ o2 - 1)
    by (by rewrite Hn2).
  pose proof (printMatchesXml_spec o2 (Some target) decoys (Some sp) rank_type
                Hx' Hdecoys2) as Hxml.
  set (o3 := printMatchesXml _ _ _ (Some target) decoys (Some sp) rank_type o2)
    in *.
  cbv zeta in Hxml.
  destruct Hxml as (Hx3 & Hd3 & Hs3 & Hi3 & Hm3 & Hc3 & Hn3 & Hl3 & Hf3).
  assert (Hdelim : delim_file_array_ o3
                   = zip_with (fun m f => put (TabMatches _ _ _ (matches_per_spec_ o)
                                                 m sp rank_type) f)
                              (Some target :: decoys) <$> delim_file_array_ o)
    by (by rewrite Hd3, Hd2, Hd1).
  assert (Hsqt : sqt_file_array_ o3
                 = zip_with (fun m f => put (SqtMatches _ _ _ (matches_per_spec_ o)
                                               m (Some sp)) f)
                            (Some target :: decoys) <$> sqt_file_array_ o)
    by (by rewrite Hs3, Hs2, Hm1, Hs1).
  assert (Hxml : xml_file_array_ o3
                 = zip_with (fun m f => put (XmlMatches _ _ _ (matches_per_spec_ o)
                                               m (Some sp) rank_type (index o)) f)
                            (Some target :: decoys) <$> xml_file_array_ o)
    by (by rewrite Hx3, Hm2, Hm1, Hi2, Hi1, Hx2, Hx1).
  assert (Hnum : num_files_ o3 = num_files_ o) by (by rewrite Hn3, Hn2, Hn1).
  assert (Hzip : forall (g : option MATCH_COLLECTION_T ->
                             file MATCH_COLLECTION_T Spectrum SCORER_TYPE_T ->
                             file MATCH_COLLECTION_T Spectrum SCORER_TYPE_T)
                        (arr : option (list (file MATCH_COLLECTION_T Spectrum
                                               SCORER_TYPE_T)))
                        (a : list (file MATCH_COLLECTION_T Spectrum SCORER_TYPE_T)),
             (forall a0, arr = Some a0 -> Z.of_nat (length a0) = num_files_ o) ->
             zip_with g (Some target :: decoys) <$> arr = Some a ->
             Z.of_nat (length a) = num_files_ o).
  { intros g arr a Harr Ha. destruct arr as [a0 | ]; [ | done].
    assert (Heq : a = zip_with g (Some target :: decoys) a0).
    { cbn [fmap option_fmap option_map] in Ha. congruence. }
    rewrite Heq, length_zip_with. cbn [length].
    specialize (Harr a0 eq_refl). lia. }
  split; [exact Hdelim | ]. split; [exact Hsqt | ]. split; [exact Hxml | ].
  split; [by rewrite Hi3, Hx2, Hx1, Hi2, Hi1 | ].
  split.
  { unfold same_settings.
    rewrite Hm3, Hm2, Hm1, Hc3, Hc2, Hc1, Hn3, Hn2, Hn1, Hl3, Hl2, Hl1,
      Hf3, Hf2, Hf1. done. }
  unfold arrays_sized. rewrite Hnum, Hdelim, Hsqt, Hxml.
  split; [exact Hn | ].
  split; [ | split]; intros a Ha.
  - eapply Hzip; [exact Hd | exact Ha].
  - eapply Hzip; [exact Hs | exact Ha].
  - eapply Hzip; [exact Hx | exact Ha].
Qed.

Lemma writeMatches_routes_by_position_witness :
  arrays_sized (run_of SEQUEST_COMMAND 2)
  /\ exists o',
       writeMatches (Some 7%nat) [Some 8%nat; Some 9%nat] 0%nat (Some 3%nat)
         (run_of SEQUEST_COMMAND 2) = Carp.Done o'
       /\ (content <$> default [] (sqt_file_array_ o'))
          = [[SqtMatches _ _ _ 5 (Some 7%nat) (Some 3%nat)];
             [SqtMatches _ _ _ 5 (Some 8%nat) (Some 3%nat)];
             [SqtMatches _ _ _ 5 (Some 9%nat) (Some 3%nat)]].
Proof.
  assert (Hsized : arrays_sized (run_of SEQUEST_COMMAND 2))
    by (apply run_of_sized; lia).
  split; [exact Hsized | ].
  destruct (writeMatches_routes_by_position (run_of SEQUEST_COMMAND 2) 7%nat
              [Some 8%nat; Some 9%nat] 0%nat 3%nat Hsized eq_refl)
    as (o' & Hrun & _ & Hsqt & _).
  exists o'. split; [exact Hrun | ]. rewrite Hsqt. reflexivity.
Defined.


(** *** Headers *)

Section Headers.
Context {MATCH_COLLECTION_T Spectrum SCORER_TYPE_T : Type}.

Local Abbreviation output_files :=
  (output_files MATCH_COLLECTION_T Spectrum SCORER_TYPE_T).
Local Abbreviation file := (file MATCH_COLLECTION_T Spectrum SCORER_TYPE_T).
Local Abbreviation written := (written MATCH_COLLECTION_T Spectrum SCORER_TYPE_T).

(** A loop that puts into file [file_idx] a record made from
    [file_idx]. *)
Lemma put_indexed_from (w : Z -> written) (rest : list file) :
  forall (done_ : list file) (first : Z),
    first = Z.of_nat (length done_) ->
    foldl (fun files file_idx => put_at (w file_idx) file_idx files)
          (done_ ++ rest) (seqZ first (Z.of_nat (length rest)))
    = done_ ++ imap (fun i f => put (w (first + Z.of_nat i)) f) rest.
Proof.
  induction rest as [ | f rest IH]; intros done_ first Hfirst.
  - done.
  - cbn [length]. rewrite seqZ_cons by lia.
    replace (Z.pred (Z.of_nat (S (length rest)))) with (Z.of_nat (length rest))
      by lia.
    cbn [foldl imap]. unfold put_at at 2.
    replace (Z.to_nat first) with (length done_ + 0)%nat by lia.
    rewrite alter_app_r. cbn [alter list_alter].
    rewrite (cons_middle (put (w first) f) done_), app_assoc.
    rewrite IH by (rewrite length_app; cbn; lia).
    rewrite <- app_assoc. cbn [app]. rewrite Z.add_0_r.
    do 2 f_equal. apply imap_ext. intros i x _. cbn. do 2 f_equal. lia.
Qed.

Lemma put_indexed (w : Z -> written) (files : list file) (n : Z) :
  Z.of_nat (length files) = n ->
  foldl (fun files file_idx => put_at (w file_idx) file_idx files) files (seqZ 0 n)
  = imap (fun i f => put (w (Z.of_nat i)) f) files.
Proof.
  intros <-. exact (put_indexed_from w files [] 0 eq_refl).
Qed.

(** The loop of [writeHeaders] is three loops, one for each array. *)
Lemma writeHeaders_loop (num_proteins : Z) (idxs : list Z) :
  forall o : output_files,
    foldl (writeHeaders_body _ _ _ num_proteins) o idxs
    = OutputFilesState (matches_per_spec_ o) (command_ o) (num_files_ o)
        (target_decoy_list_ o)
        ((fun a =>
            foldl (fun files i =>
                     put_at (TabHeader _ _ _ (command_ o) (negb (i =? 0))) i files)
                  a idxs) <$> delim_file_array_ o)
        ((fun a =>
            foldl (fun files i =>
                     put_at (SqtHeader _ _ _
                               (if i =? 0 then "target"%string else "decoy"%string)
                               num_proteins) i files)
                  a idxs) <$> sqt_file_array_ o)
        ((fun a => foldl (fun files i => put_at XmlHeader i files) a idxs)
           <$> xml_file_array_ o)
        (feature_file_ o) (index o) (diagnostics o).
Proof.
  induction idxs as [ | i idxs IH]; intros o.
  - destruct o as [mps c n l delim sqt xml feature idx lg].
    by destruct delim, sqt, xml.
  - cbn [foldl]. rewrite IH. unfold writeHeaders_body.
    destruct o as [mps c n l delim sqt xml feature idx lg].
    by destruct delim, sqt, xml.
Qed.
End Headers.

(** X12.  [writeHeaders] appends exactly one header to every file of
    every array that exists and touches nothing else.  The
    tab-delimited header of the first file is the one of a target file
    and those of all other files are the one of a decoy file; the SQT
    header carries the tag "target" in the first file and the tag
    "decoy" in every other file, also when there are several decoy
    files, whose names carry "decoy-1", "decoy-2" and so on. *)
Theorem writeHeaders_one_header_each
    {MATCH_COLLECTION_T Spectrum SCORER_TYPE_T : Type}
    (o : output_files MATCH_COLLECTION_T Spectrum SCORER_TYPE_T)
    (num_proteins : Z) :
  arrays_sized o ->
  let o' := writeHeaders num_proteins o in
  delim_file_array_ o'
  = imap (fun i f => put (TabHeader _ _ _ (command_ o) (negb (Z.of_nat i =? 0))) f)
      <$> delim_file_array_ o
  /\ sqt_file_array_ o'
     = imap (fun i f =>
               put (SqtHeader _ _ _
                      (if Z.of_nat i =? 0 then "target"%string else "decoy"%string)
                      num_proteins) f)
         <$> sqt_file_array_ o
  /\ xml_file_array_ o' = put_all XmlHeader <$> xml_file_array_ o
  /\ index o' = index o
  /\ diagnostics o' = diagnostics o
  /\ same_settings o o'
  /\ arrays_sized o'.
Proof.
  intros (Hn & Hd & Hs & Hx) o'. subst o'. unfold writeHeaders.
  rewrite writeHeaders_loop. cbn.
  assert (Hdelim :
    (fun a =>
       foldl (fun files i =>
                put_at (TabHeader _ _ _ (command_ o) (negb (i =? 0))) i files)
             a (seqZ 0 (num_files_ o))) <$> delim_file_array_ o
    = imap (fun i f =>
              put (TabHeader _ _ _ (command_ o) (negb (Z.of_nat i =? 0))) f)
        <$> delim_file_array_ o).
  { destruct (delim_file_array_ o) as [a | ]; [ | done]. cbn. f_equal.
    by apply (put_indexed
                (fun i => TabHeader _ _ _ (command_ o) (negb (i =? 0)))), Hd. }
  assert (Hsqt :
    (fun a =>
       foldl (fun files i =>
                put_at (SqtHeader _ _ _
                          (if i =? 0 then "target"%string else "decoy"%string)
                          num_proteins) i files)
             a (seqZ 0 (num_files_ o))) <$> sqt_file_array_ o
    = imap (fun i f =>
              put (SqtHeader _ _ _
                     (if Z.of_nat i =? 0 then "target"%string else "decoy"%string)
                     num_proteins) f)
        <$> sqt_file_array_ o).
  { destruct (sqt_file_array_ o) as [a | ]; [ | done]. cbn. f_equal.
    by apply (put_indexed
                (fun i => SqtHeader _ _ _
                            (if i =? 0 then "target"%string else "decoy"%string)
                            num_proteins)), Hs. }
  assert (Hxml :
    (fun a => foldl (fun files i => put_at XmlHeader i files) a
                    (seqZ 0 (num_files_ o))) <$> xml_file_array_ o
    = put_all XmlHeader <$> xml_file_array_ o).
  { destruct (xml_file_array_ o) as [a | ]; [ | done]. cbn. f_equal.
    by apply put_each, Hx. }
  rewrite Hdelim, Hsqt, Hxml.
  split; [done | ]. split; [done | ]. split; [done | ].
  split; [done | ]. split; [done | ]. split; [done | ].
  unfold arrays_sized. cbn. split; [exact Hn | ].
  split; [ | split]; intros a Ha.
  - destruct (delim_file_array_ o) as [a0 | ]; [ | done].
    cbn in Ha. injection Ha as <-. rewrite length_imap. by apply Hd.
  - destruct (sqt_file_array_ o) as [a0 | ]; [ | done].
    cbn in Ha. injection Ha as <-. rewrite length_imap. by apply Hs.
  - destruct (xml_file_array_ o) as [a0 | ]; [ | done].
    cbn in Ha. injection Ha as <-. unfold put_all. rewrite length_fmap.
    by apply Hx.
Qed.

Lemma writeHeaders_one_header_each_witness :
  arrays_sized (run_of SEQUEST_COMMAND 2)
  /\ (content <$> default [] (sqt_file_array_ (writeHeaders 4 (run_of SEQUEST_COMMAND 2))))
     = [[SqtHeader _ _ _ "target" 4]; [SqtHeader _ _ _ "decoy" 4];
        [SqtHeader _ _ _ "decoy" 4]]
  /\ target_decoy_list_ (writeHeaders 4 (run_of SEQUEST_COMMAND 2))
     = ["target"; "decoy-1"; "decoy-2"]%string.
Proof.
  assert (Hsized : arrays_sized (run_of SEQUEST_COMMAND 2))
    by (apply run_of_sized; lia).
  split; [exact Hsized | ].
  destruct (writeHeaders_one_header_each (run_of SEQUEST_COMMAND 2) 4 Hsized)
    as (_ & Hsqt & _ & _ & _ & (_ & _ & _ & Hlist & _) & _).
  rewrite Hsqt, Hlist. split; reflexivity.
Defined.


(** *** The files the constructor opens *)

Lemma list_ascii_of_string_app (a b : string) :
  list_ascii_of_string (a ++ b)
  = (list_ascii_of_string a ++ list_ascii_of_string b)%list.
Proof.
  induction a as [ | c a IH]; [done | ].
  change (String c a ++ b)%string with (String c (a ++ b)).
  cbn [list_ascii_of_string app]. by rewrite IH.
Qed.

Lemma append_inv_tail (a b x : string) : (a ++ x = b ++ x)%string -> a = b.
Proof.
  intros Heq. apply (f_equal list_ascii_of_string) in Heq.
  rewrite !list_ascii_of_string_app in Heq. apply app_inv_tail in Heq.
  rewrite <- (string_of_list_ascii_of_string a),
    <- (string_of_list_ascii_of_string b).
  by rewrite Heq.
Qed.

Lemma append_inv_head (x a b : string) : (x ++ a = x ++ b)%string -> a = b.
Proof.
  induction x as [ | c x IH]; cbn; [done | ].
  intros Heq. injection Heq as Heq. by apply IH.
Qed.

(** [%d] prints different numbers differently. *)
Lemma fmt_int_inj (a b : Z) : Carp.fmt_int a = Carp.fmt_int b -> a = b.
Proof.
  unfold Carp.fmt_int. intros Heq.
  assert (Hnonnil : forall z, Z.to_int z <> Decimal.Pos Decimal.Nil
                              /\ Z.to_int z <> Decimal.Neg Decimal.Nil).
  { intros [ | p | p]; cbn; split; try discriminate;
      intros Hnil; injection Hnil as Hnil;
      by apply DecimalPos.Unsigned.to_uint_nonnil in Hnil. }
  apply (f_equal DecimalString.NilZero.int_of_string) in Heq.
  rewrite !DecimalString.NilZero.isi in Heq by apply Hnonnil.
  injection Heq as Heq. by apply DecimalZ.to_int_inj.
Qed.

Lemma makeTargetDecoyList_cases (n : Z) :
  1 <= n ->
  makeTargetDecoyList n
  = if n =? 2 then ["target"; "decoy"]%string
    else "target"%string
         :: ((fun i => ("decoy-" ++ Carp.fmt_int i)%string) <$> seqZ 1 (n - 1)).
Proof.
  intros Hn. destruct (n =? 2) eqn:Htwo.
  - apply Z.eqb_eq in Htwo. by subst n.
  - apply Z.eqb_neq in Htwo.
    replace n with (1 + (n - 1)) at 1 by lia.
    apply makeTargetDecoyList_numbered; lia.
Qed.

Lemma makeTargetDecoyList_length (n : Z) :
  1 <= n -> Z.of_nat (length (makeTargetDecoyList n)) = n.
Proof.
  intros Hn. rewrite makeTargetDecoyList_cases by done.
  destruct (n =? 2) eqn:Htwo.
  - apply Z.eqb_eq in Htwo. by subst n.
  - cbn [length]. rewrite length_fmap, length_seqZ. lia.
Qed.

Lemma makeTargetDecoyList_nonempty (n : Z) (label : string) :
  1 <= n -> label ∈ makeTargetDecoyList n -> String.eqb label EmptyString = false.
Proof.
  intros Hn. rewrite makeTargetDecoyList_cases by done.
  destruct (n =? 2).
  - intros Hin.
    repeat (apply elem_of_cons in Hin as [-> | Hin]; [done | ]).
    by apply elem_of_nil in Hin.
  - intros Hin. apply elem_of_cons in Hin as [-> | Hin]; [done | ].
    apply list_elem_of_fmap in Hin as (i & -> & _). done.
Qed.

Lemma makeTargetDecoyList_NoDup (n : Z) : 1 <= n -> NoDup (makeTargetDecoyList n).
Proof.
  intros Hn. rewrite makeTargetDecoyList_cases by done.
  destruct (n =? 2).
  - apply NoDup_cons. split.
    + intros Hin. apply list_elem_of_singleton in Hin. discriminate Hin.
    + apply NoDup_singleton.
  - apply NoDup_cons. split.
    + intros Hin. apply list_elem_of_fmap in Hin as (i & Heq & _).
      discriminate Heq.
    + apply NoDup_fmap_2_strong; [ | apply NoDup_seqZ].
      intros i j _ _ Heq. apply append_inv_head in Heq.
      by apply fmt_int_inj.
Qed.

(** Reading a list cell by cell gives the list back. *)
Lemma nth_seqZ {A : Type} (l : list A) (d : A) (n : Z) :
  Z.of_nat (length l) = n ->
  (fun i => nth (Z.to_nat i) l d) <$> seqZ 0 n = l.
Proof.
  intros <-. apply list_eq. intros i.
  rewrite list_lookup_fmap.
  destruct (l !! i) as [x | ] eqn:Hx.
  - pose proof (lookup_lt_Some _ _ _ Hx) as Hi.
    rewrite (lookup_seqZ_lt 0 _ i) by lia. cbn.
    f_equal. replace (Z.to_nat (0 + Z.of_nat i)) with i by lia.
    by apply nth_lookup_Some.
  - apply lookup_ge_None in Hx.
    rewrite lookup_seqZ_ge by lia. done.
Qed.

Section Names.
Context {MATCH_COLLECTION_T Spectrum SCORER_TYPE_T : Type}.
Variable command_type_to_file_string_ptr : COMMAND_T -> string.

Local Abbreviation makeFileName := (makeFileName command_type_to_file_string_ptr).

(** Two labels that are not empty give two file names. *)
Lemma makeFileName_inj (fileroot : option string) (command : COMMAND_T)
    (extension : string) (directory : option string) (t1 t2 : string) :
  String.eqb t1 EmptyString = false ->
  String.eqb t2 EmptyString = false ->
  makeFileName fileroot command (Some t1) extension directory
  = makeFileName fileroot command (Some t2) extension directory ->
  t1 = t2.
Proof.
  intros H1 H2. unfold OutputFiles.makeFileName. rewrite H1, H2.
  intros Heq. apply append_inv_tail, append_inv_head in Heq.
  by apply append_inv_tail in Heq.
Qed.

Lemma createFiles_writer_names (n : Z) (output_dir : string)
    (fileroot : option string) (command : COMMAND_T) (extension : string)
    (a : list (file MATCH_COLLECTION_T Spectrum SCORER_TYPE_T)) :
  1 <= n ->
  createFiles_writer MATCH_COLLECTION_T Spectrum SCORER_TYPE_T
    command_type_to_file_string_ptr n (makeTargetDecoyList n) output_dir
    fileroot command extension = Some a ->
  Z.of_nat (length a) = n
  /\ (forall f, f ∈ a -> content f = [])
  /\ filename <$> a
     = (fun t => makeFileName fileroot command (Some t) extension
                   (Some output_dir)) <$> makeTargetDecoyList n.
Proof.
  intros Hn. unfold createFiles_writer.
  destruct (n =? 0) eqn:H0; [lia | ]. intros Ha. injection Ha as <-.
  split; [rewrite length_fmap, length_seqZ; lia | ].
  split.
  - intros f Hf. by apply list_elem_of_fmap in Hf as (i & -> & _).
  - rewrite <- list_fmap_compose.
    rewrite <- (nth_seqZ (makeTargetDecoyList n) EmptyString n
                  (makeTargetDecoyList_length n Hn)) at 1.
    by rewrite <- list_fmap_compose.
Qed.

Lemma createFiles_FILE_names (n : Z) (output_dir : string)
    (fileroot : option string) (command : COMMAND_T) (extension : string)
    (a : list (file MATCH_COLLECTION_T Spectrum SCORER_TYPE_T)) :
  1 <= n ->
  createFiles_FILE MATCH_COLLECTION_T Spectrum SCORER_TYPE_T
    command_type_to_file_string_ptr n (makeTargetDecoyList n) output_dir
    fileroot command extension = Some a ->
  Z.of_nat (length a) = n
  /\ (forall f, f ∈ a -> content f = [])
  /\ filename <$> a
     = (fun t => makeFileName fileroot command (Some t) extension None)
         <$> makeTargetDecoyList n.
Proof.
  intros Hn. unfold createFiles_FILE.
  destruct (n =? 0) eqn:H0; [lia | ]. intros Ha. injection Ha as <-.
  split; [rewrite length_fmap, length_seqZ; lia | ].
  split.
  - intros f Hf. by apply list_elem_of_fmap in Hf as (i & -> & _).
  - rewrite <- list_fmap_compose.
    rewrite <- (nth_seqZ (makeTargetDecoyList n) EmptyString n
                  (makeTargetDecoyList_length n Hn)) at 1.
    by rewrite <- list_fmap_compose.
Qed.

Lemma names_NoDup (n : Z) (fileroot : option string) (command : COMMAND_T)
    (extension : string) (directory : option string) :
  1 <= n ->
  NoDup ((fun t => makeFileName fileroot command (Some t) extension directory)
           <$> makeTargetDecoyList n).
Proof.
  intros Hn. apply NoDup_fmap_2_strong; [ | by apply makeTargetDecoyList_NoDup].
  intros t1 t2 Ht1 Ht2. apply makeFileName_inj.
  - by apply (makeTargetDecoyList_nonempty n).
  - by apply (makeTargetDecoyList_nonempty n).
Qed.
End Names.


(** X13.  With a number of decoy files that is not negative, the
    constructor leaves an object in which every array that exists has
    [num_files_] files, all of them empty, and there is a label for each
    file.  The tab-delimited array exists for every command, the SQT
    array for the sequest command only, and the XML array for every
    command but spectral counts. *)
Theorem OutputFiles_opens_channels
    {MATCH_COLLECTION_T Spectrum SCORER_TYPE_T : Type}
    (command_type_to_file_string_ptr : COMMAND_T -> string)
    (program_name : COMMAND_T) (p : Params.parameters) :
  0 <= Params.get_int_parameter p "num-decoy-files" ->
  let o := OutputFiles MATCH_COLLECTION_T Spectrum SCORER_TYPE_T
             command_type_to_file_string_ptr program_name p in
  arrays_sized o
  /\ 1 <= num_files_ o
  /\ Z.of_nat (length (target_decoy_list_ o)) = num_files_ o
  /\ is_Some (delim_file_array_ o)
  /\ (is_Some (sqt_file_array_ o) <-> program_name = SEQUEST_COMMAND)
  /\ (is_Some (xml_file_array_ o) <-> program_name <> SPECTRAL_COUNTS_COMMAND)
  /\ (forall a f,
        delim_file_array_ o = Some a \/ sqt_file_array_ o = Some a
        \/ xml_file_array_ o = Some a ->
        f ∈ a -> content f = []).
Proof.
  intros Hk o. subst o. unfold OutputFiles, arrays_sized.
  cbn [num_files_ target_decoy_list_ delim_file_array_ sqt_file_array_
       xml_file_array_].
  set (n := if negb (command_eqb program_name SEARCH_COMMAND)
               && negb (command_eqb program_name SEQUEST_COMMAND)
            then 1 else Params.get_int_parameter p "num-decoy-files" + 1).
  assert (Hn : 1 <= n) by (subst n; destruct (_ && _); lia).
  set (root := if String.eqb (Params.get_string_parameter p "fileroot") "__NULL_STR"
               then None else Some (Params.get_string_parameter p "fileroot")).
  assert (Hwriter : forall ext, exists a,
            createFiles_writer MATCH_COLLECTION_T Spectrum SCORER_TYPE_T
              command_type_to_file_string_ptr n (makeTargetDecoyList n)
              (Params.get_string_parameter p "output-dir") root program_name ext
            = Some a).
  { intros ext. unfold createFiles_writer.
    destruct (n =? 0) eqn:H0; [lia | ]. by eexists. }
  assert (Hfile : forall ext, exists a,
            createFiles_FILE MATCH_COLLECTION_T Spectrum SCORER_TYPE_T
              command_type_to_file_string_ptr n (makeTargetDecoyList n)
              (Params.get_string_parameter p "output-dir") root program_name ext
            = Some a).
  { intros ext. unfold createFiles_FILE.
    destruct (n =? 0) eqn:H0; [lia | ]. by eexists. }
  assert (Hsqt : forall a,
            (if command_eqb program_name SEQUEST_COMMAND
             then createFiles_FILE MATCH_COLLECTION_T Spectrum SCORER_TYPE_T
                    command_type_to_file_string_ptr n (makeTargetDecoyList n)
                    (Params.get_string_parameter p "output-dir") root
                    program_name "sqt"
             else None) = Some a ->
            Z.of_nat (length a) = n /\ forall f, f ∈ a -> content f = []).
  { intros a. destruct (command_eqb program_name SEQUEST_COMMAND); [ | done].
    intros Ha. by destruct (createFiles_FILE_names _ _ _ _ _ _ _ Hn Ha) as (? & ? & _). }
  assert (Hxml : forall a,
            (if negb (command_eqb program_name SPECTRAL_COUNTS_COMMAND)
             then createFiles_FILE MATCH_COLLECTION_T Spectrum SCORER_TYPE_T
                    command_type_to_file_string_ptr n (makeTargetDecoyList n)
                    (Params.get_string_parameter p "output-dir") root
                    program_name "pep.xml"
             else None) = Some a ->
            Z.of_nat (length a) = n /\ forall f, f ∈ a -> content f = []).
  { intros a. destruct (negb (command_eqb program_name SPECTRAL_COUNTS_COMMAND));
      [ | done].
    intros Ha. by destruct (createFiles_FILE_names _ _ _ _ _ _ _ Hn Ha) as (? & ? & _). }
  assert (Hdelim : forall a,
            createFiles_writer MATCH_COLLECTION_T Spectrum SCORER_TYPE_T
              command_type_to_file_string_ptr n (makeTargetDecoyList n)
              (Params.get_string_parameter p "output-dir") root program_name "txt"
            = Some a ->
            Z.of_nat (length a) = n /\ forall f, f ∈ a -> content f = []).
  { intros a Ha.
    by destruct (createFiles_writer_names _ _ _ _ _ _ _ Hn Ha) as (? & ? & _). }
  split.
  { split; [lia | ]. split; [ | split]; intros a Ha.
    - by apply Hdelim. - by apply Hsqt. - by apply Hxml. }
  split; [exact Hn | ].
  split; [by apply makeTargetDecoyList_length | ].
  split.
  { destruct (Hwriter "txt"%string) as [a Ha]. rewrite Ha. by eexists. }
  split.
  { destruct (Hfile "sqt"%string) as [a Ha]. rewrite Ha.
    destruct program_name; cbn; split; intros H; try done;
      by destruct H. }
  split.
  { destruct (Hfile "pep.xml"%string) as [a Ha]. rewrite Ha.
    destruct program_name; cbn; split; intros H; try done;
      by destruct H. }
  intros a f [Ha | [Ha | Ha]] Hf.
  - by apply (Hdelim a Ha).
  - by apply (Hsqt a Ha).
  - by apply (Hxml a Ha).
Qed.

Lemma OutputFiles_opens_channels_witness :
  0 <= Params.get_int_parameter (with_decoy_files 2) "num-decoy-files"
  /\ num_files_ (run_of SEARCH_COMMAND 2) = 3
  /\ sqt_file_array_ (run_of SEARCH_COMMAND 2) = None
  /\ (length <$> xml_file_array_ (run_of SEARCH_COMMAND 2)) = Some 3%nat
  /\ arrays_sized (run_of SEARCH_COMMAND 2).
Proof.
  split; [by vm_compute | ].
  split; [reflexivity | ]. split; [reflexivity | ]. split; [reflexivity | ].
  apply (OutputFiles_opens_channels (MATCH_COLLECTION_T := nat) (Spectrum := nat)
           (SCORER_TYPE_T := nat) file_stem SEARCH_COMMAND (with_decoy_files 2)).
  by vm_compute.
Defined.

(** X14.  With a number of decoy files that is not negative, the labels
    of the files are pairwise different, and so are the names of the
    files within each array the constructor opens: no decoy file takes
    the name of the target file or of another decoy file. *)
Theorem OutputFiles_names_distinct
    {MATCH_COLLECTION_T Spectrum SCORER_TYPE_T : Type}
    (command_type_to_file_string_ptr : COMMAND_T -> string)
    (program_name : COMMAND_T) (p : Params.parameters) :
  0 <= Params.get_int_parameter p "num-decoy-files" ->
  let o := OutputFiles MATCH_COLLECTION_T Spectrum SCORER_TYPE_T
             command_type_to_file_string_ptr program_name p in
  NoDup (target_decoy_list_ o)
  /\ (forall a, delim_file_array_ o = Some a -> NoDup (filename <$> a))
  /\ (forall a, sqt_file_array_ o = Some a -> NoDup (filename <$> a))
  /\ (forall a, xml_file_array_ o = Some a -> NoDup (filename <$> a)).
Proof.
  intros Hk o. subst o. unfold OutputFiles.
  cbn [num_files_ target_decoy_list_ delim_file_array_ sqt_file_array_
       xml_file_array_].
  set (n := if negb (command_eqb program_name SEARCH_COMMAND)
               && negb (command_eqb program_name SEQUEST_COMMAND)
            then 1 else Params.get_int_parameter p "num-decoy-files" + 1).
  assert (Hn : 1 <= n) by (subst n; destruct (_ && _); lia).
  split; [by apply makeTargetDecoyList_NoDup | ].
  split; [ | split]; intros a.
  - intros Ha.
    destruct (createFiles_writer_names _ _ _ _ _ _ _ Hn Ha) as (_ & _ & ->).
    by apply names_NoDup.
  - destruct (command_eqb program_name SEQUEST_COMMAND); [ | done].
    intros Ha.
    destruct (createFiles_FILE_names _ _ _ _ _ _ _ Hn Ha) as (_ & _ & ->).
    by apply names_NoDup.
  - destruct (negb (command_eqb program_name SPECTRAL_COUNTS_COMMAND)); [ | done].
    intros Ha.
    destruct (createFiles_FILE_names _ _ _ _ _ _ _ Hn Ha) as (_ & _ & ->).
    by apply names_NoDup.
Qed.

Lemma OutputFiles_names_distinct_witness :
  0 <= Params.get_int_parameter (with_decoy_files 2) "num-decoy-files"
  /\ ((fun a : list (file nat nat nat) => filename <$> a)
        <$> delim_file_array_ (run_of SEARCH_COMMAND 2))
     = Some ["crux-output/search.target.txt"; "crux-output/search.decoy-1.txt";
             "crux-output/search.decoy-2.txt"]%string
  /\ NoDup (target_decoy_list_ (run_of SEARCH_COMMAND 2)).
Proof.
  split; [by vm_compute | ]. split; [reflexivity | ].
  apply (OutputFiles_names_distinct (MATCH_COLLECTION_T := nat) (Spectrum := nat)
           (SCORER_TYPE_T := nat) file_stem SEARCH_COMMAND (with_decoy_files 2)).
  by vm_compute.
Defined.


(** *** Matches of many spectra *)

Section WithoutSpectrum.
Context {MATCH_COLLECTION_T Spectrum SCORER_TYPE_T : Type}.

Local Abbreviation output_files :=
  (output_files MATCH_COLLECTION_T Spectrum SCORER_TYPE_T).
Local Abbreviation file := (file MATCH_COLLECTION_T Spectrum SCORER_TYPE_T).

(** The SQT and the XML printer, run after the tab-delimited printer has
    left the object [o1]. *)
Lemma printMatchesSqt_Xml (o o1 : output_files)
    (target : option MATCH_COLLECTION_T)
    (decoys : list (option MATCH_COLLECTION_T)) (spectrum : option Spectrum)
    (rank_type : SCORER_TYPE_T) :
  arrays_sized o ->
  Z.of_nat (length decoys) = num_files_ o - 1 ->
  sqt_file_array_ o1 = sqt_file_array_ o ->
  xml_file_array_ o1 = xml_file_array_ o ->
  index o1 = index o ->
  same_settings o o1 ->
  let o3 := printMatchesXml _ _ _ target decoys spectrum rank_type
              (printMatchesSqt _ _ _ target decoys spectrum o1) in
  delim_file_array_ o3 = delim_file_array_ o1
  /\ sqt_file_array_ o3
     = zip_with (fun m f => put (SqtMatches _ _ _ (matches_per_spec_ o) m spectrum) f)
                (target :: decoys) <$> sqt_file_array_ o
  /\ xml_file_array_ o3
     = zip_with (fun m f => put (XmlMatches _ _ _ (matches_per_spec_ o) m spectrum
                                   rank_type (index o)) f)
                (target :: decoys) <$> xml_file_array_ o
  /\ index o3 = match xml_file_array_ o with
                | Some _ => index o + 1
                | None => index o
                end
  /\ same_settings o o3.
Proof.
  intros (Hn & Hd & Hs & Hx) Hdecoys Hs1 Hx1 Hi1 (Hm1 & Hc1 & Hn1 & Hl1 & Hf1).
  assert (Hs' : forall a, sqt_file_array_ o1 = Some a ->
                          Z.of_nat (length a) = num_files_ o1).
  { intros a. rewrite Hs1, Hn1. apply Hs. }
  assert (Hdecoys1 : Z.of_nat (length decoys) = num_files_ o1 - 1)
    by (by rewrite Hn1).
  pose proof (printMatchesSqt_spec o1 target decoys spectrum Hs' Hdecoys1) as Hsqt.
  set (o2 := printMatchesSqt _ _ _ target decoys spectrum o1) in *.
  cbv zeta in Hsqt.
  destruct Hsqt as (Hs2 & Hd2 & Hx2 & Hi2 & Hm2 & Hc2 & Hn2 & Hl2 & Hf2).
  assert (Hx' : forall a, xml_file_array_ o2 = Some a ->
                          Z.of_nat (length a) = num_files_ o2).
  { intros a. rewrite Hx2, Hx1, Hn2, Hn1. apply Hx. }
  assert (Hdecoys2 : Z.of_nat (length decoys) = num_files_ o2 - 1)
    by (by rewrite Hn2).
  pose proof (printMatchesXml_spec o2 target decoys spectrum rank_type
                Hx' Hdecoys2) as Hxml.
  cbv zeta in Hxml |- *.
  set (o3 := printMatchesXml _ _ _ target decoys spectrum rank_type o2) in *.
  destruct Hxml as (Hx3 & Hd3 & Hs3 & Hi3 & Hm3 & Hc3 & Hn3 & Hl3 & Hf3).
  split; [by rewrite Hd3, Hd2 | ].
  split; [by rewrite Hs3, Hs2, Hm1, Hs1 | ].
  split; [by rewrite Hx3, Hm2, Hm1, Hi2, Hi1, Hx2, Hx1 | ].
  split; [by rewrite Hi3, Hx2, Hx1, Hi2, Hi1 | ].
  unfold same_settings.
  rewrite Hm3, Hm2, Hm1, Hc3, Hc2, Hc1, Hn3, Hn2, Hn1, Hl3, Hl2, Hl1,
    Hf3, Hf2, Hf1. done.
Qed.

(** The tab-delimited printer without a spectrum. *)
Lemma printMatchesTab_multi_spectra (o : output_files)
    (target : option MATCH_COLLECTION_T)
    (decoys : list (option MATCH_COLLECTION_T)) (rank_type : SCORER_TYPE_T) :
  (forall a, delim_file_array_ o = Some a -> Z.of_nat (length a) = num_files_ o) ->
  let o' := printMatchesTab _ _ _ target decoys rank_type None o in
  delim_file_array_ o'
  = imap (fun i f =>
            match i with
            | 0%nat => put (TabMultiSpectra _ _ _ target false) f
            | 1%nat => put (TabMultiSpectra _ _ _ target true) f
            | _ => f
            end) <$> delim_file_array_ o
  /\ sqt_file_array_ o' = sqt_file_array_ o
  /\ xml_file_array_ o' = xml_file_array_ o
  /\ index o' = index o
  /\ same_settings o o'.
Proof.
  intros Hsized. unfold printMatchesTab.
  destruct (delim_file_array_ o) as [delim | ] eqn:Hdelim; [ | by cbn].
  specialize (Hsized delim eq_refl).
  cbn [delim_file_array_ sqt_file_array_ xml_file_array_ index].
  split; [ | by cbn].
  cbn [fmap option_fmap option_map]. f_equal.
  destruct delim as [ | f0 [ | f1 rest]].
  - cbn in Hsized. rewrite <- Hsized. done.
  - cbn in Hsized. rewrite <- Hsized. done.
  - assert (Hn : (1 <? num_files_ o) = true)
      by (apply Z.ltb_lt; cbn [length] in Hsized; lia).
    rewrite Hn. unfold put_at.
    change (Z.to_nat 1) with 1%nat. change (Z.to_nat 0) with 0%nat.
    cbn [alter list_alter imap]. do 2 f_equal.
    transitivity (imap (const id) rest).
    + by rewrite imap_const, list_fmap_id.
    + by apply imap_ext.
Qed.
End WithoutSpectrum.


(** X21.  Without a spectrum the decoy collections do not reach the
    tab-delimited files: a call of [writeMatches] with a target
    collection and the expected number of decoy collections puts the
    target collection into the first tab-delimited file and, as the
    decoy file of the printer for many spectra, into the second, and
    leaves every further tab-delimited file as it was.  The SQT and XML
    files still receive the collections by position. *)
Theorem writeMatches_without_spectrum
    {MATCH_COLLECTION_T Spectrum SCORER_TYPE_T : Type}
    (o : output_files MATCH_COLLECTION_T Spectrum SCORER_TYPE_T)
    (target : MATCH_COLLECTION_T)
    (decoys : list (option MATCH_COLLECTION_T)) (rank_type : SCORER_TYPE_T) :
  arrays_sized o ->
  Z.of_nat (length decoys) = num_files_ o - 1 ->
  exists o',
    writeMatches (Some target) decoys rank_type None o = Carp.Done o'
    /\ delim_file_array_ o'
       = imap (fun i f =>
                 match i with
                 | 0%nat => put (TabMultiSpectra _ _ _ (Some target) false) f
                 | 1%nat => put (TabMultiSpectra _ _ _ (Some target) true) f
                 | _ => f
                 end) <$> delim_file_array_ o
    /\ sqt_file_array_ o'
       = zip_with (fun m f => put (SqtMatches _ _ _ (matches_per_spec_ o) m None) f)
                  (Some target :: decoys) <$> sqt_file_array_ o
    /\ xml_file_array_ o'
       = zip_with (fun m f => put (XmlMatches _ _ _ (matches_per_spec_ o) m None
                                     rank_type (index o)) f)
                  (Some target :: decoys) <$> xml_file_array_ o
    /\ same_settings o o'.
Proof.
  intros Hsized Hdecoys. unfold writeMatches.
  apply Z.eqb_eq in Hdecoys as Hguard. rewrite Hguard. cbn [negb].
  eexists. split; [reflexivity | ].
  pose proof Hsized as (_ & Hd & _ & _).
  pose proof (printMatchesTab_multi_spectra o (Some target) decoys rank_type Hd)
    as Htab.
  cbv zeta in Htab. destruct Htab as (Hd1 & Hs1 & Hx1 & Hi1 & Hsame1).
  pose proof (printMatchesSqt_Xml o _ (Some target) decoys None rank_type
                Hsized Hdecoys Hs1 Hx1 Hi1 Hsame1) as Hrest.
  cbv zeta in Hrest. destruct Hrest as (Hd3 & Hs3 & Hx3 & _ & Hsame3).
  split; [by rewrite Hd3, Hd1 | ].
  split; [exact Hs3 | ]. split; [exact Hx3 | exact Hsame3].
Qed.

Lemma writeMatches_without_spectrum_witness :
  arrays_sized (run_of SEARCH_COMMAND 2)
  /\ exists o',
       writeMatches (Some 7%nat) [Some 8%nat; Some 9%nat] 0%nat None
         (run_of SEARCH_COMMAND 2) = Carp.Done o'
       /\ (content <$> default [] (delim_file_array_ o'))
          = [[TabMultiSpectra _ _ _ (Some 7%nat) false];
             [TabMultiSpectra _ _ _ (Some 7%nat) true];
             []].
Proof.
  assert (Hsized : arrays_sized (run_of SEARCH_COMMAND 2))
    by (apply run_of_sized; lia).
  split; [exact Hsized | ].
  destruct (writeMatches_without_spectrum (run_of SEARCH_COMMAND 2) 7%nat
              [Some 8%nat; Some 9%nat] 0%nat Hsized eq_refl)
    as (o' & Hrun & Hdelim & _).
  exists o'. split; [exact Hrun | ]. rewrite Hdelim. reflexivity.
Defined.


(** *** The feature file *)

Lemma occurrences_app (c : ascii) (a b : string) :
  occurrences c (a ++ b) = (occurrences c a + occurrences c b)%nat.
Proof.
  induction a as [ | x a IH]; [done | ].
  change (String x a ++ b)%string with (String x (a ++ b)).
  cbn [occurrences]. rewrite IH. lia.
Qed.

Lemma ends_with_newline_app (s : string) :
  ends_with_newline (s ++ String newline EmptyString) = true.
Proof.
  unfold ends_with_newline.
  rewrite list_ascii_of_string_app, rev_app_distr. done.
Qed.

(** [%i] prints digits and a sign. *)
Lemma occurrences_fmt_int (c : ascii) (z : Z) :
  c = tab \/ c = newline -> occurrences c (Carp.fmt_int z) = 0%nat.
Proof.
  intros Hc.
  assert (Huint : forall d,
            occurrences c (DecimalString.NilEmpty.string_of_uint d) = 0%nat).
  { induction d as [ | d IH | d IH | d IH | d IH | d IH | d IH | d IH | d IH
                     | d IH | d IH];
      cbn [DecimalString.NilEmpty.string_of_uint occurrences];
      [done | | | | | | | | | | ];
      rewrite IH; by destruct Hc as [-> | ->]. }
  assert (Hzero : forall d,
            occurrences c (DecimalString.NilZero.string_of_uint d) = 0%nat).
  { intros d. unfold DecimalString.NilZero.string_of_uint.
    destruct d; try apply Huint. by destruct Hc as [-> | ->]. }
  unfold Carp.fmt_int, DecimalString.NilZero.string_of_int.
  destruct (Z.to_int z) as [d | d]; [apply Hzero | ].
  cbn [occurrences]. rewrite Hzero. by destruct Hc as [-> | ->].
Qed.

Lemma occurrences_concat (c : ascii) (sep : string) (l : list string) :
  (forall s, s ∈ l -> occurrences c s = 0%nat) ->
  occurrences c (String.concat sep l)
  = (pred (length l) * occurrences c sep)%nat.
Proof.
  induction l as [ | s l IH]; intros Hl; [done | ].
  assert (Hs : occurrences c s = 0%nat) by (apply Hl; by left).
  destruct l as [ | s' l]; [cbn; lia | ].
  change (String.concat sep (s :: s' :: l))
    with (s ++ sep ++ String.concat sep (s' :: l))%string.
  rewrite !occurrences_app, Hs, IH by (intros x Hx; apply Hl; by right).
  cbn [length pred]. lia.
Qed.

Section FeatureFile.
Context {A : Type}.
Variable fmt : A -> string.

(** A loop that prints every cell with the same text before and after
    it. *)
Lemma print_cells_from (array : list A) (before after : string)
    (rest : list A) :
  forall (done_ : list A) (first : Z) (s : string),
    array = done_ ++ rest ->
    first = Z.of_nat (length done_) ->
    foldl (print_cell fmt array before after) (Some s)
          (seqZ first (Z.of_nat (length rest)))
    = Some (s ++ String.concat EmptyString
                   ((fun x => before ++ fmt x ++ after) <$> rest))%string.
Proof.
  induction rest as [ | x rest IH]; intros done_ first s Harray Hfirst.
  - cbn. by rewrite DelimitedFileReaderFacts.append_empty_r.
  - cbn [length]. rewrite seqZ_cons by lia.
    replace (Z.pred (Z.of_nat (S (length rest)))) with (Z.of_nat (length rest))
      by lia.
    cbn [foldl]. unfold print_cell at 2.
    replace (array !! Z.to_nat first) with (Some x).
    2: { rewrite Harray. replace (Z.to_nat first) with (length done_ + 0)%nat by lia.
         by rewrite lookup_app_r, Nat.add_0_r, Nat.sub_diag by lia. }
    rewrite (IH (done_ ++ [x]) (Z.succ first)).
    + f_equal. cbn [fmap list_fmap].
      destruct rest as [ | x' rest].
      * cbn. by rewrite !DelimitedFileReaderFacts.append_empty_r.
      * cbn [fmap list_fmap].
        change (String.concat EmptyString (?a :: ?b :: ?l))
          with (a ++ String.concat EmptyString (b :: l))%string.
        by rewrite DelimitedFileReaderFacts.append_assoc.
    + by rewrite <- app_assoc.
    + rewrite length_app. cbn. lia.
Qed.

(** The loop of [writeMatchFeatures]: a tab after every cell but the
    last, a line end after the last. *)
Lemma print_features_from (array : list A) (num_features : Z) (rest : list A) :
  forall (done_ : list A) (first : Z) (s : string),
    array = done_ ++ rest ->
    first = Z.of_nat (length done_) ->
    num_features = Z.of_nat (length array) ->
    rest <> [] ->
    foldl (fun printed feature_idx =>
             if feature_idx <? num_features - 1
             then print_cell fmt array EmptyString (String tab EmptyString)
                    printed feature_idx
             else print_cell fmt array EmptyString (String newline EmptyString)
                    printed feature_idx)
          (Some s) (seqZ first (Z.of_nat (length rest)))
    = Some (s ++ String.concat (String tab EmptyString) (fmt <$> rest)
              ++ String newline EmptyString)%string.
Proof.
  induction rest as [ | x rest IH]; intros done_ first s Harray Hfirst Hnum Hrest;
    [done | ].
  cbn [length]. rewrite seqZ_cons by lia.
  replace (Z.pred (Z.of_nat (S (length rest)))) with (Z.of_nat (length rest))
    by lia.
  cbn [foldl].
  assert (Hlen : num_features = first + 1 + Z.of_nat (length rest)).
  { rewrite Hnum, Harray, length_app. cbn [length]. lia. }
  assert (Hx : array !! Z.to_nat first = Some x).
  { rewrite Harray. replace (Z.to_nat first) with (length done_ + 0)%nat by lia.
    by rewrite lookup_app_r, Nat.add_0_r, Nat.sub_diag by lia. }
  destruct rest as [ | x' rest].
  - destruct (Z.ltb_spec first (num_features - 1)) as [Hlt | Hge];
      [cbn [length] in Hlen; lia | ].
    cbn [foldl seqZ]. unfold print_cell. rewrite Hx. cbn. done.
  - destruct (Z.ltb_spec first (num_features - 1)) as [Hlt | Hge];
      [ | cbn [length] in Hlen; lia].
    unfold print_cell at 3. rewrite Hx.
    rewrite (IH (done_ ++ [x]) (Z.succ first)).
    + f_equal. cbn [fmap list_fmap].
      change (String.concat (String tab EmptyString) (?a :: ?b :: ?l))
        with (a ++ String tab EmptyString
              ++ String.concat (String tab EmptyString) (b :: l))%string.
      change (EmptyString ++ ?a)%string with a.
      by rewrite !DelimitedFileReaderFacts.append_assoc.
    + by rewrite <- app_assoc.
    + rewrite length_app. cbn. lia.
    + done.
    + done.
Qed.
End FeatureFile.


Lemma occurrences_concat_each (c : ascii) (k : nat) (l : list string) :
  (forall s, s ∈ l -> occurrences c s = k) ->
  occurrences c (String.concat EmptyString l) = (length l * k)%nat.
Proof.
  induction l as [ | s l IH]; intros Hl; [done | ].
  assert (Hs : occurrences c s = k) by (apply Hl; by left).
  destruct l as [ | s' l]; [cbn; lia | ].
  change (String.concat EmptyString (s :: s' :: l))
    with (s ++ String.concat EmptyString (s' :: l))%string.
  rewrite occurrences_app, Hs, IH by (intros x Hx; apply Hl; by right).
  cbn [length]. lia.
Qed.

(** X22.  With a feature file open, [n >= 1] feature names and [n]
    features, none of the names and none of the numbers as printed
    holding a tab or a line end, the header of the feature file and
    every row are one line each, ended by a line end, and they have the
    same number of tabs, [n + 1]: the header is "scan", "label" and the
    names, the row is the scan number, the label (1, or -1 for a decoy)
    and the features, with a tab between two fields.  With no feature
    at all no header is printed, and a row is printed without a line
    end. *)
Theorem feature_rows_align_with_header
    {MATCH_COLLECTION_T Spectrum SCORER_TYPE_T : Type}
    (fmt_4f : spec_float -> string)
    (o : output_files MATCH_COLLECTION_T Spectrum SCORER_TYPE_T)
    (names : list string) (features : list spec_float)
    (first_scan : Z) (null_peptide : bool) (n : Z) :
  is_Some (feature_file_ o) ->
  1 <= n -> Z.of_nat (length names) = n -> Z.of_nat (length features) = n ->
  (forall c name, c = tab \/ c = newline -> name ∈ names ->
                  occurrences c name = 0%nat) ->
  (forall c x, c = tab \/ c = newline -> occurrences c (fmt_4f x) = 0%nat) ->
  let header :=
    ("scan" ++ String tab "label"
     ++ String.concat EmptyString ((fun name => String tab name) <$> names)
     ++ String newline EmptyString)%string in
  let row :=
    (Carp.fmt_int first_scan ++ String tab EmptyString
     ++ (if null_peptide then "-1" else "1") ++ String tab EmptyString
     ++ String.concat (String tab EmptyString) (fmt_4f <$> features)
     ++ String newline EmptyString)%string in
  writeFeatureHeader (Some names) n o = Some header
  /\ writeMatchFeatures fmt_4f first_scan null_peptide features n o = Some row
  /\ occurrences tab header = Z.to_nat (n + 1)
  /\ occurrences tab row = Z.to_nat (n + 1)
  /\ occurrences newline header = 1%nat
  /\ occurrences newline row = 1%nat
  /\ ends_with_newline header = true
  /\ ends_with_newline row = true
  /\ writeFeatureHeader (Some names) 0 o = Some EmptyString
  /\ exists row0,
       writeMatchFeatures fmt_4f first_scan null_peptide features 0 o = Some row0
       /\ occurrences newline row0 = 0%nat.
Proof.
  intros [f Hfile] Hn Hnames Hfeatures Hclean_names Hclean_numbers header row.
  assert (Hheader : writeFeatureHeader (Some names) n o = Some header).
  { unfold writeFeatureHeader. rewrite Hfile.
    destruct (Z.eqb_spec n 0) as [H0 | H0]; [lia | ].
    rewrite <- Hnames.
    rewrite (print_cells_from id names _ _ names [] 0 _ eq_refl eq_refl).
    subst header. f_equal.
    replace ((fun x => String tab EmptyString ++ id x ++ EmptyString)%string
               <$> names)
      with ((fun name => String tab name) <$> names).
    2: { apply list_fmap_ext. intros i name _.
         change (String tab EmptyString ++ id name ++ EmptyString)%string
           with (String tab (name ++ EmptyString)).
         by rewrite DelimitedFileReaderFacts.append_empty_r. }
    by rewrite !DelimitedFileReaderFacts.append_assoc. }
  assert (Hrow : writeMatchFeatures fmt_4f first_scan null_peptide features n o
                 = Some row).
  { unfold writeMatchFeatures. rewrite Hfile.
    assert (Hne : features <> []) by (intros ->; cbn in Hfeatures; lia).
    replace (seqZ 0 n) with (seqZ 0 (Z.of_nat (length features)))
      by (by rewrite Hfeatures).
    rewrite (print_features_from fmt_4f features n features [] 0 _ eq_refl eq_refl
               (eq_sym Hfeatures) Hne).
    subst row. f_equal.
    destruct null_peptide; cbn [negb];
      by rewrite !DelimitedFileReaderFacts.append_assoc. }
  assert (Hcount_header : forall c k,
            c = tab \/ c = newline ->
            occurrences c (String tab EmptyString) = k ->
            occurrences c header
            = (occurrences c ("scan" ++ String tab "label")%string
               + length names * k + occurrences c (String newline EmptyString))%nat).
  { intros c k Hc Hk. subst header.
    change ("scan" ++ String tab "label" ++ ?x)%string
      with (("scan" ++ String tab "label") ++ x)%string.
    rewrite !occurrences_app.
    rewrite (occurrences_concat_each c k); [rewrite length_fmap; lia | ].
    intros s Hs. apply list_elem_of_fmap in Hs as (name & -> & Hname).
    change (String tab name) with (String tab EmptyString ++ name)%string.
    rewrite occurrences_app, Hk, (Hclean_names c name Hc Hname). lia. }
  assert (Hcount_row : forall c,
            c = tab \/ c = newline ->
            occurrences c row
            = (2 * occurrences c (String tab EmptyString)
               + pred (length features) * occurrences c (String tab EmptyString)
               + occurrences c (String newline EmptyString))%nat).
  { intros c Hc. subst row.
    rewrite !occurrences_app, occurrences_fmt_int by done.
    rewrite occurrences_concat.
    - rewrite length_fmap.
      assert (Hlabel : occurrences c (if null_peptide then "-1" else "1")%string
                       = 0%nat)
        by (destruct null_peptide, Hc as [-> | ->]; done).
      rewrite Hlabel. lia.
    - intros s Hs. apply list_elem_of_fmap in Hs as (x & -> & _).
      by apply Hclean_numbers. }
  split; [exact Hheader | ]. split; [exact Hrow | ].
  assert (Htab_tab : occurrences tab (String tab EmptyString) = 1%nat)
    by reflexivity.
  assert (Htab_newline : occurrences tab (String newline EmptyString) = 0%nat)
    by reflexivity.
  assert (Hnewline_tab : occurrences newline (String tab EmptyString) = 0%nat)
    by reflexivity.
  assert (Hnewline_newline :
            occurrences newline (String newline EmptyString) = 1%nat)
    by reflexivity.
  assert (Htab_start : occurrences tab ("scan" ++ String tab "label")%string
                       = 1%nat) by reflexivity.
  assert (Hnewline_start :
            occurrences newline ("scan" ++ String tab "label")%string = 0%nat)
    by reflexivity.
  split.
  { rewrite (Hcount_header tab 1%nat (or_introl eq_refl) Htab_tab).
    rewrite Htab_start, Htab_newline. lia. }
  split.
  { rewrite (Hcount_row tab (or_introl eq_refl)).
    rewrite Htab_tab, Htab_newline. lia. }
  split.
  { rewrite (Hcount_header newline 0%nat (or_intror eq_refl) Hnewline_tab).
    rewrite Hnewline_start, Hnewline_newline. lia. }
  split.
  { rewrite (Hcount_row newline (or_intror eq_refl)).
    rewrite Hnewline_tab, Hnewline_newline. lia. }
  split.
  { subst header.
    rewrite <- !DelimitedFileReaderFacts.append_assoc.
    apply ends_with_newline_app. }
  split.
  { subst row.
    rewrite <- !DelimitedFileReaderFacts.append_assoc.
    apply ends_with_newline_app. }
  split; [unfold writeFeatureHeader; by rewrite Hfile | ].
  unfold writeMatchFeatures. rewrite Hfile. cbn [seqZ foldl].
  eexists. split; [reflexivity | ].
  rewrite !occurrences_app, occurrences_fmt_int by (by right).
  by destruct null_peptide.
Qed.

Lemma feature_rows_align_with_header_witness :
  let o : output_files nat nat nat :=
    OutputFilesState 5 PERCOLATOR_COMMAND 1 ["target"%string] None None None
      (Some (File (Some "crux-output"%string) "percolator.features.txt" []))
      1 [] in
  is_Some (feature_file_ o)
  /\ writeFeatureHeader (Some ["xcorr"; "sp"]%string) 2 o
     = Some ("scan" ++ String tab "label" ++ String tab "xcorr" ++ String tab "sp"
             ++ String newline EmptyString)%string
  /\ writeMatchFeatures (fun _ => "0.5000"%string) 12 true
       [S754_zero false; S754_zero false] 2 o
     = Some ("12" ++ String tab "-1" ++ String tab "0.5000" ++ String tab "0.5000"
             ++ String newline EmptyString)%string.
Proof.
  intros o.
  assert (Hopen : is_Some (feature_file_ o)) by (by eexists).
  split; [exact Hopen | ].
  assert (Hnames : forall c name, c = tab \/ c = newline ->
                     name ∈ ["xcorr"; "sp"]%string -> occurrences c name = 0%nat).
  { intros c name Hc Hin.
    repeat (apply elem_of_cons in Hin as [-> | Hin];
            [by destruct Hc as [-> | ->] | ]).
    by apply elem_of_nil in Hin. }
  assert (Hnumbers : forall c (x : spec_float), c = tab \/ c = newline ->
                       occurrences c "0.5000"%string = 0%nat)
    by (intros c x [-> | ->]; done).
  destruct (feature_rows_align_with_header (fun _ => "0.5000"%string) o
              ["xcorr"; "sp"]%string [S754_zero false; S754_zero false] 12 true 2
              Hopen ltac:(lia) eq_refl eq_refl Hnames Hnumbers)
    as (Hheader & Hrow & _).
  split; [exact Hheader | exact Hrow].
Defined.


(** *** Calls in a row *)

Section Calls.
Context {MATCH_COLLECTION_T Spectrum SCORER_TYPE_T : Type}.

Local Abbreviation output_files :=
  (output_files MATCH_COLLECTION_T Spectrum SCORER_TYPE_T).
Local Abbreviation file := (file MATCH_COLLECTION_T Spectrum SCORER_TYPE_T).
Local Abbreviation call := (@call MATCH_COLLECTION_T Spectrum SCORER_TYPE_T).

(** What one call with a target collection and the expected number of
    decoy collections does to the XML files, with a spectrum or
    without. *)
Lemma writeMatches_xml_step (o : output_files) (target : MATCH_COLLECTION_T)
    (decoys : list (option MATCH_COLLECTION_T)) (rank_type : SCORER_TYPE_T)
    (spectrum : option Spectrum) :
  arrays_sized o ->
  Z.of_nat (length decoys) = num_files_ o - 1 ->
  exists o',
    writeMatches (Some target) decoys rank_type spectrum o = Carp.Done o'
    /\ xml_file_array_ o'
       = zip_with (fun m f => put (XmlMatches _ _ _ (matches_per_spec_ o) m spectrum
                                     rank_type (index o)) f)
                  (Some target :: decoys) <$> xml_file_array_ o
    /\ index o' = match xml_file_array_ o with
                  | Some _ => index o + 1
                  | None => index o
                  end
    /\ same_settings o o'
    /\ arrays_sized o'.
Proof.
  intros Hsized Hdecoys. unfold writeMatches.
  apply Z.eqb_eq in Hdecoys as Hguard. rewrite Hguard. cbn [negb].
  eexists. split; [reflexivity | ].
  pose proof Hsized as (Hn & Hd & Hs & Hx).
  set (o1 := printMatchesTab _ _ _ (Some target) decoys rank_type spectrum o).
  assert (Htab : sqt_file_array_ o1 = sqt_file_array_ o
                 /\ xml_file_array_ o1 = xml_file_array_ o
                 /\ index o1 = index o
                 /\ same_settings o o1
                 /\ forall a, delim_file_array_ o1 = Some a ->
                              Z.of_nat (length a) = num_files_ o).
  { subst o1. destruct spectrum as [sp | ].
    - destruct (printMatchesTab_spectrum o (Some target) decoys rank_type sp
                  Hd Hdecoys) as (Hd1 & Hs1 & Hx1 & Hi1 & Hsame1).
      split; [done | ]. split; [done | ]. split; [done | ]. split; [done | ].
      intros a. rewrite Hd1. destruct (delim_file_array_ o) as [a0 | ]; [ | done].
      cbn [fmap option_fmap option_map]. intros Ha.
      assert (Heq : a = zip_with
                          (fun m f => put (TabMatches _ _ _ (matches_per_spec_ o) m
                                             sp rank_type) f)
                          (Some target :: decoys) a0) by congruence.
      rewrite Heq, length_zip_with. cbn [length].
      specialize (Hd a0 eq_refl). lia.
    - destruct (printMatchesTab_multi_spectra o (Some target) decoys rank_type Hd)
        as (Hd1 & Hs1 & Hx1 & Hi1 & Hsame1).
      split; [done | ]. split; [done | ]. split; [done | ]. split; [done | ].
      intros a. rewrite Hd1. destruct (delim_file_array_ o) as [a0 | ]; [ | done].
      cbn [fmap option_fmap option_map]. intros Ha. injection Ha as <-.
      rewrite length_imap. by apply Hd. }
  destruct Htab as (Hs1 & Hx1 & Hi1 & Hsame1 & Hd1).
  pose proof (printMatchesSqt_Xml o o1 (Some target) decoys spectrum rank_type
                Hsized Hdecoys Hs1 Hx1 Hi1 Hsame1) as Hrest.
  cbv zeta in Hrest.
  destruct Hrest as (Hd3 & Hs3 & Hx3 & Hi3 & Hsame3).
  split; [exact Hx3 | ]. split; [exact Hi3 | ]. split; [exact Hsame3 | ].
  pose proof Hsame3 as (_ & _ & Hn3 & _).
  unfold arrays_sized. rewrite Hn3, Hd3, Hs3, Hx3.
  assert (Hzip : forall (g : option MATCH_COLLECTION_T -> file -> file)
                        (arr : option (list file)) (a : list file),
             (forall a0, arr = Some a0 -> Z.of_nat (length a0) = num_files_ o) ->
             zip_with g (Some target :: decoys) <$> arr = Some a ->
             Z.of_nat (length a) = num_files_ o).
  { intros g arr a Harr Ha. destruct arr as [a0 | ]; [ | done].
    assert (Heq : a = zip_with g (Some target :: decoys) a0).
    { cbn [fmap option_fmap option_map] in Ha. congruence. }
    rewrite Heq, length_zip_with. cbn [length].
    specialize (Harr a0 eq_refl). lia. }
  split; [exact Hn | ]. split; [exact Hd1 | ].
  split; intros a Ha.
  - eapply Hzip; [exact Hs | exact Ha].
  - eapply Hzip; [exact Hx | exact Ha].
Qed.

(** The XML files after calls in a row, by induction on the calls. *)
Lemma writeMatches_calls_xml (calls : list call) :
  forall o : output_files,
    arrays_sized o ->
    Forall (fun c => Z.of_nat (length (call_decoys c)) = num_files_ o - 1) calls ->
    exists o',
      writeMatches_calls calls o = Carp.Done o'
      /\ same_settings o o'
      /\ (xml_file_array_ o = None ->
          xml_file_array_ o' = None /\ index o' = index o)
      /\ (forall a, xml_file_array_ o = Some a ->
            index o' = index o + Z.of_nat (length calls)
            /\ exists a',
                 xml_file_array_ o' = Some a'
                 /\ length a' = length a
                 /\ forall i f, a !! i = Some f ->
                      exists f',
                        a' !! i = Some f'
                        /\ content f'
                           = content f
                             ++ imap (fun j c =>
                                        XmlMatches _ _ _ (matches_per_spec_ o)
                                          (collection_for i c) (call_spectrum c)
                                          (call_rank c) (index o + Z.of_nat j))
                                     calls).
Proof.
  induction calls as [ | c calls IH]; intros o Hsized Hcalls.
  - exists o. split; [done | ]. split; [done | ]. split; [done | ].
    intros a Ha. split; [cbn; lia | ].
    exists a. split; [done | ]. split; [done | ].
    intros i f Hf. exists f. split; [done | ]. cbn. by rewrite app_nil_r.
  - apply Forall_cons in Hcalls as [Hc Hcalls].
    destruct (writeMatches_xml_step o (call_target c) (call_decoys c)
                (call_rank c) (call_spectrum c) Hsized Hc)
      as (o1 & Hrun & Hx1 & Hi1 & Hsame1 & Hsized1).
    pose proof Hsame1 as (Hm1 & _ & Hn1 & _).
    rewrite <- Hn1 in Hcalls.
    destruct (IH o1 Hsized1 Hcalls) as (o' & Hruns & Hsame' & Hnone & Hsome).
    exists o'. cbn [writeMatches_calls]. rewrite Hrun. cbn [Carp.bind].
    split; [exact Hruns | ].
    split.
    { destruct Hsame1 as (? & ? & ? & ? & ?), Hsame' as (? & ? & ? & ? & ?).
      unfold same_settings. repeat split; congruence. }
    split.
    { intros Hx. rewrite Hx in Hx1, Hi1. destruct (Hnone Hx1) as [Hx' Hi'].
      split; [done | congruence]. }
    intros a Ha. rewrite Ha in Hx1, Hi1.
    cbn [fmap option_fmap option_map] in Hx1.
    destruct (Hsome _ Hx1) as (Hi' & a' & Hx' & Hlen' & Hcontent).
    split; [cbn [length]; lia | ].
    exists a'. split; [exact Hx' | ].
    destruct Hsized as (_ & _ & _ & Hx).
    assert (Hlen : length (zip_with
                             (fun m f => put (XmlMatches _ _ _ (matches_per_spec_ o)
                                                m (call_spectrum c) (call_rank c)
                                                (index o)) f)
                             (Some (call_target c) :: call_decoys c) a)
                   = length a).
    { rewrite length_zip_with. cbn [length]. specialize (Hx a Ha). lia. }
    split; [congruence | ].
    intros i f Hf.
    assert (Hi : (i < length (Some (call_target c) :: call_decoys c))%nat).
    { apply lookup_lt_Some in Hf. specialize (Hx a Ha). cbn [length]. lia. }
    apply lookup_lt_is_Some_2 in Hi as [m Hm].
    destruct (Hcontent i (put (XmlMatches _ _ _ (matches_per_spec_ o) m
                                 (call_spectrum c) (call_rank c) (index o)) f))
      as (f' & Hf' & Hcontent').
    { apply lookup_zip_with_Some. by exists m, f. }
    exists f'. split; [exact Hf' | ].
    rewrite Hcontent'. cbn [put content imap]. rewrite <- app_assoc. cbn [app].
    do 2 f_equal.
    + unfold collection_for. rewrite Hm. cbn. by rewrite Z.add_0_r.
    + apply imap_ext. intros j c' _. unfold compose. rewrite Hm1, Hi1.
      f_equal. lia.
Qed.
End Calls.

(** X23.  Calls of [writeMatches] in a row, each with a target
    collection and as many decoy collections as there are decoy files,
    all end normally; when there are XML files, the counter of the XML
    printer has gone up by the number of calls, and every XML file has
    received one record for each call, in the order of the calls: the
    record of call [j] (from 0) carries the counter [index + j] and, in
    file [i], the collection of that call that belongs in file [i].
    When there are no XML files the counter stays. *)
Theorem writeMatches_calls_count_up
    {MATCH_COLLECTION_T Spectrum SCORER_TYPE_T : Type}
    (o : output_files MATCH_COLLECTION_T Spectrum SCORER_TYPE_T)
    (calls : list (@call MATCH_COLLECTION_T Spectrum SCORER_TYPE_T)) :
  arrays_sized o ->
  Forall (fun c => Z.of_nat (length (call_decoys c)) = num_files_ o - 1) calls ->
  exists o',
    writeMatches_calls calls o = Carp.Done o'
    /\ (xml_file_array_ o = None -> index o' = index o)
    /\ (forall a, xml_file_array_ o = Some a ->
          index o' = index o + Z.of_nat (length calls)
          /\ exists a',
               xml_file_array_ o' = Some a'
               /\ length a' = length a
               /\ forall i f, a !! i = Some f ->
                    exists f',
                      a' !! i = Some f'
                      /\ content f'
                         = content f
                           ++ imap (fun j c =>
                                      XmlMatches _ _ _ (matches_per_spec_ o)
                                        (collection_for i c) (call_spectrum c)
                                        (call_rank c) (index o + Z.of_nat j))
                                   calls).
Proof.
  intros Hsized Hcalls.
  destruct (writeMatches_calls_xml calls o Hsized Hcalls)
    as (o' & Hrun & _ & Hnone & Hsome).
  exists o'. split; [exact Hrun | ]. split; [ | exact Hsome].
  intros Hx. by destruct (Hnone Hx).
Qed.

Lemma writeMatches_calls_count_up_witness :
  let calls := [Call 7%nat [Some 8%nat] 0%nat (Some 3%nat);
                Call 17%nat [Some 18%nat] 0%nat None] in
  arrays_sized (run_of SEARCH_COMMAND 1)
  /\ Forall (fun c => Z.of_nat (length (call_decoys c))
                      = num_files_ (run_of SEARCH_COMMAND 1) - 1) calls
  /\ exists o',
       writeMatches_calls calls (run_of SEARCH_COMMAND 1) = Carp.Done o'
       /\ index o' = 3
       /\ (content <$> default [] (xml_file_array_ o'))
          = [[XmlMatches _ _ _ 5 (Some 7%nat) (Some 3%nat) 0%nat 1;
              XmlMatches _ _ _ 5 (Some 17%nat) None 0%nat 2];
             [XmlMatches _ _ _ 5 (Some 8%nat) (Some 3%nat) 0%nat 1;
              XmlMatches _ _ _ 5 (Some 18%nat) None 0%nat 2]].
Proof.
  intros calls.
  assert (Hsized : arrays_sized (run_of SEARCH_COMMAND 1))
    by (apply run_of_sized; lia).
  assert (Hcalls : Forall (fun c => Z.of_nat (length (call_decoys c))
                                    = num_files_ (run_of SEARCH_COMMAND 1) - 1)
                          calls)
    by (repeat constructor).
  split; [exact Hsized | ]. split; [exact Hcalls | ].
  destruct (writeMatches_calls_count_up (run_of SEARCH_COMMAND 1) calls
              Hsized Hcalls) as (o' & Hrun & _ & Hsome).
  exists o'. split; [exact Hrun | ].
  cbn in Hrun. injection Hrun as <-. split; reflexivity.
Defined.


End OutputFilesFacts.

(** ** The comparators of matches *)

Module MatchFacts.
Import Match.

(** The difference of a number and itself is +0. *)
Lemma SFsub_diag (prec emax : Z) (x : spec_float) :
  is_number x = true -> SFsub prec emax x x = S754_zero false.
Proof.
  destruct x as [s | s | | s m e]; intros Hx; try discriminate Hx.
  - by destruct s.
  - unfold SFsub. cbv zeta. by rewrite Z.sub_diag.
Qed.

Section Comparators.
Variables prec emax : Z.
Variable MATCH_T : Type.
Variable get_match_score : MATCH_T -> SCORER_TYPE_T -> spec_float.
Variable first_scan : MATCH_T -> Z.
Variable int_of_difference : spec_float -> Z.

Local Abbreviation compare_match :=
  (compare_match prec emax MATCH_T get_match_score int_of_difference).
Local Abbreviation compare_match_spectrum :=
  (compare_match_spectrum MATCH_T get_match_score first_scan).
Local Abbreviation before :=
  (before prec emax MATCH_T get_match_score int_of_difference).
Local Abbreviation sorted_from :=
  (sorted_from prec emax MATCH_T get_match_score int_of_difference).

(** Two matches of the same score compare as 0. *)
Lemma compare_match_same_score (t : SCORER_TYPE_T) (match_a match_b : MATCH_T) :
  int_of_difference (S754_zero false) = 0 ->
  is_number (get_match_score match_a t) = true ->
  get_match_score match_a t = get_match_score match_b t ->
  compare_match t match_a match_b = 0.
Proof.
  intros Hzero Hnumber Hsame. unfold Match.compare_match.
  by rewrite <- Hsame, SFsub_diag.
Qed.

Lemma sorted_pair (t : SCORER_TYPE_T) (match_a match_b : MATCH_T) :
  compare_match t match_a match_b = 0 ->
  Sorted (before t) [match_a; match_b].
Proof.
  intros Hzero. repeat constructor. unfold Match.before. by rewrite Hzero.
Qed.

(** The comparator by spectrum looks at the scan numbers first. *)
Lemma compare_match_spectrum_scan (t : SCORER_TYPE_T) (match_a match_b : MATCH_T) :
  first_scan match_a < first_scan match_b ->
  compare_match_spectrum t match_a match_b = -1.
Proof.
  intros Hscan. unfold Match.compare_match_spectrum.
  apply Z.ltb_lt in Hscan. by rewrite Hscan.
Qed.
End Comparators.




End MatchFacts.

(** ** Retention time predictors *)

Module RetentionPredictorFacts.
Import RetentionPredictor.

(** A loop that keeps the candidate of larger magnitude ends with the
    start value or one of the candidates, and no candidate has a larger
    magnitude than the value it ends with. *)
Lemma larger_magnitude_fold (ds : list spec_float) :
  forall max_diff,
    (foldl larger_magnitude max_diff ds = max_diff
     \/ (foldl larger_magnitude max_diff ds ∈ ds
         /\ foldl larger_magnitude max_diff ds <> S754_nan))
    /\ (forall d, d ∈ ds ->
          SFltb (SFabs (foldl larger_magnitude max_diff ds)) (SFabs d) = false)
    /\ (forall y, SFltb (SFabs max_diff) (SFabs y) = false ->
          SFltb (SFabs (foldl larger_magnitude max_diff ds)) (SFabs y) = false).
Proof.
  induction ds as [ | d ds IH]; intros max_diff.
  - split; [by left | ]. split; [ | done].
    intros d Hd. by apply elem_of_nil in Hd.
  - cbn [foldl].
    destruct (IH (larger_magnitude max_diff d)) as (Hin & Hmax & Hkeep).
    assert (Hstep : forall y, SFltb (SFabs max_diff) (SFabs y) = false ->
                      SFltb (SFabs (larger_magnitude max_diff d)) (SFabs y) = false).
    { intros y Hy. unfold larger_magnitude.
      destruct (SFltb (SFabs max_diff) (SFabs d)) eqn:Htest; [ | done].
      destruct (SFltb (SFabs d) (SFabs y)) eqn:Hdy; [ | done].
      by rewrite (CruxCudaTestFacts.SFltb_trans _ _ _ Htest Hdy) in Hy. }
    assert (Hd : SFltb (SFabs (larger_magnitude max_diff d)) (SFabs d) = false).
    { unfold larger_magnitude.
      destruct (SFltb (SFabs max_diff) (SFabs d)) eqn:Htest; [ | done].
      apply CruxCudaTestFacts.SFltb_irrefl. }
    split; [ | split].
    + destruct Hin as [Hin | [Hin Hnan]].
      * rewrite Hin. unfold larger_magnitude.
        destruct (SFltb (SFabs max_diff) (SFabs d)) eqn:Htest; [ | by left].
        right. split; [by left | ].
        intros Hnan. rewrite Hnan in Htest. cbn in Htest.
        unfold SFltb, SFcompare in Htest. by destruct (SFabs max_diff).
      * right. split; [by right | done].
    + intros x Hx. apply elem_of_cons in Hx as [-> | Hx].
      * by apply Hkeep.
      * by apply Hmax.
    + intros y Hy. by apply Hkeep, Hstep.
Qed.

Section CalcMaxDiff.
Variables prec emax : Z.

Local Abbreviation diff := (diff prec emax).
Local Abbreviation inner_loop := (inner_loop prec emax).

(** The two loops visit the pairs of [pairs] in this order. *)
Lemma loops_visit_pairs (rtimes : list spec_float) (size : Z) (idxs : list Z) :
  size = Z.of_nat (length rtimes) ->
  forall max_diff,
    foldl (inner_loop rtimes) max_diff idxs
    = foldl larger_magnitude max_diff
        ((fun p => diff rtimes (fst p) (snd p))
           <$> (idx1 ← idxs;
                (fun idx2 => (idx1, idx2))
                  <$> seqZ (idx1 + 1) (size - (idx1 + 1)))).
Proof.
  intros ->. induction idxs as [ | idx1 idxs IH]; intros max_diff; [done | ].
  cbn [foldl]. rewrite bind_cons, fmap_app, foldl_app, IH. f_equal.
  unfold RetentionPredictor.inner_loop.
  rewrite <- list_fmap_compose. by rewrite foldl_fmap.
Qed.

Lemma elem_of_pairs (size idx1 idx2 : Z) :
  (idx1, idx2) ∈ pairs size <-> 0 <= idx1 < idx2 /\ idx2 < size.
Proof.
  unfold pairs. rewrite list_elem_of_bind. split.
  - intros (i & Hin & Hi). apply elem_of_seqZ in Hi.
    apply list_elem_of_fmap in Hin as (j & Heq & Hj).
    apply elem_of_seqZ in Hj. injection Heq as -> ->. lia.
  - intros Hrange. exists idx1. split.
    + apply list_elem_of_fmap. exists idx2. split; [done | ].
      apply elem_of_seqZ. lia.
    + apply elem_of_seqZ. lia.
Qed.
End CalcMaxDiff.

(** X15.  [calcMaxDiff] returns 0.0 for fewer than two matches.  For
    any matches, what it returns is 0.0 or the difference of the
    predicted times of two of them, the later match minus the earlier,
    it is never a NaN, and no pair of matches has a difference of
    larger magnitude. *)
Theorem calcMaxDiff_largest_difference
    (prec emax : Z) {Match : Type} (predictRTime : Match -> spec_float)
    (mpsm_match : list Match) :
  let rtimes := predictRTime <$> mpsm_match in
  let size := Z.of_nat (length mpsm_match) in
  let result := calcMaxDiff prec emax Match predictRTime mpsm_match in
  (size <= 1 -> result = CFloat.zero)
  /\ (result = CFloat.zero
      \/ exists idx1 idx2,
           0 <= idx1 < idx2 /\ idx2 < size
           /\ result = diff prec emax rtimes idx1 idx2)
  /\ result <> S754_nan
  /\ (forall idx1 idx2,
        0 <= idx1 < idx2 -> idx2 < size ->
        SFltb (SFabs result) (SFabs (diff prec emax rtimes idx1 idx2)) = false).
Proof.
  intros rtimes size result. subst result. unfold calcMaxDiff. fold size.
  destruct (size <=? 1) eqn:Hsize.
  - split; [done | ]. split; [by left | ]. split; [done | ].
    intros idx1 idx2 H1 H2. apply Z.leb_le in Hsize. lia.
  - apply Z.leb_gt in Hsize. fold rtimes.
    assert (Hlen : size = Z.of_nat (length rtimes))
      by (subst rtimes size; by rewrite length_fmap).
    rewrite <- Hlen.
    rewrite (loops_visit_pairs prec emax rtimes size _ Hlen).
    fold (pairs size).
    destruct (larger_magnitude_fold
                ((fun p => diff prec emax rtimes (fst p) (snd p)) <$> pairs size)
                CFloat.zero) as (Hin & Hmax & _).
    split; [lia | ]. split; [ | split].
    + destruct Hin as [Hin | [Hin _]]; [by left | right].
      apply list_elem_of_fmap in Hin as ([idx1 idx2] & Heq & Hp).
      apply elem_of_pairs in Hp. exists idx1, idx2.
      split; [lia | ]. split; [lia | exact Heq].
    + destruct Hin as [Hin | [_ Hnan]]; [by rewrite Hin | exact Hnan].
    + intros idx1 idx2 H1 H2. apply Hmax.
      apply list_elem_of_fmap. exists (idx1, idx2). split; [done | ].
      apply elem_of_pairs. lia.
Qed.

(** [createRetentionPredictor] in a row, once something went wrong. *)
Lemma create_times_Deleted (rtp_type : RTP_TYPE_T) (c : predictor_class)
    (lg : Carp.log) (k : nat) :
  create_times rtp_type (S k) (Deleted c, lg) = DoubleDelete.
Proof. reflexivity. Qed.

Lemma createRetentionPredictor_NULL (rtp_type : RTP_TYPE_T) :
  exists line, forall lg,
    createRetentionPredictor rtp_type (NULL, lg)
    = Goes (Live (class_of rtp_type), lg ++ [line]).
Proof. destruct rtp_type; by eexists. Qed.

(** X16.  [createRetentionPredictor] creates a predictor only while
    there is none, and never replaces one.  Starting without a
    predictor, one call creates the predictor of the class the
    parameter selects and prints one line; a second call deletes it and
    leaves the pointer at the deleted object; any further call deletes
    that object again.  [getStaticRetentionPredictor] creates the
    predictor after a warning when there is none, returns the same
    predictor in silence when there is one, and after two calls of
    [createRetentionPredictor] it returns the pointer to the deleted
    object, in silence as well. *)
Theorem createRetentionPredictor_never_replaces
    (rtp_type : RTP_TYPE_T) (lg : Carp.log) (k : nat) :
  exists line,
    let live := (Live (class_of rtp_type), lg ++ [line]) in
    let deleted := (Deleted (class_of rtp_type), lg ++ [line]) in
    create_times rtp_type k (NULL, lg)
    = match k with
      | 0%nat => Goes (NULL, lg)
      | 1%nat => Goes live
      | 2%nat => Goes deleted
      | _ => DoubleDelete
      end
    /\ getStaticRetentionPredictor rtp_type (NULL, lg)
       = Goes (Live (class_of rtp_type),
               (Live (class_of rtp_type),
                lg ++ [Carp.Entry Carp.CARP_WARNING "Retention predictor not created!";
                       line]))
    /\ getStaticRetentionPredictor rtp_type live = Goes (fst live, live)
    /\ getStaticRetentionPredictor rtp_type deleted = Goes (fst deleted, deleted).
Proof.
  destruct (createRetentionPredictor_NULL rtp_type) as [line Hcreate].
  exists line. cbv zeta. split; [ | split; [ | split]].
  - destruct k as [ | [ | [ | k]]]; cbn [create_times].
    + done.
    + by rewrite Hcreate.
    + by rewrite Hcreate.
    + by rewrite Hcreate.
  - unfold getStaticRetentionPredictor. cbn [is_null].
    rewrite Hcreate. unfold Carp.carp. cbn [fst].
    by rewrite <- app_assoc.
  - done.
  - done.
Qed.

End RetentionPredictorFacts.
